(** * Dependency service: edge lifecycle, cycle probe, critical path method

    A shallow embedding of the dependency service
    ([services/dependencyService.ts], [controllers/dependencyController.js],
    [types/index.ts]), the properties its specification states about it,
    and further properties read off the code (marked X1, X2, ...).

    Conventions of the embedding.
    - Identifiers are uuids in their canonical text, taken as opaque strings;
      [===] on them, and the store's equality, is [String.eqb].
    - Integer columns ([lag_days], [estimated_duration_days]) are [Z].
    - [new Date()] and [uuidv4()] are inputs of the operation that calls them
      ([now], [uuid]).
    - A thrown JavaScript exception is [Throw e]; an [async] method of the
      service is a function from the world (tables and published messages)
      to a result and a new world. Calls run one at a time.
    - The recursive passes take the call depth they may use ([depth]); a
      pass that needs more throws the engine's [RangeError].
    - Logging is left out.
    - Record fields carry a short prefix ([dep_], [wi_], [node_], [edge_],
      [user_]) because several interfaces of the source share [id]. *)

From Stdlib Require Import ZArith List String Ascii Bool Lia Floats Uint63 Sorted.
From stdpp Require Import gmap strings list fin_maps pretty.

Set Warnings "-inexact-float".

Open Scope string_scope.
Open Scope Z_scope.

(* ===================================================================== *)
(** * JavaScript values used by the service *)
(* ===================================================================== *)

(** Exceptions: [new Error(msg)] thrown by the service, the [TypeError] of a
    property read on [undefined], the [RangeError] of an exhausted call
    stack. *)
Inductive exn : Type :=
| Error (msg : string)
| TypeError (msg : string)
| RangeError (msg : string).

Definition message (e : exn) : string :=
  match e with Error m | TypeError m | RangeError m => m end.

Inductive result (A : Type) : Type :=
| Ok (a : A)
| Throw (e : exn).
Arguments Ok {A} a.
Arguments Throw {A} e.

(** [String.prototype.includes]. *)
Fixpoint includes (s search : string) : bool :=
  String.prefix search s
  || match s with
     | EmptyString => false
     | String _ rest => includes rest search
     end.

(** [Array.prototype.join]. *)
Definition join (sep : string) (l : list string) : string := String.concat sep l.

(** [Array.prototype.includes] on an array of strings. *)
Definition array_includes (l : list string) (x : string) : bool :=
  existsb (String.eqb x) l.

(** The numbers the critical path computation can produce: integers,
    [-Infinity] ([Math.max()] of no argument), [+Infinity], and [NaN]
    (arithmetic on [undefined]). *)
Inductive jsnum : Type :=
| NaN
| NegInf
| PosInf
| Fin (z : Z).

Definition Math_max (a b : jsnum) : jsnum :=
  match a, b with
  | NaN, _ | _, NaN => NaN
  | PosInf, _ | _, PosInf => PosInf
  | NegInf, x | x, NegInf => x
  | Fin x, Fin y => Fin (Z.max x y)
  end.

Definition Math_min (a b : jsnum) : jsnum :=
  match a, b with
  | NaN, _ | _, NaN => NaN
  | NegInf, _ | _, NegInf => NegInf
  | PosInf, x | x, PosInf => x
  | Fin x, Fin y => Fin (Z.min x y)
  end.

(** [a - b]. *)
Definition jsub (a b : jsnum) : jsnum :=
  match a, b with
  | NaN, _ | _, NaN => NaN
  | PosInf, PosInf | NegInf, NegInf => NaN
  | PosInf, _ | _, NegInf => PosInf
  | NegInf, _ | _, PosInf => NegInf
  | Fin x, Fin y => Fin (x - y)
  end.

(** [x === 0]. *)
Definition is_zero (a : jsnum) : bool :=
  match a with Fin 0 => true | _ => false end.

(** [Math.max(...values)]: [-Infinity] for no value. *)
Definition Math_max_all (values : list jsnum) : jsnum :=
  fold_left Math_max values NegInf.

(** [m.get(k)] read as a number: [undefined] behaves as [NaN]. *)
Definition num_get (m : gmap string Z) (k : string) : jsnum :=
  match m !! k with Some z => Fin z | None => NaN end.

Definition jnum_get (m : gmap string jsnum) (k : string) : jsnum :=
  match m !! k with Some x => x | None => NaN end.

(* ===================================================================== *)
(** * Data model ([types/index.ts]) *)
(* ===================================================================== *)

Inductive DependencyType : Type :=
| FINISH_TO_START
| START_TO_START
| FINISH_TO_FINISH
| START_TO_FINISH.

(** [Record<string, any>], kept as its JSON text. *)
Definition json : Type := string.

Record Dependency : Type := {
  dep_id : string;
  dep_tenant_id : string;
  dep_from_id : string;
  dep_to_id : string;
  dep_dependency_type : DependencyType;
  dep_lag_days : Z;
  dep_created_at : Z;
  dep_created_by : string;
  dep_updated_at : Z;
  dep_metadata : json
}.

Record CreateDependencyRequest : Type := {
  req_from_id : string;
  req_to_id : string;
  req_dependency_type : DependencyType;
  req_lag_days : option Z;
  req_metadata : option json
}.

Record UpdateDependencyRequest : Type := {
  upd_dependency_type : option DependencyType;
  upd_lag_days : option Z;
  upd_metadata : option json
}.

Record WorkItem : Type := {
  wi_id : string;
  wi_tenant_id : string;
  wi_type : string;
  wi_title : string;
  wi_status : string;
  wi_estimated_duration_days : option Z
}.

Record User : Type := {
  user_id : string;
  user_tenant_id : string
}.

(** Messages handed to [messageQueue.publish]. *)
Inductive Payload : Type :=
| RecalculateMsg (tenant_id : string) (timestamp : Z)
| CreatedMsg (dependency_id tenant_id user : string) (data : Dependency)
    (timestamp : Z)
| UpdatedMsg (dependency_id tenant_id user : string)
    (before : Dependency) (after : option Dependency)
    (changes : UpdateDependencyRequest)
    (timestamp : Z)
| DeletedMsg (dependency_id tenant_id user : string) (data : Dependency)
    (timestamp : Z).

Record Published : Type := {
  exchange : string;
  routingKey : string;
  payload : Payload
}.

(** The world a service call runs in: the two tables and the messages
    published so far (oldest first). *)
Record World : Type := {
  work_items : list WorkItem;
  dependency_edges : list Dependency;
  published : list Published
}.

(* ===================================================================== *)
(** * The service monad: state passing with exceptions *)
(* ===================================================================== *)

Definition io (A : Type) : Type := World -> result A * World.

Definition ret {A} (a : A) : io A := fun w => (Ok a, w).
Definition throw {A} (e : exn) : io A := fun w => (Throw e, w).
Definition bind {A B} (m : io A) (k : A -> io B) : io B :=
  fun w => match m w with
           | (Ok a, w') => k a w'
           | (Throw e, w') => (Throw e, w')
           end.

Declare Scope io_scope.
Delimit Scope io_scope with io.
Notation "x <~ m ;; k" := (bind m (fun x => k))
  (at level 100, m at next level, right associativity) : io_scope.
Notation "m ;;; k" := (bind m (fun _ => k))
  (at level 100, right associativity) : io_scope.

(** [messageQueue.publish(exchange, routingKey, message)]. *)
Definition publish (ex key : string) (p : Payload) : io unit :=
  fun w => (Ok tt,
            {| work_items := work_items w;
               dependency_edges := dependency_edges w;
               published := (published w ++ [ {| exchange := ex; routingKey := key;
                                                  payload := p |} ])%list |}).

(** [db.transaction(callback)]: [BEGIN], the callback, then [COMMIT]; a throw
    of the callback runs [ROLLBACK], which restores the tables as they were at
    [BEGIN] (messages already handed to the queue are not taken back), and is
    thrown again. *)
Definition transaction {A} (callback : io A) : io A :=
  fun w => match callback w with
           | (Ok a, w') => (Ok a, w')
           | (Throw e, w') =>
               (Throw e, {| work_items := work_items w;
                            dependency_edges := dependency_edges w;
                            published := published w' |})
           end.

(** Reading the tables. *)
Definition read {A} (f : World -> A) : io A := fun w => (Ok (f w), w).

(** Replacing the edge table (the effect of INSERT, UPDATE, DELETE). *)
Definition write_edges (f : list Dependency -> list Dependency) : io unit :=
  fun w => (Ok tt, {| work_items := work_items w;
                      dependency_edges := f (dependency_edges w);
                      published := published w |}).

(* ===================================================================== *)
(** * Edge lifecycle ([DependencyService]) *)
(* ===================================================================== *)

Record CycleDetectionResult : Type := {
  has_cycles : bool;
  cycles : list (list string);
  affected_work_items : list string;
  resolution_suggestions : list string
}.

(** [validateWorkItemsExist]: the ids of [workItemIds] with no row in the
    caller's tenant are reported in the order of the request. *)
Definition validateWorkItemsExist (user : User) (workItemIds : list string) : io unit :=
  (rows <~ read (fun w =>
       List.filter (fun wi => String.eqb (wi_tenant_id wi) (user_tenant_id user)
                              && array_includes workItemIds (wi_id wi))
                   (work_items w)) ;;
   let foundIds := List.map wi_id rows in
   let missingIds := List.filter (fun id => negb (array_includes foundIds id)) workItemIds in
   if (0 <? length missingIds)%nat
   then throw (Error ("WORK_ITEMS_NOT_FOUND: " ++ join ", " missingIds))
   else ret tt)%io.

(** ** The recursive query of [wouldCreateCycle] *)

(** A row of the common table expression [dependency_path]. *)
Record PathRow : Type := {
  path_from_id : string;
  path_to_id : string;
  depth : Z
}.

Section DependencyPath.
Variable edges : list Dependency.
Variable tenantId : string.

(** The non-recursive term: the tenant's edges that leave [start]. *)
Definition path_base (start : string) : list PathRow :=
  List.map (fun de => {| path_from_id := dep_from_id de;
                         path_to_id := dep_to_id de;
                         depth := 1 |})
           (List.filter (fun de => String.eqb (dep_tenant_id de) tenantId
                                   && String.eqb (dep_from_id de) start)
                        edges).

(** The recursive term evaluated on the working table: every row of depth
    below 20 is joined with the tenant's edges that leave its [to_id]. *)
Definition path_step (working : list PathRow) : list PathRow :=
  flat_map (fun dp =>
    if depth dp <? 20
    then List.map (fun de => {| path_from_id := dep_from_id de;
                                path_to_id := dep_to_id de;
                                depth := depth dp + 1 |})
                  (List.filter (fun de => String.eqb (dep_from_id de) (path_to_id dp)
                                          && String.eqb (dep_tenant_id de) tenantId)
                               edges)
    else [])
    working.

(** [WITH RECURSIVE ... UNION ALL]: the working table is replaced by the
    recursive term's rows until it is empty; [rounds] bounds the number of
    replacements. *)
Fixpoint path_iterate (rounds : nat) (working : list PathRow) : list PathRow :=
  match rounds with
  | O => working
  | S rounds' =>
      match working with
      | [] => []
      | _ => working ++ path_iterate rounds' (path_step working)
      end
  end.

(** The rows of [dependency_path]. The guard [dp.depth < 20] empties the
    working table after at most 20 replacements
    (lemma [dependency_path_rounds]). *)
Definition dependency_path (start : string) : list PathRow :=
  path_iterate 20 (path_base start).

(** [SELECT EXISTS(SELECT 1 FROM dependency_path WHERE to_id = $3)]. *)
Definition would_cycle_query (start target : string) : bool :=
  existsb (fun dp => String.eqb (path_to_id dp) target) (dependency_path start).
End DependencyPath.

(** [wouldCreateCycle]: the query runs with [$2 = toId] and [$3 = fromId]. *)
Definition wouldCreateCycle (tenantId fromId toId : string) : io CycleDetectionResult :=
  (wouldCycle <~ read (fun w =>
       would_cycle_query (dependency_edges w) tenantId toId fromId) ;;
   ret {| has_cycles := wouldCycle;
          cycles := if wouldCycle then [[toId; fromId]] else [];
          affected_work_items := if wouldCycle then [fromId; toId] else [];
          resolution_suggestions :=
            if wouldCycle
            then ["Remove existing path or choose different dependency"]
            else [] |})%io.

(** [schedulePathRecalculation]. *)
Definition schedulePathRecalculation (now : Z) (tenantId : string) : io unit :=
  publish "system" "critical_path.recalculate" (RecalculateMsg tenantId now).

(** [getDependencyById]. *)
Definition getDependencyById (user : User) (dependencyId : string) : io (option Dependency) :=
  read (fun w =>
    hd_error (List.filter (fun de => String.eqb (dep_id de) dependencyId
                                     && String.eqb (dep_tenant_id de) (user_tenant_id user))
                          (dependency_edges w))).

(** [createDependency]. *)
Definition createDependency (uuid : string) (now : Z)
    (user : User) (data : CreateDependencyRequest) : io Dependency :=
  transaction
    (validateWorkItemsExist user [req_from_id data; req_to_id data] ;;;
     cycleCheck <~ wouldCreateCycle (user_tenant_id user) (req_from_id data) (req_to_id data) ;;
     if has_cycles cycleCheck
     then match cycles cycleCheck with
          | c :: _ =>
              throw (Error ("CYCLE_DETECTED: Creating this dependency would create a cycle: "
                            ++ join " -> " c))
          | [] => throw (TypeError "Cannot read properties of undefined (reading 'join')")
          end
     else
       existingRows <~ read (fun w =>
           List.filter (fun de => String.eqb (dep_tenant_id de) (user_tenant_id user)
                                  && String.eqb (dep_from_id de) (req_from_id data)
                                  && String.eqb (dep_to_id de) (req_to_id data))
                       (dependency_edges w)) ;;
       if (0 <? length existingRows)%nat
       then throw (Error "DUPLICATE_DEPENDENCY: Dependency already exists between these work items")
       else
         let dependency :=
           {| dep_id := uuid;
              dep_tenant_id := user_tenant_id user;
              dep_from_id := req_from_id data;
              dep_to_id := req_to_id data;
              dep_dependency_type := req_dependency_type data;
              dep_lag_days := default 0 (req_lag_days data);
              dep_created_at := now;
              dep_created_by := user_id user;
              dep_updated_at := now;
              dep_metadata := default "{}" (req_metadata data) |} in
         write_edges (fun rows => (rows ++ [dependency])%list) ;;;
         schedulePathRecalculation now (user_tenant_id user) ;;;
         publish "dependencies" "dependency.created"
                 (CreatedMsg uuid (user_tenant_id user) (user_id user) dependency now) ;;;
         ret dependency)%io.

(** The [SET] clause of [updateDependency], one entry per pushed update. *)
Inductive Assignment : Type :=
| SetDependencyType (t : DependencyType)
| SetLagDays (z : Z)
| SetMetadata (j : json)
| SetUpdatedAt (t : Z).

Definition assign (d : Dependency) (a : Assignment) : Dependency :=
  match a with
  | SetDependencyType t =>
      {| dep_id := dep_id d; dep_tenant_id := dep_tenant_id d; dep_from_id := dep_from_id d;
         dep_to_id := dep_to_id d; dep_dependency_type := t; dep_lag_days := dep_lag_days d;
         dep_created_at := dep_created_at d; dep_created_by := dep_created_by d;
         dep_updated_at := dep_updated_at d; dep_metadata := dep_metadata d |}
  | SetLagDays z =>
      {| dep_id := dep_id d; dep_tenant_id := dep_tenant_id d; dep_from_id := dep_from_id d;
         dep_to_id := dep_to_id d; dep_dependency_type := dep_dependency_type d; dep_lag_days := z;
         dep_created_at := dep_created_at d; dep_created_by := dep_created_by d;
         dep_updated_at := dep_updated_at d; dep_metadata := dep_metadata d |}
  | SetMetadata j =>
      {| dep_id := dep_id d; dep_tenant_id := dep_tenant_id d; dep_from_id := dep_from_id d;
         dep_to_id := dep_to_id d; dep_dependency_type := dep_dependency_type d;
         dep_lag_days := dep_lag_days d;
         dep_created_at := dep_created_at d; dep_created_by := dep_created_by d;
         dep_updated_at := dep_updated_at d; dep_metadata := j |}
  | SetUpdatedAt t =>
      {| dep_id := dep_id d; dep_tenant_id := dep_tenant_id d; dep_from_id := dep_from_id d;
         dep_to_id := dep_to_id d; dep_dependency_type := dep_dependency_type d;
         dep_lag_days := dep_lag_days d;
         dep_created_at := dep_created_at d; dep_created_by := dep_created_by d;
         dep_updated_at := t; dep_metadata := dep_metadata d |}
  end.

(** The pushes guarded by [data.<field> !== undefined], in source order. *)
Definition build_updates (data : UpdateDependencyRequest) : list Assignment :=
  match upd_dependency_type data with Some t => [SetDependencyType t] | None => [] end
  ++ match upd_lag_days data with Some z => [SetLagDays z] | None => [] end
  ++ match upd_metadata data with Some j => [SetMetadata j] | None => [] end.

(** [UPDATE dependency_edges SET ... WHERE id = $n AND tenant_id = $m]. *)
Definition update_rows (updates : list Assignment) (dependencyId tenantId : string)
    (rows : list Dependency) : list Dependency :=
  List.map (fun de => if String.eqb (dep_id de) dependencyId
                         && String.eqb (dep_tenant_id de) tenantId
                      then fold_left assign updates de
                      else de)
           rows.

(** The rows the [UPDATE] hands back through [RETURNING *]. *)
Definition update_returning (updates : list Assignment) (dependencyId tenantId : string)
    (rows : list Dependency) : list Dependency :=
  List.map (fun de => fold_left assign updates de)
           (List.filter (fun de => String.eqb (dep_id de) dependencyId
                                   && String.eqb (dep_tenant_id de) tenantId)
                        rows).

(** [updateDependency]; the result is [result.rows[0]] of the [UPDATE]
    ([None] for [undefined]). *)
Definition updateDependency (now : Z) (user : User) (dependencyId : string)
    (data : UpdateDependencyRequest) : io (option Dependency) :=
  transaction
    (existing <~ getDependencyById user dependencyId ;;
     match existing with
     | None => throw (Error "DEPENDENCY_NOT_FOUND")
     | Some existing =>
         let updates := build_updates data in
         if (length updates =? 0)%nat
         then ret (Some existing)
         else
           let updates := (updates ++ [SetUpdatedAt now])%list in
           returned <~ read (fun w =>
               update_returning updates dependencyId (user_tenant_id user)
                                (dependency_edges w)) ;;
           write_edges (update_rows updates dependencyId (user_tenant_id user)) ;;;
           let updatedDependency := hd_error returned in
           schedulePathRecalculation now (user_tenant_id user) ;;;
           publish "dependencies" "dependency.updated"
                   (UpdatedMsg dependencyId (user_tenant_id user) (user_id user)
                               existing updatedDependency data now) ;;;
           ret updatedDependency
     end)%io.

(** [deleteDependency]. *)
Definition deleteDependency (now : Z) (user : User) (dependencyId : string) : io unit :=
  transaction
    (existing <~ getDependencyById user dependencyId ;;
     match existing with
     | None => throw (Error "DEPENDENCY_NOT_FOUND")
     | Some existing =>
         write_edges (List.filter (fun de => negb (String.eqb (dep_id de) dependencyId
                                                   && String.eqb (dep_tenant_id de)
                                                                 (user_tenant_id user)))) ;;;
         schedulePathRecalculation now (user_tenant_id user) ;;;
         publish "dependencies" "dependency.deleted"
                 (DeletedMsg dependencyId (user_tenant_id user) (user_id user) existing now)
     end)%io.

(* ===================================================================== *)
(** * HTTP boundary ([DependencyController]) *)
(* ===================================================================== *)

(** [res.status(statusCode).json({success, error, message, data})]. *)
Record Response : Type := {
  statusCode : Z;
  success : bool;
  error : option string;
  response_message : option string;
  data : option Dependency
}.

(** [handleError(res, error, message)]: the first branch whose pattern occurs
    in [error.message] decides the status and the code. *)
Definition handleError (e : exn) (fallback : string) : Response :=
  let '(statusCode, errorCode) :=
    if includes (message e) "CYCLE_DETECTED" then (409, "CYCLE_DETECTED")
    else if includes (message e) "NOT_FOUND" then (404, "NOT_FOUND")
    else if includes (message e) "DUPLICATE_DEPENDENCY" then (409, "DUPLICATE_DEPENDENCY")
    else if includes (message e) "WORK_ITEMS_NOT_FOUND" then (400, "WORK_ITEMS_NOT_FOUND")
    else if includes (message e) "INVALID_" then (400, "INVALID_REQUEST")
    else (500, "INTERNAL_ERROR") in
  {| statusCode := statusCode;
     success := false;
     error := Some errorCode;
     response_message := Some (if String.eqb (message e) "" then fallback else message e);
     data := None |}.

(** The body of [POST /api/dependencies]: [from_id], [to_id] and
    [dependency_type] may be absent. *)
Record CreateBody : Type := {
  body_from_id : option string;
  body_to_id : option string;
  body_dependency_type : option DependencyType;
  body_lag_days : option Z;
  body_metadata : option json
}.

(** [!x] for an optional string: absent or empty. *)
Definition falsy (x : option string) : bool :=
  match x with None => true | Some s => String.eqb s "" end.

(** [DependencyController.createDependency]. *)
Definition controller_createDependency (uuid : string) (now : Z) (user : User)
    (body : CreateBody) (w : World) : Response * World :=
  match body_from_id body, body_to_id body, body_dependency_type body with
  | Some from_id, Some to_id, Some dependency_type =>
      if falsy (body_from_id body) || falsy (body_to_id body)
      then ({| statusCode := 400; success := false;
               error := Some "MISSING_REQUIRED_FIELDS";
               response_message := Some "from_id, to_id, and dependency_type are required";
               data := None |}, w)
      else
        match createDependency uuid now user
                {| req_from_id := from_id; req_to_id := to_id;
                   req_dependency_type := dependency_type;
                   req_lag_days := body_lag_days body;
                   req_metadata := body_metadata body |} w with
        | (Ok dependency, w') =>
            ({| statusCode := 201; success := true; error := None;
                response_message := None; data := Some dependency |}, w')
        | (Throw e, w') => (handleError e "Failed to create dependency", w')
        end
  | _, _, _ =>
      ({| statusCode := 400; success := false;
          error := Some "MISSING_REQUIRED_FIELDS";
          response_message := Some "from_id, to_id, and dependency_type are required";
          data := None |}, w)
  end.

(* ===================================================================== *)
(** * The in-memory graph ([types/index.ts]) and the graph builder *)
(* ===================================================================== *)

(** The four date annotations are [new Date(Date.now() + x * 86400000)]; the
    embedding keeps [x], the offset in days. A field that is [undefined] until
    the critical path computation sets it is an [option]. *)
Record GraphNode : Type := {
  node_id : string;
  node_title : string;
  node_type : string;
  node_status : string;
  node_duration_days : Z;
  node_earliest_start : option jsnum;
  node_earliest_finish : option jsnum;
  node_latest_start : option jsnum;
  node_latest_finish : option jsnum;
  node_slack_days : option jsnum;
  node_is_critical : bool
}.

Record GraphEdge : Type := {
  edge_id : string;
  edge_from : string;
  edge_to : string;
  edge_type : DependencyType;
  edge_lag_days : Z;
  edge_is_critical : bool
}.

Record DependencyGraph : Type := {
  nodes : list GraphNode;
  edges : list GraphEdge;
  critical_path : list string;
  cycle_detected : bool;
  graph_cycles : option (list (list string))
}.

Record Bottleneck : Type := {
  work_item_id : string;
  bottleneck_title : string;
  delay_impact_days : Z;
  risk_factors : list string;
  mitigation_suggestions : list string
}.

Record CriticalPathAnalysis : Type := {
  path : list string;
  total_duration_days : jsnum;
  bottlenecks : list Bottleneck;
  risk_score : float;
  completion_probability : float
}.

(** [estimateDuration]: the base duration of the work item's type, 7 for any
    other type. *)
Definition estimateDuration (workItem : WorkItem) : Z :=
  if String.eqb (wi_type workItem) "objective" then 90
  else if String.eqb (wi_type workItem) "strategy" then 60
  else if String.eqb (wi_type workItem) "initiative" then 30
  else if String.eqb (wi_type workItem) "task" then 7
  else if String.eqb (wi_type workItem) "subtask" then 3
  else 7.

(** [buildDependencyGraph]. [x || d] on an optional number takes [d] when [x]
    is absent or 0. *)
Definition buildDependencyGraph (workItems : list WorkItem)
    (dependencies : list Dependency) : DependencyGraph :=
  {| nodes := List.map (fun item =>
        {| node_id := wi_id item;
           node_title := wi_title item;
           node_type := wi_type item;
           node_status := wi_status item;
           node_duration_days :=
             match wi_estimated_duration_days item with
             | None | Some 0 => estimateDuration item
             | Some d => d
             end;
           node_earliest_start := None;
           node_earliest_finish := None;
           node_latest_start := None;
           node_latest_finish := None;
           node_slack_days := None;
           node_is_critical := false |}) workItems;
     edges := List.map (fun dep =>
        {| edge_id := dep_id dep;
           edge_from := dep_from_id dep;
           edge_to := dep_to_id dep;
           edge_type := dep_dependency_type dep;
           edge_lag_days := dep_lag_days dep;
           edge_is_critical := false |}) dependencies;
     critical_path := [];
     cycle_detected := false;
     graph_cycles := None |}.

(* ===================================================================== *)
(** * Critical path method ([calculateCriticalPath]) *)
(* ===================================================================== *)

(** [new Map(graph.nodes.map(n => [n.id, n]))]: a later node of the same id
    replaces an earlier one. *)
Definition nodeMap_of (ns : list GraphNode) : gmap string GraphNode :=
  fold_left (fun m n => <[node_id n := n]> m) ns ∅.

(** [graph.nodes.forEach(node => list.set(node.id, []))]. *)
Definition empty_adjacency (ns : list GraphNode) : gmap string (list string) :=
  fold_left (fun m n => <[node_id n := []]> m) ns ∅.

(** [list.get(k)?.push(v)]. *)
Definition push_to (m : gmap string (list string)) (k v : string)
    : gmap string (list string) :=
  match m !! k with
  | Some l => <[k := (l ++ [v])%list]> m
  | None => m
  end.

Definition adjacencyList_of (g : DependencyGraph) : gmap string (list string) :=
  fold_left (fun m e => push_to m (edge_from e) (edge_to e)) (edges g)
            (empty_adjacency (nodes g)).

Definition reverseAdjacencyList_of (g : DependencyGraph) : gmap string (list string) :=
  fold_left (fun m e => push_to m (edge_to e) (edge_from e)) (edges g)
            (empty_adjacency (nodes g)).

(** [graph.edges.find(e => e.from === a && e.to === b)] and the lag read
    from it: [edge ? edge.lag_days : 0]. *)
Definition find_edge (es : list GraphEdge) (a b : string) : option GraphEdge :=
  List.find (fun e => String.eqb (edge_from e) a && String.eqb (edge_to e) b) es.

Definition lagDays (es : list GraphEdge) (a b : string) : Z :=
  match find_edge es a b with
  | Some edge => edge_lag_days edge
  | None => 0
  end.

Definition undefined_read (prop : string) : exn :=
  TypeError ("Cannot read properties of undefined (reading '" ++ prop ++ "')").

Definition stack_overflow : exn :=
  RangeError "Maximum call stack size exceeded".

(** The two memo tables of the forward pass. *)
Record ForwardState : Type := {
  earliestStart : gmap string Z;
  earliestFinish : gmap string Z
}.

(** The two memo tables of the backward pass. *)
Record BackwardState : Type := {
  latestStart : gmap string jsnum;
  latestFinish : gmap string jsnum
}.

Section Passes.
Variable nodeMap : gmap string GraphNode.
Variable adjacencyList reverseAdjacencyList : gmap string (list string).
Variable graph_edges : list GraphEdge.

(** The [for] loop of [forwardPass] over the predecessors; [rec] is the
    recursive call. *)
Fixpoint forward_loop (rec : string -> ForwardState -> result (Z * ForwardState))
    (nodeId : string) (predecessors : list string)
    (maxPredecessorFinish : Z) (st : ForwardState) : result (Z * ForwardState) :=
  match predecessors with
  | [] => Ok (maxPredecessorFinish, st)
  | predId :: rest =>
      match rec predId st with
      | Throw e => Throw e
      | Ok (predFinish, st') =>
          forward_loop rec nodeId rest
            (Z.max maxPredecessorFinish (predFinish + lagDays graph_edges predId nodeId))
            st'
      end
  end.

(** [forwardPass]; [depth] is the call depth still available, and running
    out of it is the engine's [RangeError]. *)
Fixpoint forwardPass (depth : nat) (nodeId : string) (st : ForwardState)
    : result (Z * ForwardState) :=
  match depth with
  | O => Throw stack_overflow
  | S depth' =>
      match earliestFinish st !! nodeId with
      | Some finish => Ok (finish, st)
      | None =>
          let predecessors := default [] (reverseAdjacencyList !! nodeId) in
          match forward_loop (forwardPass depth') nodeId predecessors 0 st with
          | Throw e => Throw e
          | Ok (maxPredecessorFinish, st') =>
              match nodeMap !! nodeId with
              | None => Throw (undefined_read "duration_days")
              | Some node =>
                  let finish := maxPredecessorFinish + node_duration_days node in
                  Ok (finish,
                      {| earliestStart := <[nodeId := maxPredecessorFinish]> (earliestStart st');
                         earliestFinish := <[nodeId := finish]> (earliestFinish st') |})
              end
          end
      end
  end.

(** [graph.nodes.forEach(node => forwardPass(node.id))]. *)
Fixpoint forward_all (depth : nat) (ns : list GraphNode) (st : ForwardState)
    : result ForwardState :=
  match ns with
  | [] => Ok st
  | node :: rest =>
      match forwardPass depth (node_id node) st with
      | Throw e => Throw e
      | Ok (_, st') => forward_all depth rest st'
      end
  end.

Variable forward : ForwardState.
Variable projectCompletion : jsnum.

(** The [for] loop of [backwardPass] over the successors. *)
Fixpoint backward_loop (rec : string -> BackwardState -> result (jsnum * BackwardState))
    (nodeId : string) (successors : list string)
    (minSuccessorStart : jsnum) (st : BackwardState) : result (jsnum * BackwardState) :=
  match successors with
  | [] => Ok (minSuccessorStart, st)
  | succId :: rest =>
      match rec succId st with
      | Throw e => Throw e
      | Ok (succStart, st') =>
          backward_loop rec nodeId rest
            (Math_min minSuccessorStart
                      (jsub succStart (Fin (lagDays graph_edges nodeId succId))))
            st'
      end
  end.

(** [backwardPass]. *)
Fixpoint backwardPass (depth : nat) (nodeId : string) (st : BackwardState)
    : result (jsnum * BackwardState) :=
  match depth with
  | O => Throw stack_overflow
  | S depth' =>
      match latestStart st !! nodeId with
      | Some start => Ok (start, st)
      | None =>
          let successors := default [] (adjacencyList !! nodeId) in
          match
            match successors with
            | [] => Ok (num_get (earliestFinish forward) nodeId, st)
            | _ => backward_loop (backwardPass depth') nodeId successors
                                 projectCompletion st
            end
          with
          | Throw e => Throw e
          | Ok (minSuccessorStart, st') =>
              match nodeMap !! nodeId with
              | None => Throw (undefined_read "duration_days")
              | Some node =>
                  let start := jsub minSuccessorStart (Fin (node_duration_days node)) in
                  Ok (start,
                      {| latestStart := <[nodeId := start]> (latestStart st');
                         latestFinish := <[nodeId := minSuccessorStart]> (latestFinish st') |})
              end
          end
      end
  end.

(** [graph.nodes.forEach(node => backwardPass(node.id))]. *)
Fixpoint backward_all (depth : nat) (ns : list GraphNode) (st : BackwardState)
    : result BackwardState :=
  match ns with
  | [] => Ok st
  | node :: rest =>
      match backwardPass depth (node_id node) st with
      | Throw e => Throw e
      | Ok (_, st') => backward_all depth rest st'
      end
  end.

Variable backward : BackwardState.

(** The slack of a node id: [latestStart.get(id) - earliestStart.get(id)]. *)
Definition slack_of (id : string) : jsnum :=
  jsub (jnum_get (latestStart backward) id) (num_get (earliestStart forward) id).

(** The annotations written on one node. *)
Definition annotate (node : GraphNode) : GraphNode :=
  {| node_id := node_id node;
     node_title := node_title node;
     node_type := node_type node;
     node_status := node_status node;
     node_duration_days := node_duration_days node;
     node_earliest_start := Some (num_get (earliestStart forward) (node_id node));
     node_earliest_finish := Some (num_get (earliestFinish forward) (node_id node));
     node_latest_start := Some (jnum_get (latestStart backward) (node_id node));
     node_latest_finish := Some (jnum_get (latestFinish backward) (node_id node));
     node_slack_days := Some (slack_of (node_id node));
     node_is_critical := is_zero (slack_of (node_id node)) |}.
End Passes.

(** [edge.is_critical = fromNode.is_critical && toNode.is_critical], the
    nodes read through the node map (which holds the annotated node objects);
    [toNode.is_critical] is read only when [fromNode.is_critical] is true. *)
Definition mark_edge (annotated : gmap string GraphNode) (edge : GraphEdge)
    : result GraphEdge :=
  let set (b : bool) :=
    {| edge_id := edge_id edge; edge_from := edge_from edge; edge_to := edge_to edge;
       edge_type := edge_type edge; edge_lag_days := edge_lag_days edge;
       edge_is_critical := b |} in
  match annotated !! edge_from edge with
  | None => Throw (undefined_read "is_critical")
  | Some fromNode =>
      if node_is_critical fromNode
      then match annotated !! edge_to edge with
           | None => Throw (undefined_read "is_critical")
           | Some toNode => Ok (set (node_is_critical toNode))
           end
      else Ok (set false)
  end.

Fixpoint mark_edges (annotated : gmap string GraphNode) (es : list GraphEdge)
    : result (list GraphEdge) :=
  match es with
  | [] => Ok []
  | edge :: rest =>
      match mark_edge annotated edge with
      | Throw e => Throw e
      | Ok edge' =>
          match mark_edges annotated rest with
          | Throw e => Throw e
          | Ok rest' => Ok (edge' :: rest')
          end
      end
  end.

Definition empty_forward : ForwardState :=
  {| earliestStart := ∅; earliestFinish := ∅ |}.
Definition empty_backward : BackwardState :=
  {| latestStart := ∅; latestFinish := ∅ |}.

(** [Math.max(...Array.from(earliestFinish.values()))]. *)
Definition projectCompletion_of (forward : ForwardState) : jsnum :=
  Math_max_all (List.map (fun kv => Fin (snd kv)) (map_to_list (earliestFinish forward))).

(** [calculateCriticalPath]: the analysis it returns, and the graph as its
    annotations leave it. [depth] is the call depth available to each
    recursive pass. *)
Definition calculateCriticalPath (depth : nat) (graph : DependencyGraph)
    : result (CriticalPathAnalysis * DependencyGraph) :=
  let nodeMap := nodeMap_of (nodes graph) in
  let adjacencyList := adjacencyList_of graph in
  let reverseAdjacencyList := reverseAdjacencyList_of graph in
  match forward_all nodeMap reverseAdjacencyList (edges graph) depth (nodes graph)
                    empty_forward with
  | Throw e => Throw e
  | Ok forward =>
      let projectCompletion := projectCompletion_of forward in
      match backward_all nodeMap adjacencyList (edges graph) forward projectCompletion
                         depth (nodes graph) empty_backward with
      | Throw e => Throw e
      | Ok backward =>
          let criticalNodes :=
            List.map node_id
              (List.filter (fun node => is_zero (slack_of forward backward (node_id node)))
                           (nodes graph)) in
          let annotated := List.map (annotate forward backward) (nodes graph) in
          match mark_edges (nodeMap_of annotated) (edges graph) with
          | Throw e => Throw e
          | Ok edges' =>
              Ok ({| path := criticalNodes;
                     total_duration_days := projectCompletion;
                     bottlenecks := [];
                     risk_score := 0%float;
                     completion_probability := 0%float |},
                  {| nodes := annotated;
                     edges := edges';
                     critical_path := critical_path graph;
                     cycle_detected := cycle_detected graph;
                     graph_cycles := graph_cycles graph |})
          end
      end
  end.

(* ===================================================================== *)
(** * Cycle detection on the in-memory graph ([detectCycles]) *)
(* ===================================================================== *)

Record DfsState : Type := {
  visited : gset string;
  recursionStack : gset string;
  found_cycles : list (list string)
}.

(** [path.slice(path.indexOf(x))]: from the first occurrence of [x]; when [x]
    does not occur the index is -1 and the slice is the last element. *)
Fixpoint slice_from_first (x : string) (path : list string) : option (list string) :=
  match path with
  | [] => None
  | y :: rest => if String.eqb y x then Some path else slice_from_first x rest
  end.

Definition slice_at_indexOf (x : string) (path : list string) : list string :=
  match slice_from_first x path with
  | Some l => l
  | None => match List.rev path with [] => [] | y :: _ => [y] end
  end.

Section Dfs.
Variable adjacencyList : gmap string (list string).

(** The [for] loop of [dfs] over the neighbours; [path] already ends with
    the current node. *)
Fixpoint dfs_loop (rec : string -> list string -> DfsState -> result (bool * DfsState))
    (path : list string) (neighbors : list string) (st : DfsState)
    : result (bool * DfsState) :=
  match neighbors with
  | [] => Ok (false, st)
  | neighbor :: rest =>
      if negb (bool_decide (neighbor ∈ visited st))
      then match rec neighbor path st with
           | Throw e => Throw e
           | Ok (true, st') => Ok (true, st')
           | Ok (false, st') => dfs_loop rec path rest st'
           end
      else if bool_decide (neighbor ∈ recursionStack st)
      then Ok (true,
               {| visited := visited st;
                  recursionStack := recursionStack st;
                  found_cycles :=
                    (found_cycles st ++ [slice_at_indexOf neighbor path ++ [neighbor]])%list |})
      else dfs_loop rec path rest st
  end.

Fixpoint dfs (depth : nat) (nodeId : string) (path : list string) (st : DfsState)
    : result (bool * DfsState) :=
  match depth with
  | O => Throw stack_overflow
  | S depth' =>
      let st1 := {| visited := {[nodeId]} ∪ visited st;
                    recursionStack := {[nodeId]} ∪ recursionStack st;
                    found_cycles := found_cycles st |} in
      let path1 := (path ++ [nodeId])%list in
      match dfs_loop (dfs depth') path1 (default [] (adjacencyList !! nodeId)) st1 with
      | Throw e => Throw e
      | Ok (true, st') => Ok (true, st')
      | Ok (false, st') =>
          Ok (false, {| visited := visited st';
                        recursionStack := recursionStack st' ∖ {[nodeId]};
                        found_cycles := found_cycles st' |})
      end
  end.

(** [for (const node of graph.nodes) if (!visited.has(node.id)) dfs(node.id, [])]. *)
Fixpoint dfs_all (depth : nat) (ns : list GraphNode) (st : DfsState) : result DfsState :=
  match ns with
  | [] => Ok st
  | node :: rest =>
      if negb (bool_decide (node_id node ∈ visited st))
      then match dfs depth (node_id node) [] st with
           | Throw e => Throw e
           | Ok (_, st') => dfs_all depth rest st'
           end
      else dfs_all depth rest st
  end.
End Dfs.

(** [Array.from(new Set(items))]: first occurrences, in order. *)
Definition distinct (items : list string) : list string :=
  fold_left (fun acc x => if array_includes acc x then acc else (acc ++ [x])%list) items [].

(** [a[i]] inside a template string. *)
Definition template_at (a : list string) (i : Z) : string :=
  if i <? 0 then "undefined"
  else match nth_error a (Z.to_nat i) with Some s => s | None => "undefined" end.

(** [generateCycleResolutions]. *)
Fixpoint cycle_resolutions_from (index : nat) (cs : list (list string)) : list string :=
  match cs with
  | [] => []
  | cycle :: rest =>
      ("Cycle " ++ pretty (index + 1)%nat ++ ": Consider removing dependency between "
         ++ template_at cycle (Z.of_nat (length cycle) - 2) ++ " and "
         ++ template_at cycle (Z.of_nat (length cycle) - 1))
      :: ("Cycle " ++ pretty (index + 1)%nat ++ ": Alternative - Split work item "
            ++ template_at cycle 0 ++ " to break the cycle")
      :: cycle_resolutions_from (S index) rest
  end.

Definition generateCycleResolutions (cs : list (list string)) : list string :=
  cycle_resolutions_from 0 cs.

(** [detectCycles]. *)
Definition detectCycles (depth : nat) (graph : DependencyGraph) : result CycleDetectionResult :=
  let adjacencyList :=
    fold_left (fun m e => push_to m (edge_from e) (edge_to e)) (edges graph)
              (empty_adjacency (nodes graph)) in
  match dfs_all adjacencyList depth (nodes graph)
                {| visited := ∅; recursionStack := ∅; found_cycles := [] |} with
  | Throw e => Throw e
  | Ok st =>
      Ok {| has_cycles := (0 <? length (found_cycles st))%nat;
            cycles := found_cycles st;
            affected_work_items := distinct (List.concat (found_cycles st));
            resolution_suggestions := generateCycleResolutions (found_cycles st) |}
  end.

(* ===================================================================== *)
(** * Reading a tenant's graph ([getDependencyGraph]) *)
(* ===================================================================== *)

(** The two [SELECT]s of [getDependencyGraph]; [workItemIds] is the optional
    filter, [id = ANY($2)] is membership in it. *)
Definition select_work_items (tenant : string) (workItemIds : option (list string))
    (w : World) : list WorkItem :=
  List.filter (fun wi => String.eqb (wi_tenant_id wi) tenant
                         && match workItemIds with
                            | Some ids => array_includes ids (wi_id wi)
                            | None => true
                            end)
              (work_items w).

Definition select_dependencies (tenant : string) (workItemIds : option (list string))
    (w : World) : list Dependency :=
  List.filter (fun de => String.eqb (dep_tenant_id de) tenant
                         && match workItemIds with
                            | Some ids => array_includes ids (dep_from_id de)
                                          || array_includes ids (dep_to_id de)
                            | None => true
                            end)
              (dependency_edges w).

(** Steps 1 to 3 of [getDependencyGraph]: the graph handed to the critical
    path computation. *)
Definition built_graph (user : User) (workItemIds : option (list string)) (w : World)
    : DependencyGraph :=
  buildDependencyGraph (select_work_items (user_tenant_id user) workItemIds w)
                       (select_dependencies (user_tenant_id user) workItemIds w).

(** [getDependencyGraph]. [detectCycles] runs on the graph as
    [calculateCriticalPath] left it. *)
Definition getDependencyGraph (depth : nat) (user : User)
    (workItemIds : option (list string)) : io DependencyGraph :=
  fun w =>
    let graph := built_graph user workItemIds w in
    match calculateCriticalPath depth graph with
    | Throw e => (Throw e, w)
    | Ok (criticalPath, graph') =>
        match detectCycles depth graph' with
        | Throw e => (Throw e, w)
        | Ok cycleDetection =>
            (Ok {| nodes := nodes graph';
                   edges := edges graph';
                   critical_path := path criticalPath;
                   cycle_detected := has_cycles cycleDetection;
                   graph_cycles := Some (cycles cycleDetection) |}, w)
        end
    end.

(* ===================================================================== *)
(** * Analysis layer ([calculateRiskScore], [estimateCompletionProbability]) *)
(* ===================================================================== *)

(** The score is computed in IEEE 754 double precision, as in the source. *)

Definition is_neg_zero (x : float) : bool :=
  PrimFloat.eqb x 0 && PrimFloat.ltb (1 / x) 0.

(** [Math.min(a, b)] and [Math.max(a, b)] on doubles: [NaN] when an
    argument is [NaN]; [-0] is below [+0]. *)
Definition float_min (a b : float) : float :=
  if PrimFloat.is_nan a || PrimFloat.is_nan b then PrimFloat.nan
  else if PrimFloat.ltb a b then a
  else if PrimFloat.ltb b a then b
  else if is_neg_zero a then a else b.

Definition float_max (a b : float) : float :=
  if PrimFloat.is_nan a || PrimFloat.is_nan b then PrimFloat.nan
  else if PrimFloat.ltb a b then b
  else if PrimFloat.ltb b a then a
  else if is_neg_zero a then b else a.

(** An array length as a double. *)
Definition float_of_length {A} (l : list A) : float :=
  PrimFloat.of_uint63 (Uint63.of_Z (Z.of_nat (length l))).

(** [calculateRiskScore]. *)
Definition calculateRiskScore (graph : DependencyGraph) : float :=
  let riskScore := 0%float in
  let criticalNodes := List.filter node_is_critical (nodes graph) in
  let blockedNodes :=
    List.filter (fun n => String.eqb (node_status n) "blocked") (nodes graph) in
  let longDurationNodes :=
    List.filter (fun n => 30 <? node_duration_days n) (nodes graph) in
  let riskScore := (riskScore + float_of_length criticalNodes * 0.3)%float in
  let riskScore := (riskScore + float_of_length blockedNodes * 0.5)%float in
  let riskScore := (riskScore + float_of_length longDurationNodes * 0.2)%float in
  float_min (riskScore / float_of_length (nodes graph))%float 1%float.

(** [estimateCompletionProbability]. *)
Definition estimateCompletionProbability (riskScore : float) : float :=
  float_max 0.1%float (1 - riskScore)%float.

(** [generateMitigationSuggestions]. *)
Definition generateMitigationSuggestions (riskFactors : list string) : list string :=
  ((if array_includes riskFactors "High dependency count"
    then ["Consider parallel execution of dependent tasks"] else [])
   ++ (if array_includes riskFactors "Long duration"
       then ["Break down into smaller tasks"; "Add intermediate milestones"] else [])
   ++ (if array_includes riskFactors "Currently blocked"
       then ["Escalate blocker resolution"; "Identify alternative approaches"] else []))%list.

(** [Array.prototype.sort] with the comparator
    [(a, b) => b.delay_impact_days - a.delay_impact_days]: decreasing impact,
    equal impacts in their original order. *)
Fixpoint insert_by_impact (b : Bottleneck) (sorted : list Bottleneck) : list Bottleneck :=
  match sorted with
  | [] => [b]
  | c :: rest =>
      if delay_impact_days b <? delay_impact_days c
      then c :: insert_by_impact b rest
      else b :: sorted
  end.

Definition sort_by_impact (bs : list Bottleneck) : list Bottleneck :=
  fold_right insert_by_impact [] bs.

(** [identifyBottlenecks]. *)
Definition identifyBottlenecks (graph : DependencyGraph) : list Bottleneck :=
  sort_by_impact
    (flat_map (fun node =>
       if node_is_critical node
          && match node_slack_days node with Some slack => is_zero slack | None => false end
       then
         let incomingEdges :=
           List.filter (fun e => String.eqb (edge_to e) (node_id node)) (edges graph) in
         let outgoingEdges :=
           List.filter (fun e => String.eqb (edge_from e) (node_id node)) (edges graph) in
         let riskFactors :=
           ((if (3 <? length incomingEdges)%nat then ["High dependency count"] else [])
            ++ (if (3 <? length outgoingEdges)%nat then ["Blocks many items"] else [])
            ++ (if String.eqb (node_status node) "blocked" then ["Currently blocked"] else [])
            ++ (if 30 <? node_duration_days node then ["Long duration"] else []))%list in
         if (0 <? length riskFactors)%nat
         then [ {| work_item_id := node_id node;
                   bottleneck_title := node_title node;
                   delay_impact_days := node_duration_days node;
                   risk_factors := riskFactors;
                   mitigation_suggestions := generateMitigationSuggestions riskFactors |} ]
         else []
       else [])
       (nodes graph)).

(** [getCriticalPathAnalysis]: the second run of the critical path
    computation works on the graph [getDependencyGraph] returned, whose nodes
    carry the annotations of the first. *)
Definition getCriticalPathAnalysis (depth : nat) (user : User) : io CriticalPathAnalysis :=
  fun w =>
    match getDependencyGraph depth user None w with
    | (Throw e, w') => (Throw e, w')
    | (Ok graph, w') =>
        match calculateCriticalPath depth graph with
        | Throw e => (Throw e, w')
        | Ok (criticalPath, graph') =>
            let bottlenecks := identifyBottlenecks graph' in
            let riskScore := calculateRiskScore graph' in
            (Ok {| path := path criticalPath;
                   total_duration_days := total_duration_days criticalPath;
                   bottlenecks := bottlenecks;
                   risk_score := riskScore;
                   completion_probability := estimateCompletionProbability riskScore |},
             w')
        end
    end.

(* ===================================================================== *)
(** * The remaining entry points of the service and of the controller *)
(* ===================================================================== *)

(** [detectCyclesInTenant]. *)
Definition detectCyclesInTenant (depth : nat) (user : User) : io CycleDetectionResult :=
  fun w =>
    match getDependencyGraph depth user None w with
    | (Throw e, w') => (Throw e, w')
    | (Ok graph, w') =>
        match detectCycles depth graph with
        | Throw e => (Throw e, w')
        | Ok r => (Ok r, w')
        end
    end.

(** The JSON answer of a controller method whose [data] is an [A];
    [res.json] without [res.status] answers 200. *)
Record Reply (A : Type) : Type := {
  reply_status : Z;
  reply_success : bool;
  reply_error : option string;
  reply_message : option string;
  reply_data : option A
}.
Arguments reply_status {A} _.
Arguments reply_success {A} _.
Arguments reply_error {A} _.
Arguments reply_message {A} _.
Arguments reply_data {A} _.

(** The answer [handleError] sends, for a method whose data is an [A]. *)
Definition error_reply {A} (e : exn) (fallback : string) : Reply A :=
  {| reply_status := statusCode (handleError e fallback);
     reply_success := success (handleError e fallback);
     reply_error := error (handleError e fallback);
     reply_message := response_message (handleError e fallback);
     reply_data := None |}.

(** The answer to a request without [req.params.id]. *)
Definition missing_dependency_id {A} : Reply A :=
  {| reply_status := 400; reply_success := false;
     reply_error := Some "MISSING_DEPENDENCY_ID";
     reply_message := Some "Dependency ID is required";
     reply_data := None |}.

(** [DependencyController.updateDependency]. *)
Definition controller_updateDependency (now : Z) (user : User) (id : option string)
    (data : UpdateDependencyRequest) (w : World) : Reply Dependency * World :=
  if falsy id then (missing_dependency_id, w)
  else
    match updateDependency now user (default "" id) data w with
    | (Ok dependency, w') =>
        ({| reply_status := 200; reply_success := true; reply_error := None;
            reply_message := None; reply_data := dependency |}, w')
    | (Throw e, w') => (error_reply e "Failed to update dependency", w')
    end.

(** [DependencyController.deleteDependency]. *)
Definition controller_deleteDependency (now : Z) (user : User) (id : option string)
    (w : World) : Reply unit * World :=
  if falsy id then (missing_dependency_id, w)
  else
    match deleteDependency now user (default "" id) w with
    | (Ok _, w') =>
        ({| reply_status := 200; reply_success := true; reply_error := None;
            reply_message := Some "Dependency deleted successfully";
            reply_data := None |}, w')
    | (Throw e, w') => (error_reply e "Failed to delete dependency", w')
    end.

(** [DependencyController.getDependency]. *)
Definition controller_getDependency (user : User) (id : option string) (w : World)
    : Reply Dependency * World :=
  if falsy id then (missing_dependency_id, w)
  else
    match getDependencyById user (default "" id) w with
    | (Ok None, w') =>
        ({| reply_status := 404; reply_success := false;
            reply_error := Some "DEPENDENCY_NOT_FOUND";
            reply_message := Some "Dependency not found";
            reply_data := None |}, w')
    | (Ok (Some dependency), w') =>
        ({| reply_status := 200; reply_success := true; reply_error := None;
            reply_message := None; reply_data := Some dependency |}, w')
    | (Throw e, w') => (error_reply e "Failed to get dependency", w')
    end.

(** [s.split(',')]. *)
Fixpoint split_comma (s : string) : list string :=
  match s with
  | EmptyString => [""]
  | String c rest =>
      if Ascii.eqb c ","
      then "" :: split_comma rest
      else match split_comma rest with
           | x :: xs => String c x :: xs
           | [] => [String c ""]
           end
  end.

(** [DependencyController.getDependencyGraph]; [work_item_ids] is the query
    parameter, absent or a string. *)
Definition controller_getDependencyGraph (depth : nat) (user : User)
    (work_item_ids : option string) (w : World) : Reply DependencyGraph * World :=
  let workItemIds :=
    if falsy work_item_ids then None else Some (split_comma (default "" work_item_ids)) in
  match getDependencyGraph depth user workItemIds w with
  | (Ok graph, w') =>
      ({| reply_status := 200; reply_success := true; reply_error := None;
          reply_message := None; reply_data := Some graph |}, w')
  | (Throw e, w') => (error_reply e "Failed to get dependency graph", w')
  end.

(** [DependencyController.getCriticalPath]. *)
Definition controller_getCriticalPath (depth : nat) (user : User) (w : World)
    : Reply CriticalPathAnalysis * World :=
  match getCriticalPathAnalysis depth user w with
  | (Ok analysis, w') =>
      ({| reply_status := 200; reply_success := true; reply_error := None;
          reply_message := None; reply_data := Some analysis |}, w')
  | (Throw e, w') => (error_reply e "Failed to get critical path analysis", w')
  end.

(** [DependencyController.detectCycles]. *)
Definition controller_detectCycles (depth : nat) (user : User) (w : World)
    : Reply CycleDetectionResult * World :=
  match detectCyclesInTenant depth user w with
  | (Ok cycles, w') =>
      ({| reply_status := 200; reply_success := true; reply_error := None;
          reply_message := None; reply_data := Some cycles |}, w')
  | (Throw e, w') => (error_reply e "Failed to detect cycles", w')
  end.

(** A mutation of the edge lifecycle: create, update or delete. *)
Inductive Mutation : Type :=
| MCreate (uuid : string) (now : Z) (user : User) (data : CreateDependencyRequest)
| MUpdate (now : Z) (user : User) (dependencyId : string) (data : UpdateDependencyRequest)
| MDelete (now : Z) (user : User) (dependencyId : string).

(** The caller of a mutation, and its time. *)
Definition mutation_user (m : Mutation) : User :=
  match m with
  | MCreate _ _ user _ | MUpdate _ user _ _ | MDelete _ user _ => user
  end.

Definition mutation_now (m : Mutation) : Z :=
  match m with
  | MCreate _ now _ _ | MUpdate now _ _ _ | MDelete now _ _ => now
  end.

(** The routing key of the event a mutation publishes. *)
Definition mutation_key (m : Mutation) : string :=
  match m with
  | MCreate _ _ _ _ => "dependency.created"
  | MUpdate _ _ _ _ => "dependency.updated"
  | MDelete _ _ _ => "dependency.deleted"
  end.

(** Running a mutation: whether it threw, and the world it leaves. *)
Definition mutate (m : Mutation) (w : World) : result unit * World :=
  match m with
  | MCreate uuid now user data =>
      match createDependency uuid now user data w with
      | (Ok _, w') => (Ok tt, w')
      | (Throw e, w') => (Throw e, w')
      end
  | MUpdate now user dependencyId data =>
      match updateDependency now user dependencyId data w with
      | (Ok _, w') => (Ok tt, w')
      | (Throw e, w') => (Throw e, w')
      end
  | MDelete now user dependencyId => deleteDependency now user dependencyId w
  end.

(** The world after a sequence of mutations that all succeed. *)
Fixpoint mutations_ok (ms : list Mutation) (w : World) : option World :=
  match ms with
  | [] => Some w
  | m :: rest =>
      match mutate m w with
      | (Ok _, w') => mutations_ok rest w'
      | (Throw _, _) => None
      end
  end.


(* ===================================================================== *)
(** * Sequences of lifecycle calls, walks and cycles *)
(* ===================================================================== *)

(** The stored edges of one tenant, as pairs [(from_id, to_id)]. *)
Definition tenant_edges (tenant : string) (rows : list Dependency)
    : list (string * string) :=
  List.map (fun de => (dep_from_id de, dep_to_id de))
           (List.filter (fun de => String.eqb (dep_tenant_id de) tenant) rows).

(** [walk E n a b]: [n] consecutive edges of [E] lead from [a] to [b]. *)
Inductive walk (E : list (string * string)) : nat -> string -> string -> Prop :=
| walk_here a : walk E 0 a a
| walk_edge n a b c : In (a, b) E -> walk E n b c -> walk E (S n) a c.

(** A cycle is a walk of at least one edge from a node back to itself (a
    self-loop is the cycle of one edge). *)
Definition acyclic (E : list (string * string)) : Prop :=
  forall n a, ~ walk E (S n) a a.

(** No cycle of at most [k] edges. *)
Definition acyclic_upto (k : nat) (E : list (string * string)) : Prop :=
  forall n a, (S n <= k)%nat -> ~ walk E (S n) a a.

(** A mutation call of the edge lifecycle. *)
Inductive Call : Type :=
| CallCreate (uuid : string) (now : Z) (user : User) (data : CreateDependencyRequest)
| CallDelete (now : Z) (user : User) (dependencyId : string).

(** The world after a call that succeeds; [None] when the call throws. *)
Definition call_ok (c : Call) (w : World) : option World :=
  match c with
  | CallCreate uuid now user data =>
      match createDependency uuid now user data w with
      | (Ok _, w') => Some w'
      | (Throw _, _) => None
      end
  | CallDelete now user dependencyId =>
      match deleteDependency now user dependencyId w with
      | (Ok _, w') => Some w'
      | (Throw _, _) => None
      end
  end.

(** The world after a sequence of calls that all succeed. *)
Fixpoint calls_ok (cs : list Call) (w : World) : option World :=
  match cs with
  | [] => Some w
  | c :: rest =>
      match call_ok c w with
      | Some w' => calls_ok rest w'
      | None => None
      end
  end.

(** Every create of the sequence joins two different work items. *)
Definition distinct_endpoints (c : Call) : Prop :=
  match c with
  | CallCreate _ _ _ data => req_from_id data <> req_to_id data
  | CallDelete _ _ _ => True
  end.

(** A list of node ids is a walk of the edge list (checked by computation). *)
Fixpoint is_walk (E : list (string * string)) (p : list string) : bool :=
  match p with
  | a :: ((b :: _) as rest) =>
      existsb (fun e => String.eqb (fst e) a && String.eqb (snd e) b) E && is_walk E rest
  | _ => true
  end.


(* ===================================================================== *)
(** * Vocabulary of the properties *)
(* ===================================================================== *)

(** The ids of a request that have no work item in the caller's tenant. *)
Definition missing_ids (user : User) (ids : list string) (w : World) : list string :=
  List.filter
    (fun id => negb (array_includes
       (List.map wi_id
          (List.filter (fun wi => String.eqb (wi_tenant_id wi) (user_tenant_id user)
                                  && array_includes ids (wi_id wi))
                       (work_items w)))
       id))
    ids.

(** The row [createDependency] inserts. *)
Definition new_dependency (uuid : string) (now : Z) (user : User)
    (data : CreateDependencyRequest) : Dependency :=
  {| dep_id := uuid;
     dep_tenant_id := user_tenant_id user;
     dep_from_id := req_from_id data;
     dep_to_id := req_to_id data;
     dep_dependency_type := req_dependency_type data;
     dep_lag_days := default 0 (req_lag_days data);
     dep_created_at := now;
     dep_created_by := user_id user;
     dep_updated_at := now;
     dep_metadata := default "{}" (req_metadata data) |}.

(** The chain a message would have to contain to name the cycle
    [a -> b -> c -> a]. *)
Definition names_cycle (msg : string) (cycle : list string) : bool :=
  includes msg (join " -> " cycle).

(** The ids of the nodes, and the edges as pairs. *)
Definition node_ids (g : DependencyGraph) : list string := List.map node_id (nodes g).
Definition edge_pairs (g : DependencyGraph) : list (string * string) :=
  List.map (fun e => (edge_from e, edge_to e)) (edges g).

(** The entries pushed for [id]: its successors and predecessors, in edge
    order. *)
Definition successors_of (es : list GraphEdge) (id : string) : list string :=
  List.map edge_to (List.filter (fun e => String.eqb (edge_from e) id) es).
Definition predecessors_of (es : list GraphEdge) (id : string) : list string :=
  List.map edge_from (List.filter (fun e => String.eqb (edge_to e) id) es).

(** A result other than the overflow of the call stack. *)
Definition completed {A} (r : result A) : Prop := r <> Throw stack_overflow.

(** [reaches E a b]: a walk of at least one edge leads from [a] to [b]. *)
Definition reaches (E : list (string * string)) (a b : string) : Prop :=
  exists n, walk E (S n) a b.

(** The nodes whose call is pending form the call stack of a recursive pass:
    distinct nodes of the graph, all related to the node of the current call;
    [depth] leaves room for the nodes that are not on the stack. *)
Definition stack_ok (below : string -> string -> Prop) (ids : list string)
    (depth : nat) (id : string) (stack : list string) : Prop :=
  List.NoDup stack
  /\ incl stack ids
  /\ (forall x, In x stack -> below id x)
  /\ (length ids <= depth + length stack)%nat.

(** The loop of [forwardPass] read on a finished memo table: the fold of
    [Math.max] over the predecessors, from [acc]. *)
Fixpoint start_from (es : list GraphEdge) (EF : gmap string Z) (id : string)
    (preds : list string) (acc : Z) : option Z :=
  match preds with
  | [] => Some acc
  | p :: rest =>
      match EF !! p with
      | Some pf => start_from es EF id rest (Z.max acc (pf + lagDays es p id))
      | None => None
      end
  end.

(** Every memoised finish comes with its start, and the start is the fold
    over the node's predecessors, all memoised. *)
Definition fwd_inv (g : DependencyGraph) (st : ForwardState) : Prop :=
  forall id f, earliestFinish st !! id = Some f ->
    exists node s,
      nodeMap_of (nodes g) !! id = Some node
      /\ earliestStart st !! id = Some s
      /\ f = s + node_duration_days node
      /\ start_from (edges g) (earliestFinish st) id (predecessors_of (edges g) id) 0
         = Some s.

(** What a call of the forward pass on [id] achieves. *)
Definition fwd_post (g : DependencyGraph) (id : string) (st : ForwardState)
    (r : result (Z * ForwardState)) : Prop :=
  exists f st',
    r = Ok (f, st')
    /\ fwd_inv g st'
    /\ earliestFinish st ⊆ earliestFinish st'
    /\ earliestFinish st' !! id = Some f
    /\ forall k, earliestFinish st !! k = None -> earliestFinish st' !! k <> None ->
                 k = id \/ reaches (edge_pairs g) k id.

(** Every memoised latest start is finite, comes with a finite latest
    finish, and that finish is not before the node's earliest finish. *)
Definition bwd_inv (g : DependencyGraph) (fw : ForwardState) (st : BackwardState) : Prop :=
  forall id ls, latestStart st !! id = Some ls ->
    exists node ef lf,
      nodeMap_of (nodes g) !! id = Some node
      /\ earliestFinish fw !! id = Some ef
      /\ latestFinish st !! id = Some (Fin lf)
      /\ ls = Fin (lf - node_duration_days node)
      /\ ef <= lf.

Definition bwd_post (g : DependencyGraph) (fw : ForwardState) (id : string)
    (st : BackwardState)
    (r : result (jsnum * BackwardState)) : Prop :=
  exists ls st',
    r = Ok (ls, st')
    /\ bwd_inv g fw st'
    /\ latestStart st ⊆ latestStart st'
    /\ latestStart st' !! id = Some ls
    /\ forall k, latestStart st !! k = None -> latestStart st' !! k <> None ->
                 k = id \/ reaches (edge_pairs g) id k.

(** A graph as the store's constraints shape it: distinct node ids, edges
    between nodes of the graph, at most one edge per pair. *)
Definition well_formed (g : DependencyGraph) : Prop :=
  List.NoDup (node_ids g)
  /\ (forall e, In e (edges g) ->
                In (edge_from e) (node_ids g) /\ In (edge_to e) (node_ids g))
  /\ List.NoDup (edge_pairs g).

(** The values the two passes leave for a node id. *)
Definition schedule_of (g : DependencyGraph) (fw : ForwardState) (bw : BackwardState)
    (id : string) (es ef ls lf : Z) : Prop :=
  earliestStart fw !! id = Some es
  /\ earliestFinish fw !! id = Some ef
  /\ latestStart bw !! id = Some (Fin ls)
  /\ latestFinish bw !! id = Some (Fin lf)
  /\ start_from (edges g) (earliestFinish fw) id (predecessors_of (edges g) id) 0 = Some es
  /\ exists node, nodeMap_of (nodes g) !! id = Some node
                  /\ ef = es + node_duration_days node
                  /\ ls = lf - node_duration_days node
                  /\ ef <= lf.

(** The working table of [dependency_path] after [k] replacements. *)
Definition path_level (rows : list Dependency) (tenant start : string) (k : nat)
    : list PathRow :=
  Nat.iter k (path_step rows tenant) (path_base rows tenant start).

(* ===================================================================== *)
(** * Vocabulary of the further properties *)
(* ===================================================================== *)

(** No two rows share [(tenant_id, from_id, to_id)]. *)
Definition unique_edges (rows : list Dependency) : Prop :=
  List.NoDup (List.map (fun de => (dep_tenant_id de, dep_from_id de, dep_to_id de)) rows).

(** A work item [id] exists in the tenant. *)
Definition work_item_exists (tenant id : string) (w : World) : Prop :=
  exists wi, In wi (work_items w) /\ wi_tenant_id wi = tenant /\ wi_id wi = id.

(** A row with the triple [(tenant, from_id, to_id)] is stored. *)
Definition edge_stored (tenant from_id to_id : string) (w : World) : Prop :=
  exists de, In de (dependency_edges w) /\ dep_tenant_id de = tenant
             /\ dep_from_id de = from_id /\ dep_to_id de = to_id.

(** The world after a create that succeeds. *)
Definition world_after_create (uuid : string) (now : Z) (user : User)
    (data : CreateDependencyRequest) (w : World) : World :=
  {| work_items := work_items w;
     dependency_edges := (dependency_edges w ++ [new_dependency uuid now user data])%list;
     published :=
       (published w
        ++ [ {| exchange := "system"; routingKey := "critical_path.recalculate";
                payload := RecalculateMsg (user_tenant_id user) now |};
             {| exchange := "dependencies"; routingKey := "dependency.created";
                payload := CreatedMsg uuid (user_tenant_id user) (user_id user)
                             (new_dependency uuid now user data) now |} ])%list |}.

(** The row [updateDependency] writes for [d]: the fields of the patch that
    are present, and [updated_at]. *)
Definition patched (now : Z) (data : UpdateDependencyRequest) (d : Dependency) : Dependency :=
  {| dep_id := dep_id d;
     dep_tenant_id := dep_tenant_id d;
     dep_from_id := dep_from_id d;
     dep_to_id := dep_to_id d;
     dep_dependency_type := default (dep_dependency_type d) (upd_dependency_type data);
     dep_lag_days := default (dep_lag_days d) (upd_lag_days data);
     dep_created_at := dep_created_at d;
     dep_created_by := dep_created_by d;
     dep_updated_at := now;
     dep_metadata := default (dep_metadata d) (upd_metadata data) |}.

(** The patch names at least one field. *)
Definition patch_present (data : UpdateDependencyRequest) : Prop :=
  upd_dependency_type data <> None \/ upd_lag_days data <> None \/ upd_metadata data <> None.

(** The row of [dependencyId] the caller can see, if any. *)
Definition visible_row (user : User) (dependencyId : string) (w : World) : option Dependency :=
  hd_error (List.filter (fun de => String.eqb (dep_id de) dependencyId
                                   && String.eqb (dep_tenant_id de) (user_tenant_id user))
                        (dependency_edges w)).

(** The rows of a tenant. *)
Definition tenant_rows (tenant : string) (w : World) : list Dependency :=
  List.filter (fun de => String.eqb (dep_tenant_id de) tenant) (dependency_edges w).

(** The two messages of a mutation that wrote: the recalculation request,
    then the event. *)
Definition recalculate_message (m : Mutation) : Published :=
  {| exchange := "system"; routingKey := "critical_path.recalculate";
     payload := RecalculateMsg (user_tenant_id (mutation_user m)) (mutation_now m) |}.

(** What a mutation never touches in a row: its id, tenant, endpoints and
    creation audit. *)
Definition row_identity (de : Dependency) : string * string * string * string * Z * string :=
  (dep_id de, dep_tenant_id de, dep_from_id de, dep_to_id de,
   dep_created_at de, dep_created_by de).

(** Every edge joins two nodes of the graph. *)
Definition edges_join_nodes (g : DependencyGraph) : Prop :=
  forall e, In e (edges g) ->
            In (edge_from e) (node_ids g) /\ In (edge_to e) (node_ids g).

(** [x] lies on a cycle of [E], or a node of a cycle reaches it. *)
Definition after_cycle (E : list (string * string)) (x : string) : Prop :=
  exists c, reaches E c c /\ (c = x \/ reaches E c x).

(** No memoised earliest finish belongs to a node on or after a cycle. *)
Definition forward_clean (g : DependencyGraph) (st : ForwardState) : Prop :=
  forall k, earliestFinish st !! k <> None -> ~ after_cycle (edge_pairs g) k.

(** Every memoised latest start belongs to a node whose successors are
    memoised too. *)
Definition backward_closed (g : DependencyGraph) (st : BackwardState) : Prop :=
  forall k, latestStart st !! k <> None ->
    In k (node_ids g)
    /\ forall s, In s (successors_of (edges g) k) -> latestStart st !! s <> None.

(** The edges [detectCycles] records in its adjacency list: those whose
    [from] is a node of the graph. *)
Definition recorded_pairs (g : DependencyGraph) : list (string * string) :=
  List.map (fun e => (edge_from e, edge_to e))
           (List.filter (fun e => array_includes (node_ids g) (edge_from e)) (edges g)).

(** Every id the search can be called on: the nodes and the edge targets. *)
Definition dfs_universe (g : DependencyGraph) : gset string :=
  list_to_set (node_ids g ++ List.map edge_to (edges g))%list.

(** The nodes the search has finished: visited and no longer on the
    recursion stack. *)
Definition dfs_finished (st : DfsState) : gset string :=
  visited st ∖ recursionStack st.

(** While no cycle has been found: the recursion stack holds visited nodes,
    the edges of a finished node lead to finished nodes, and no finished node
    lies on a cycle. *)
Definition dfs_inv (E : list (string * string)) (st : DfsState) : Prop :=
  recursionStack st ⊆ visited st
  /\ forall u, u ∈ dfs_finished st ->
       (forall v, In (u, v) E -> v ∈ dfs_finished st) /\ ~ reaches E u u.

Definition dfs_start : DfsState :=
  {| visited := ∅; recursionStack := ∅; found_cycles := [] |}.

(** The tenant's stored edges join work items of the tenant and form no
    cycle. *)
Definition tenant_store_ok (tenant : string) (w : World) : Prop :=
  (forall de, In de (dependency_edges w) -> dep_tenant_id de = tenant ->
              work_item_exists tenant (dep_from_id de) w
              /\ work_item_exists tenant (dep_to_id de) w)
  /\ acyclic (tenant_edges tenant (dependency_edges w)).

(** The result of a cycle detection that found nothing. *)
Definition no_cycles : CycleDetectionResult :=
  {| has_cycles := false; cycles := []; affected_work_items := [];
     resolution_suggestions := [] |}.

(** What the critical path computation leaves of an edge as it was. *)
Definition edge_core (e : GraphEdge) : string * string * string * DependencyType * Z :=
  (edge_id e, edge_from e, edge_to e, edge_type e, edge_lag_days e).

(** The errors the graph computations throw. *)
Definition graph_error (e : exn) : Prop :=
  e = stack_overflow \/ e = undefined_read "duration_days"
  \/ e = undefined_read "is_critical".

(** The two answers of a read endpoint: 200 with data, or 500
    [INTERNAL_ERROR]. *)
Definition read_reply {A} (r : Reply A) : Prop :=
  (reply_status r = 200 /\ reply_success r = true /\ reply_error r = None
   /\ reply_data r <> None)
  \/ (reply_status r = 500 /\ reply_success r = false
      /\ reply_error r = Some "INTERNAL_ERROR" /\ reply_data r = None).

(** Each memoised latest finish is the node's own earliest finish when the
    node has no successor, and at most the completion time [T] otherwise
    ([Math.min(T, x)] is [x]). *)
Definition bwd_shape (g : DependencyGraph) (fw : ForwardState) (T : jsnum)
    (st : BackwardState) : Prop :=
  forall id lf, latestFinish st !! id = Some lf ->
    match default [] (adjacencyList_of g !! id) with
    | [] => lf = num_get (earliestFinish fw) id
    | _ :: _ => Math_min T lf = lf
    end.

(** The critical nodes as [calculateCriticalPath] collects them. *)
Definition critical_ids (fw : ForwardState) (bw : BackwardState) (ns : list GraphNode)
    : list string :=
  List.map node_id (List.filter (fun node => is_zero (slack_of fw bw (node_id node))) ns).

(** Decreasing delay impact. *)
Definition by_impact (a b : Bottleneck) : Prop :=
  delay_impact_days b <= delay_impact_days a.

(** The four risk factors. *)
Definition known_risk_factors : list string :=
  ["High dependency count"; "Blocks many items"; "Currently blocked"; "Long duration"].

(** What [estimateDuration] can answer. *)
Definition base_durations : list Z := [90; 60; 30; 7; 3].
(* ===================================================================== *)
(** * Concrete scenarios *)
(* ===================================================================== *)

Definition tenant1 : string := "11111111-1111-4111-8111-111111111111".
Definition alice : User :=
  {| user_id := "99999999-9999-4999-8999-999999999999"; user_tenant_id := tenant1 |}.

Definition idA : string := "aaaaaaaa-aaaa-4aaa-8aaa-aaaaaaaaaaaa".
Definition idB : string := "bbbbbbbb-bbbb-4bbb-8bbb-bbbbbbbbbbbb".
Definition idC : string := "cccccccc-cccc-4ccc-8ccc-cccccccccccc".
Definition idD : string := "dddddddd-dddd-4ddd-8ddd-dddddddddddd".

Definition work_item (id : string) (duration : option Z) : WorkItem :=
  {| wi_id := id; wi_tenant_id := tenant1; wi_type := "task"; wi_title := id;
     wi_status := "open"; wi_estimated_duration_days := duration |}.

Definition stored_edge (id from_id to_id : string) (lag : Z) : Dependency :=
  {| dep_id := id; dep_tenant_id := tenant1; dep_from_id := from_id; dep_to_id := to_id;
     dep_dependency_type := FINISH_TO_START; dep_lag_days := lag;
     dep_created_at := 0; dep_created_by := user_id alice; dep_updated_at := 0;
     dep_metadata := "{}" |}.

Definition request (from_id to_id : string) : CreateDependencyRequest :=
  {| req_from_id := from_id; req_to_id := to_id;
     req_dependency_type := FINISH_TO_START; req_lag_days := None; req_metadata := None |}.

Definition edgeAB : string := "eeeeeeee-0000-4000-8000-0000000000ab".
Definition edgeBC : string := "eeeeeeee-0000-4000-8000-0000000000bc".
Definition fresh_uuid : string := "ffffffff-ffff-4fff-8fff-ffffffffffff".

(** Work items A, B, C and the stored edges A -> B, B -> C. *)
Definition world_abc : World :=
  {| work_items := [work_item idA None; work_item idB None; work_item idC None];
     dependency_edges := [stored_edge edgeAB idA idB 0; stored_edge edgeBC idB idC 0];
     published := [] |}.

(** Work item A alone, no edge. *)
Definition world_a : World :=
  {| work_items := [work_item idA None]; dependency_edges := []; published := [] |}.

(** Work items A and B and the stored edge A -> B. *)
Definition world_ab : World :=
  {| work_items := [work_item idA None; work_item idB None];
     dependency_edges := [stored_edge edgeAB idA idB 0];
     published := [] |}.

(** A chain of 22 work items: ids [chain_id 0] to [chain_id 21]. *)
Definition chain_id (i : nat) : string :=
  "00000000-0000-4000-8000-0000000001" ++ pretty (10 + i)%nat.
Definition chain_edge_uuid (i : nat) : string :=
  "eeeeeeee-0000-4000-8000-0000000001" ++ pretty (10 + i)%nat.

Definition world_chain : World :=
  {| work_items := List.map (fun i => work_item (chain_id i) None) (seq 0 22);
     dependency_edges := [];
     published := [] |}.

(** 21 creates that build the chain 0 -> 1 -> ... -> 21, then the create of
    the closing edge 21 -> 0. *)
Definition chain_calls : list Call :=
  (List.map (fun i => CallCreate (chain_edge_uuid i) 0 alice
                                 (request (chain_id i) (chain_id (S i))))
            (seq 0 21)
   ++ [CallCreate (chain_edge_uuid 21) 0 alice (request (chain_id 21) (chain_id 0))])%list.

Definition graph_node (id : string) (duration : Z) : GraphNode :=
  {| node_id := id; node_title := id; node_type := "task"; node_status := "open";
     node_duration_days := duration;
     node_earliest_start := None; node_earliest_finish := None;
     node_latest_start := None; node_latest_finish := None;
     node_slack_days := None; node_is_critical := false |}.

Definition graph_edge (id from_id to_id : string) (lag : Z) : GraphEdge :=
  {| edge_id := id; edge_from := from_id; edge_to := to_id;
     edge_type := FINISH_TO_START; edge_lag_days := lag; edge_is_critical := false |}.

Definition graph_of (ns : list GraphNode) (es : list GraphEdge) : DependencyGraph :=
  {| nodes := ns; edges := es; critical_path := []; cycle_detected := false;
     graph_cycles := None |}.

(** The diamond of the specification: A(4), B(2), C(3), D(1); A -> B (lag 0),
    A -> C (lag 1), B -> D, C -> D. *)
Definition diamond : DependencyGraph :=
  graph_of [graph_node idA 4; graph_node idB 2; graph_node idC 3; graph_node idD 1]
           [graph_edge "e1" idA idB 0; graph_edge "e2" idA idC 1;
            graph_edge "e3" idB idD 0; graph_edge "e4" idC idD 0].

Definition empty_graph : DependencyGraph := graph_of [] [].

(** Two edges between the same pair, with lags 0 and 5. *)
Definition parallel_graph : DependencyGraph :=
  graph_of [graph_node idA 1; graph_node idB 1]
           [graph_edge "e1" idA idB 0; graph_edge "e2" idA idB 5].

(** A(2) -> B(1) with lag -5. *)
Definition negative_lag_graph : DependencyGraph :=
  graph_of [graph_node idA 2; graph_node idB 1] [graph_edge "e1" idA idB (-5)].

(** A(2) -> B(3) with lag 1. *)
Definition two_node_graph : DependencyGraph :=
  graph_of [graph_node idA 2; graph_node idB 3] [graph_edge "e1" idA idB 1].

(** The graph built for the filter [A] in a tenant that stores A -> B. *)
Definition filtered_graph : DependencyGraph := built_graph alice (Some [idA]) world_ab.

(** One blocked node of three days. *)
Definition blocked_graph : DependencyGraph :=
  graph_of [ {| node_id := idA; node_title := idA; node_type := "task";
                node_status := "blocked"; node_duration_days := 3;
                node_earliest_start := None; node_earliest_finish := None;
                node_latest_start := None; node_latest_finish := None;
                node_slack_days := None; node_is_critical := false |} ] [].

(** A patch without any field. *)
Definition empty_patch : UpdateDependencyRequest :=
  {| upd_dependency_type := None; upd_lag_days := None; upd_metadata := None |}.


(** Three creates and a delete on the work items A, B, C. *)
Definition calls_abc : list Call :=
  [CallCreate edgeAB 0 alice (request idA idB);
   CallCreate edgeBC 1 alice (request idB idC);
   CallDelete 2 alice edgeAB;
   CallCreate fresh_uuid 3 alice (request idC idA)].

Definition world_abc_items : World :=
  {| work_items := [work_item idA None; work_item idB None; work_item idC None];
     dependency_edges := []; published := [] |}.


(** The linear chain of the specification: A(2), B(3), C(5); A -> B -> C. *)
Definition linear_chain : DependencyGraph :=
  graph_of [graph_node idA 2; graph_node idB 3; graph_node idC 5]
           [graph_edge "e1" idA idB 0; graph_edge "e2" idB idC 0].

(** A cycle A -> B -> C -> A. *)
Definition triangle : DependencyGraph :=
  graph_of [graph_node idA 1; graph_node idB 1; graph_node idC 1]
           [graph_edge "e1" idA idB 0; graph_edge "e2" idB idC 0;
            graph_edge "e3" idC idA 0].

(** Two nodes that share the id A, of durations 1 and 5. *)
Definition duplicate_id_graph : DependencyGraph :=
  graph_of [graph_node idA 1; graph_node idA 5] [].

(** A tenant without work items and edges. *)
Definition world_empty : World :=
  {| work_items := []; dependency_edges := []; published := [] |}.

(** A tenant with the diamond of the specification stored; C is blocked and
    takes 45 days by estimate. *)
Definition world_diamond : World :=
  {| work_items :=
       [work_item idA (Some 4); work_item idB (Some 2);
        {| wi_id := idC; wi_tenant_id := tenant1; wi_type := "task"; wi_title := idC;
           wi_status := "blocked"; wi_estimated_duration_days := Some 45 |};
        work_item idD (Some 1)];
     dependency_edges :=
       [stored_edge "e1" idA idB 0; stored_edge "e2" idA idC 1;
        stored_edge "e3" idB idD 0; stored_edge "e4" idC idD 0];
     published := [] |}.

(** A create, an update of its lag, a second create and a delete. *)
Definition mutations_abc : list Mutation :=
  [MCreate edgeAB 0 alice (request idA idB);
   MUpdate 1 alice edgeAB {| upd_dependency_type := None; upd_lag_days := Some 2;
                             upd_metadata := None |};
   MCreate edgeBC 2 alice (request idB idC);
   MDelete 3 alice edgeAB].

(** One blocked node of three days, annotated critical with slack 0, and the
    bottleneck it makes. *)
Definition critical_blocked_graph : DependencyGraph :=
  graph_of [ {| node_id := idA; node_title := idA; node_type := "task";
                node_status := "blocked"; node_duration_days := 3;
                node_earliest_start := Some (Fin 0); node_earliest_finish := Some (Fin 3);
                node_latest_start := Some (Fin 0); node_latest_finish := Some (Fin 3);
                node_slack_days := Some (Fin 0); node_is_critical := true |} ] [].

Definition blocked_bottleneck : Bottleneck :=
  {| work_item_id := idA; bottleneck_title := idA; delay_impact_days := 3;
     risk_factors := ["Currently blocked"];
     mitigation_suggestions :=
       ["Escalate blocker resolution"; "Identify alternative approaches"] |}.

(* ===================================================================== *)
(** * Properties of the HTTP boundary and of the edge lifecycle *)
(* ===================================================================== *)

Lemma world_eta (w : World) :
  {| work_items := work_items w; dependency_edges := dependency_edges w;
     published := published w |} = w.
Proof. destruct w; reflexivity. Qed.

Lemma append_cons (c : ascii) (a r : string) :
  (String c a ++ r)%string = String c (a ++ r).
Proof. reflexivity. Qed.

Lemma prefix_split (a b s : string) :
  String.prefix (a ++ b) s = true ->
  exists r, s = (a ++ r)%string /\ String.prefix b r = true.
Proof.
  revert s; induction a as [|c a IH]; intros s H.
  - exists s; split; [reflexivity | exact H].
  - rewrite append_cons in H. destruct s as [|c' s]; [discriminate H|].
    cbn [String.prefix] in H.
    destruct (ascii_dec c c') as [->|]; [|discriminate H].
    destruct (IH _ H) as (r & -> & Hr).
    exists r; split; [reflexivity | exact Hr].
Qed.

Lemma includes_prefix (s x : string) :
  String.prefix x s = true -> includes s x = true.
Proof. intros H; destruct s; cbn [includes]; rewrite H; reflexivity. Qed.

Lemma includes_skip (a r x : string) :
  String.prefix x r = true -> includes (a ++ r) x = true.
Proof.
  intros H; induction a as [|c a IH].
  - apply includes_prefix, H.
  - rewrite append_cons. cbn [includes]. rewrite IH. apply orb_true_r.
Qed.

(** A string that contains [a ++ b] contains [b]. *)
Lemma includes_suffix_of_needle (a b s : string) :
  includes s (a ++ b) = true -> includes s b = true.
Proof.
  induction s as [|c s IH]; intros H; cbn [includes] in H;
    apply orb_true_iff in H as [H|H].
  - destruct (prefix_split _ _ _ H) as (r & Heq & Hr).
    rewrite Heq. apply (includes_skip a r b Hr).
  - discriminate H.
  - destruct (prefix_split _ _ _ H) as (r & Heq & Hr).
    rewrite Heq. apply (includes_skip a r b Hr).
  - cbn [includes]. rewrite (IH H). apply orb_true_r.
Qed.

(** No error reaches the [WORK_ITEMS_NOT_FOUND] branch of [handleError]: a
    message that contains [WORK_ITEMS_NOT_FOUND] contains [NOT_FOUND], which
    an earlier branch takes. *)
Lemma handleError_work_items_branch_dead (e : exn) (fallback : string) :
  error (handleError e fallback) <> Some "WORK_ITEMS_NOT_FOUND".
Proof.
  unfold handleError.
  destruct (includes (message e) "CYCLE_DETECTED"); [discriminate|].
  destruct (includes (message e) "NOT_FOUND") eqn:Hnf; [discriminate|].
  destruct (includes (message e) "DUPLICATE_DEPENDENCY"); [discriminate|].
  destruct (includes (message e) "WORK_ITEMS_NOT_FOUND") eqn:Hw.
  - apply (includes_suffix_of_needle "WORK_ITEMS_" "NOT_FOUND") in Hw. congruence.
  - destruct (includes (message e) "INVALID_"); discriminate.
Qed.

Lemma validateWorkItemsExist_run user ids w :
  validateWorkItemsExist user ids w
  = match missing_ids user ids w with
    | [] => (Ok tt, w)
    | missing => (Throw (Error ("WORK_ITEMS_NOT_FOUND: " ++ join ", " missing)), w)
    end.
Proof.
  unfold validateWorkItemsExist, read, bind, missing_ids.
  destruct (List.filter _ ids); reflexivity.
Qed.

(** With a missing work item the service throws [WORK_ITEMS_NOT_FOUND] with
    the missing ids, before any write or message. *)
Lemma createDependency_missing uuid now user data w :
  missing_ids user [req_from_id data; req_to_id data] w <> [] ->
  createDependency uuid now user data w
  = (Throw (Error ("WORK_ITEMS_NOT_FOUND: "
                   ++ join ", " (missing_ids user [req_from_id data; req_to_id data] w))),
     w).
Proof.
  intros H. unfold createDependency, transaction. unfold bind at 1.
  rewrite validateWorkItemsExist_run.
  destruct (missing_ids user [req_from_id data; req_to_id data] w) as [|m ms] eqn:E;
    [contradiction|].
  rewrite world_eta. reflexivity.
Qed.

(** C5, at the request A -> B in a tenant that holds A only: the service
    throws [WORK_ITEMS_NOT_FOUND] naming B, and the controller answers
    404 [NOT_FOUND], not 400 [WORK_ITEMS_NOT_FOUND]. *)
Theorem C5_missing_work_item_answered_404 :
  createDependency fresh_uuid 0 alice (request idA idB) world_a
  = (Throw (Error ("WORK_ITEMS_NOT_FOUND: " ++ idB)), world_a)
  /\ (let r := fst (controller_createDependency fresh_uuid 0 alice
                      {| body_from_id := Some idA; body_to_id := Some idB;
                         body_dependency_type := Some FINISH_TO_START;
                         body_lag_days := None; body_metadata := None |} world_a) in
      statusCode r = 404 /\ error r = Some "NOT_FOUND").
Proof. vm_compute. repeat split. Qed.

(** C10: on an existing edge, a patch with none of the three fields returns
    the edge as stored and leaves the world (tables and published messages)
    as it was. *)
Theorem C10_empty_patch_is_identity
    (now : Z) (user : User) (dependencyId : string) (data : UpdateDependencyRequest)
    (w : World) (existing : Dependency) :
  fst (getDependencyById user dependencyId w) = Ok (Some existing) ->
  upd_dependency_type data = None ->
  upd_lag_days data = None ->
  upd_metadata data = None ->
  updateDependency now user dependencyId data w = (Ok (Some existing), w).
Proof.
  intros Hget Ht Hl Hm.
  unfold updateDependency, transaction, bind.
  unfold getDependencyById, read in *. cbn [fst] in Hget.
  injection Hget as Hget. rewrite Hget.
  unfold build_updates. rewrite Ht, Hl, Hm. reflexivity.
Qed.

Lemma C10_empty_patch_witness :
  updateDependency 5 alice edgeAB empty_patch world_ab
  = (Ok (Some (stored_edge edgeAB idA idB 0)), world_ab).
Proof.
  apply (C10_empty_patch_is_identity 5 alice edgeAB empty_patch world_ab
           (stored_edge edgeAB idA idB 0)); reflexivity.
Defined.

(** A patch with a field does write and publish (the no-op above is not how
    every update behaves). *)
Example update_with_lag_writes :
  let '(r, w) := updateDependency 5 alice edgeAB
                   {| upd_dependency_type := None; upd_lag_days := Some 3;
                      upd_metadata := None |} world_ab in
  r = Ok (Some {| dep_id := edgeAB; dep_tenant_id := tenant1; dep_from_id := idA;
                  dep_to_id := idB; dep_dependency_type := FINISH_TO_START;
                  dep_lag_days := 3; dep_created_at := 0;
                  dep_created_by := user_id alice; dep_updated_at := 5;
                  dep_metadata := "{}" |})
  /\ length (published w) = 2%nat.
Proof. vm_compute. split; reflexivity. Qed.

(* ===================================================================== *)
(** * The would-create-cycle probe and the acyclicity invariant *)
(* ===================================================================== *)

Lemma last_default_irrelevant (l : list string) (d d' : string) :
  l <> [] -> List.last l d = List.last l d'.
Proof.
  induction l as [|x l IH]; intros Hne; [contradiction|].
  destruct l as [|y l]; [reflexivity|].
  change (List.last (y :: l) d = List.last (y :: l) d'). apply IH; discriminate.
Qed.

Section Walks.
Variable E : list (string * string).

Lemma walk_snoc n a b c : walk E n a b -> In (b, c) E -> walk E (S n) a c.
Proof.
  induction 1 as [a|n a b' c' Hin Hw IH]; intros Hbc.
  - apply (walk_edge E 0 a c c Hbc), walk_here.
  - apply (walk_edge E (S n) a b' c Hin), IH, Hbc.
Qed.

Lemma walk_snoc_inv n a c :
  walk E (S n) a c -> exists b, walk E n a b /\ In (b, c) E.
Proof.
  revert a; induction n as [|n IH]; intros a Hw.
  - inversion Hw as [|n' a' b c' Hin Hrest]; subst.
    inversion Hrest; subst. exists a; split; [apply walk_here | exact Hin].
  - inversion Hw as [|n' a' b c' Hin Hrest]; subst.
    destruct (IH _ Hrest) as (b' & Hb' & Hlast).
    exists b'; split; [apply (walk_edge E n a b b' Hin Hb') | exact Hlast].
Qed.

Lemma walk_app n m a b c : walk E n a b -> walk E m b c -> walk E (n + m) a c.
Proof.
  induction 1 as [a|n a b' c' Hin Hw IH]; intros Hbc; [exact Hbc|].
  apply (walk_edge E (n + m) a b' c Hin), IH, Hbc.
Qed.

Lemma is_walk_sound a rest :
  is_walk E (a :: rest) = true -> walk E (length rest) a (List.last rest a).
Proof.
  revert a; induction rest as [|b rest IH]; intros a H.
  - apply walk_here.
  - cbn [is_walk] in H. apply andb_true_iff in H as [Hedge Hrest].
    apply existsb_exists in Hedge as ([x y] & Hin & Hxy).
    cbn [fst snd] in Hxy. apply andb_true_iff in Hxy as [Hx Hy].
    apply String.eqb_eq in Hx, Hy; subst x y.
    cbn [length]. apply (walk_edge E (length rest) a b _ Hin).
    specialize (IH b Hrest).
    destruct rest as [|c rest']; [exact IH|].
    change (List.last (b :: c :: rest') a) with (List.last (c :: rest') a).
    rewrite (last_default_irrelevant (c :: rest') a b); [exact IH | discriminate].
Qed.
End Walks.

Lemma walk_mono (E E' : list (string * string)) n a b :
  (forall e, In e E -> In e E') -> walk E n a b -> walk E' n a b.
Proof.
  intros Hsub; induction 1 as [a|n a b' c Hin Hw IH].
  - apply walk_here.
  - apply (walk_edge E' n a b' c (Hsub _ Hin) IH).
Qed.

(** A walk that may use a new edge [x -> y] either avoids it or reaches [x]
    on old edges first. *)
Lemma walk_split_new (E : list (string * string)) x y n a b :
  walk (E ++ [(x, y)]) n a b ->
  walk E n a b
  \/ exists i j, n = (i + S j)%nat /\ walk E i a x /\ walk (E ++ [(x, y)]) j y b.
Proof.
  induction 1 as [a|n a b' c Hin Hw IH].
  - left; apply walk_here.
  - apply in_app_or in Hin as [Hin|[Heq|[]]].
    + destruct IH as [IH|(i & j & -> & Hi & Hj)].
      * left; apply (walk_edge E n a b' c Hin IH).
      * right; exists (S i), j; repeat split; [|exact Hj].
        apply (walk_edge E i a b' x Hin Hi).
    + injection Heq as <- <-. right; exists 0%nat, n; repeat split; [apply walk_here | exact Hw].
Qed.

(** A walk to [x] from another node, in the graph extended with an edge that
    leaves [x], has a non-empty prefix on old edges that already reaches [x]. *)
Lemma walk_first_arrival (E : list (string * string)) x y n a :
  a <> x ->
  walk (E ++ [(x, y)]) n a x ->
  exists m, (S m <= n)%nat /\ walk E (S m) a x.
Proof.
  revert a; induction n as [|n IH]; intros a Hne Hw.
  - inversion Hw; subst; contradiction.
  - inversion Hw as [|n' a' b c Hin Hrest]; subst.
    apply in_app_or in Hin as [Hin|[Heq|[]]].
    + destruct (string_dec b x) as [->|Hb].
      * exists 0%nat; split; [lia|]. apply (walk_edge E 0 a x x Hin), walk_here.
      * destruct (IH b Hb Hrest) as (m & Hm & Hwm).
        exists (S m); split; [lia|]. apply (walk_edge E (S m) a b x Hin Hwm).
    + injection Heq as Hx _. congruence.
Qed.

(** Adding an edge [x -> y] with [x <> y], when no walk of 1 to 20 edges leads
    from [y] to [x], closes no cycle of at most 21 edges. *)
Lemma acyclic_upto_add (E : list (string * string)) x y :
  acyclic_upto 21 E ->
  x <> y ->
  (forall n, (S n <= 20)%nat -> ~ walk E (S n) y x) ->
  acyclic_upto 21 (E ++ [(x, y)]).
Proof.
  intros Hacy Hxy Hprobe n a Hn Hw.
  apply walk_split_new in Hw as [Hw|(i & j & Hij & Hi & Hj)].
  - exact (Hacy n a Hn Hw).
  - assert (Hyx : walk (E ++ [(x, y)]) (j + i) y x).
    { apply (walk_app _ j i y a x Hj).
      apply (walk_mono E); [|exact Hi]. intros e He; apply in_or_app; left; exact He. }
    destruct (walk_first_arrival E x y (j + i) y (not_eq_sym Hxy) Hyx) as (m & Hm & Hwm).
    apply (Hprobe m); [lia | exact Hwm].
Qed.

Lemma acyclic_upto_subset k (E E' : list (string * string)) :
  (forall e, In e E' -> In e E) -> acyclic_upto k E -> acyclic_upto k E'.
Proof.
  intros Hsub Hacy n a Hn Hw. apply (Hacy n a Hn), (walk_mono E'); assumption.
Qed.

Lemma in_tenant_edges tenant rows a b :
  In (a, b) (tenant_edges tenant rows)
  <-> exists de, In de rows /\ dep_tenant_id de = tenant
                 /\ dep_from_id de = a /\ dep_to_id de = b.
Proof.
  unfold tenant_edges. rewrite in_map_iff. split.
  - intros (de & Heq & Hin). apply filter_In in Hin as [Hin Ht].
    apply String.eqb_eq in Ht. injection Heq as <- <-. exists de; auto.
  - intros (de & Hin & Ht & <- & <-). exists de; split; [reflexivity|].
    apply filter_In; split; [exact Hin|]. apply String.eqb_eq, Ht.
Qed.

Lemma tenant_edges_snoc tenant rows d :
  tenant_edges tenant (rows ++ [d])
  = (tenant_edges tenant rows
     ++ if String.eqb (dep_tenant_id d) tenant then [(dep_from_id d, dep_to_id d)] else [])%list.
Proof.
  unfold tenant_edges. rewrite List.filter_app, List.map_app. cbn [List.filter].
  destruct (String.eqb (dep_tenant_id d) tenant); reflexivity.
Qed.

Section ProbeSpec.
Variable rows : list Dependency.
Variable tenant : string.
Variable start : string.

Local Abbreviation E := (tenant_edges tenant rows).
Local Abbreviation level := (path_level rows tenant start).

Lemma path_step_nil : path_step rows tenant [] = [].
Proof. reflexivity. Qed.

Lemma path_iterate_nil rounds : path_iterate rows tenant rounds [] = [].
Proof. destruct rounds; reflexivity. Qed.

Lemma in_path_base r :
  In r (path_base rows tenant start)
  <-> In (path_from_id r, path_to_id r) E /\ path_from_id r = start /\ depth r = 1.
Proof.
  unfold path_base. rewrite in_map_iff. split.
  - intros (de & <- & Hin). apply filter_In in Hin as [Hin Hc].
    apply andb_true_iff in Hc as [Ht Hf]. apply String.eqb_eq in Ht, Hf.
    cbn. repeat split; [|exact Hf]. apply in_tenant_edges. exists de; auto.
  - intros (Hin & Hs & Hd). apply in_tenant_edges in Hin as (de & Hin & Ht & Hf & Hto).
    exists de; split.
    + destruct r as [f t d]; cbn in *. congruence.
    + apply filter_In; split; [exact Hin|]. apply andb_true_iff; split;
        apply String.eqb_eq; congruence.
Qed.

Lemma in_path_step W r :
  In r (path_step rows tenant W)
  <-> exists dp, In dp W /\ depth dp < 20 /\ path_from_id r = path_to_id dp
                 /\ depth r = depth dp + 1
                 /\ In (path_from_id r, path_to_id r) E.
Proof.
  unfold path_step. rewrite in_flat_map. split.
  - intros (dp & Hdp & Hin). destruct (Z.ltb_spec (depth dp) 20) as [Hlt|]; [|destruct Hin].
    apply in_map_iff in Hin as (de & <- & Hin). apply filter_In in Hin as [Hin Hc].
    apply andb_true_iff in Hc as [Hf Ht]. apply String.eqb_eq in Ht, Hf.
    exists dp; cbn; repeat split; auto. apply in_tenant_edges. exists de; auto.
  - intros (dp & Hdp & Hlt & Hf & Hd & Hin). exists dp; split; [exact Hdp|].
    apply Z.ltb_lt in Hlt; rewrite Hlt.
    apply in_tenant_edges in Hin as (de & Hin & Ht & Hfrom & Hto).
    apply in_map_iff. exists de; split.
    + destruct r as [f t d]; cbn in *. congruence.
    + apply filter_In; split; [exact Hin|]. apply andb_true_iff; split;
        apply String.eqb_eq; congruence.
Qed.

(** The rows of level [k]: last edges of the walks of [k + 1] edges from
    [start]; no level beyond the 20th has a row. *)
Lemma in_level k r :
  In r (level k)
  <-> (k <= 19)%nat /\ depth r = Z.of_nat k + 1
      /\ walk E k start (path_from_id r) /\ In (path_from_id r, path_to_id r) E.
Proof.
  revert r; induction k as [|k IH]; intros r.
  - unfold level; cbn [Nat.iter nat_rect]. rewrite in_path_base. split.
    + intros (Hin & <- & Hd). repeat split; [lia | lia | apply walk_here | exact Hin].
    + intros (_ & Hd & Hw & Hin). inversion Hw; subst. repeat split; [exact Hin | lia].
  - unfold level; cbn [Nat.iter nat_rect]. fold (level k). rewrite in_path_step. split.
    + intros (dp & Hdp & Hlt & Hf & Hd & Hin).
      apply IH in Hdp as (Hk & Hdk & Hw & Hlast).
      repeat split; [lia | lia | | exact Hin].
      rewrite Hf. apply (walk_snoc E k start _ _ Hw Hlast).
    + intros (Hk & Hd & Hw & Hin).
      apply walk_snoc_inv in Hw as (b & Hw & Hlast).
      exists {| path_from_id := b; path_to_id := path_from_id r;
                depth := Z.of_nat k + 1 |}.
      cbn. repeat split; [|lia|lia|exact Hin].
      apply IH; cbn. repeat split; [lia | exact Hw | exact Hlast].
Qed.

Lemma in_path_iterate rounds W r :
  In r (path_iterate rows tenant rounds W)
  <-> exists k, (k <= rounds)%nat /\ In r (Nat.iter k (path_step rows tenant) W).
Proof.
  revert W; induction rounds as [|rounds IH]; intros W.
  - cbn [path_iterate]. split.
    + intros H; exists 0%nat; split; [lia | exact H].
    + intros (k & Hk & H). replace k with 0%nat in H by lia. exact H.
  - cbn [path_iterate]. destruct W as [|r0 W'].
    + split; [intros []|]. intros (k & _ & H).
      assert (Hnil : Nat.iter k (path_step rows tenant) [] = []).
      { clear; induction k as [|k IHk]; [reflexivity|].
        rewrite Nat.iter_succ, IHk. reflexivity. }
      rewrite Hnil in H. destruct H.
    + rewrite in_app_iff, IH. split.
      * intros [H|(k & Hk & H)].
        -- exists 0%nat; split; [lia | exact H].
        -- exists (S k); split; [lia|]. rewrite Nat.iter_succ_r. exact H.
      * intros (k & Hk & H). destruct k as [|k].
        -- left; exact H.
        -- right; exists k; split; [lia|]. rewrite <- Nat.iter_succ_r. exact H.
Qed.

(** The guard [dp.depth < 20] empties the working table: more than 20
    replacements add no row. *)
Lemma dependency_path_rounds rounds r :
  (20 <= rounds)%nat ->
  In r (path_iterate rows tenant rounds (path_base rows tenant start))
  <-> In r (dependency_path rows tenant start).
Proof.
  intros Hr. unfold dependency_path. rewrite !in_path_iterate. split.
  - intros (k & _ & H). exists k; split; [|exact H].
    apply (in_level k r) in H. lia.
  - intros (k & Hk & H). exists k; split; [lia | exact H].
Qed.

(** The probe answers true exactly when a walk of 1 to 20 stored edges of
    the tenant leads from [start] to [target]. *)
Lemma would_cycle_query_spec target :
  would_cycle_query rows tenant start target = true
  <-> exists n, (S n <= 20)%nat /\ walk E (S n) start target.
Proof.
  unfold would_cycle_query, dependency_path. rewrite existsb_exists. split.
  - intros (r & Hin & Heq). apply String.eqb_eq in Heq.
    apply in_path_iterate in Hin as (k & _ & Hin).
    apply (in_level k r) in Hin as (Hk & _ & Hw & Hlast).
    exists k; split; [lia|]. rewrite <- Heq. apply (walk_snoc E k _ _ _ Hw Hlast).
  - intros (n & Hn & Hw). apply walk_snoc_inv in Hw as (b & Hw & Hlast).
    exists {| path_from_id := b; path_to_id := target; depth := Z.of_nat n + 1 |}.
    split; [|apply String.eqb_eq; reflexivity].
    apply in_path_iterate. exists n; split; [lia|].
    apply (in_level n); cbn. repeat split; [lia | exact Hw | exact Hlast].
Qed.
End ProbeSpec.

(** ** What one lifecycle call does *)

(** The five outcomes of [createDependency], in the order of its checks. *)
Lemma createDependency_run uuid now user data w :
  createDependency uuid now user data w
  = match missing_ids user [req_from_id data; req_to_id data] w with
    | (_ :: _) as missing =>
        (Throw (Error ("WORK_ITEMS_NOT_FOUND: " ++ join ", " missing)), w)
    | [] =>
        if would_cycle_query (dependency_edges w) (user_tenant_id user)
                             (req_to_id data) (req_from_id data)
        then (Throw (Error ("CYCLE_DETECTED: Creating this dependency would create a cycle: "
                            ++ join " -> " [req_to_id data; req_from_id data])), w)
        else if (0 <? length
                   (List.filter (fun de => String.eqb (dep_tenant_id de) (user_tenant_id user)
                                           && String.eqb (dep_from_id de) (req_from_id data)
                                           && String.eqb (dep_to_id de) (req_to_id data))
                                (dependency_edges w)))%nat
        then (Throw (Error
                "DUPLICATE_DEPENDENCY: Dependency already exists between these work items"),
              w)
        else (Ok (new_dependency uuid now user data),
              {| work_items := work_items w;
                 dependency_edges :=
                   (dependency_edges w ++ [new_dependency uuid now user data])%list;
                 published :=
                   ((published w
                     ++ [ {| exchange := "system"; routingKey := "critical_path.recalculate";
                             payload := RecalculateMsg (user_tenant_id user) now |} ])
                    ++ [ {| exchange := "dependencies"; routingKey := "dependency.created";
                            payload := CreatedMsg uuid (user_tenant_id user) (user_id user)
                                         (new_dependency uuid now user data) now |} ])%list |})
    end.
Proof.
  unfold createDependency, transaction. unfold bind at 1.
  rewrite validateWorkItemsExist_run.
  destruct (missing_ids user [req_from_id data; req_to_id data] w) as [|m ms].
  2: { rewrite world_eta. reflexivity. }
  unfold wouldCreateCycle, read, bind, ret, throw.
  destruct (would_cycle_query (dependency_edges w) (user_tenant_id user)
                              (req_to_id data) (req_from_id data)).
  { cbn. rewrite world_eta. reflexivity. }
  cbn [has_cycles].
  destruct (0 <? length _)%nat.
  { rewrite world_eta. reflexivity. }
  reflexivity.
Qed.

(** The two outcomes of [deleteDependency]. *)
Lemma deleteDependency_run now user dependencyId w :
  deleteDependency now user dependencyId w
  = match hd_error (List.filter
                      (fun de => String.eqb (dep_id de) dependencyId
                                 && String.eqb (dep_tenant_id de) (user_tenant_id user))
                      (dependency_edges w)) with
    | None => (Throw (Error "DEPENDENCY_NOT_FOUND"), w)
    | Some existing =>
        (Ok tt,
         {| work_items := work_items w;
            dependency_edges :=
              List.filter (fun de => negb (String.eqb (dep_id de) dependencyId
                                           && String.eqb (dep_tenant_id de)
                                                         (user_tenant_id user)))
                          (dependency_edges w);
            published :=
              ((published w
                ++ [ {| exchange := "system"; routingKey := "critical_path.recalculate";
                        payload := RecalculateMsg (user_tenant_id user) now |} ])
               ++ [ {| exchange := "dependencies"; routingKey := "dependency.deleted";
                       payload := DeletedMsg dependencyId (user_tenant_id user)
                                             (user_id user) existing now |} ])%list |})
    end.
Proof.
  unfold deleteDependency, transaction, getDependencyById, read, bind.
  destruct (hd_error _); [reflexivity|].
  cbn. rewrite world_eta. reflexivity.
Qed.

(** A lifecycle call that succeeds keeps every tenant free of cycles of at
    most 21 edges, when a create joins two different work items. *)
Lemma call_ok_acyclic_upto (c : Call) (w w' : World) :
  distinct_endpoints c ->
  call_ok c w = Some w' ->
  forall tenant,
    acyclic_upto 21 (tenant_edges tenant (dependency_edges w)) ->
    acyclic_upto 21 (tenant_edges tenant (dependency_edges w')).
Proof.
  intros Hd Hok tenant Hacy. destruct c as [uuid now user data|now user dependencyId];
    cbn [call_ok distinct_endpoints] in *.
  - rewrite createDependency_run in Hok.
    destruct (missing_ids _ _ _); [|discriminate Hok].
    destruct (would_cycle_query _ _ _ _) eqn:Hprobe; [discriminate Hok|].
    destruct (0 <? length _)%nat; [discriminate Hok|].
    injection Hok as <-. cbn [dependency_edges].
    rewrite tenant_edges_snoc. cbn [new_dependency dep_tenant_id dep_from_id dep_to_id].
    destruct (String.eqb_spec (user_tenant_id user) tenant) as [<-|Hother].
    + apply acyclic_upto_add; [exact Hacy | exact Hd |].
      intros n Hn Hw.
      assert (Htrue : would_cycle_query (dependency_edges w) (user_tenant_id user)
                                        (req_to_id data) (req_from_id data) = true).
      { apply would_cycle_query_spec. exists n; split; assumption. }
      congruence.
    + rewrite app_nil_r. exact Hacy.
  - rewrite deleteDependency_run in Hok.
    destruct (hd_error _); [|discriminate Hok].
    injection Hok as <-. cbn [dependency_edges].
    apply (acyclic_upto_subset 21 (tenant_edges tenant (dependency_edges w))); [|exact Hacy].
    intros [a b] Hin. apply in_tenant_edges in Hin as (de & Hin & Hrest).
    apply filter_In in Hin as [Hin _]. apply in_tenant_edges. exists de; auto.
Qed.

(** C1, amended: along every sequence of create and delete calls that all
    succeed and whose creates join two different work items, every tenant's
    edge set stays free of cycles of at most 21 edges. *)
Theorem C1_no_short_cycle_invariant (cs : list Call) (w0 w : World) :
  (forall tenant, acyclic_upto 21 (tenant_edges tenant (dependency_edges w0))) ->
  Forall distinct_endpoints cs ->
  calls_ok cs w0 = Some w ->
  forall tenant, acyclic_upto 21 (tenant_edges tenant (dependency_edges w)).
Proof.
  revert w0; induction cs as [|c cs IH]; intros w0 Hacy Hd Hok.
  - injection Hok as <-. exact Hacy.
  - cbn [calls_ok] in Hok. destruct (call_ok c w0) as [w1|] eqn:Hc; [|discriminate Hok].
    inversion Hd as [|c' cs' Hdc Hdcs]; subst.
    apply (IH w1); [|exact Hdcs|exact Hok].
    intros tenant. apply (call_ok_acyclic_upto c w0 w1 Hdc Hc), Hacy.
Qed.

Lemma acyclic_upto_nil k : acyclic_upto k [].
Proof. intros n a _ Hw. inversion Hw as [|n' a' b c Hin _]; subst. destruct Hin. Qed.

Lemma C1_no_short_cycle_witness :
  exists w, calls_ok calls_abc world_abc_items = Some w
            /\ acyclic_upto 21 (tenant_edges tenant1 (dependency_edges w)).
Proof.
  eexists; split.
  - vm_compute; reflexivity.
  - apply (C1_no_short_cycle_invariant calls_abc world_abc_items).
    + intros tenant. apply acyclic_upto_nil.
    + repeat constructor; cbn; discriminate.
    + vm_compute; reflexivity.
Defined.

(** C1 as stated fails twice. The 21 creates of the chain 0 -> 1 -> ... -> 21
    and the create of 21 -> 0 all succeed and leave a cycle of 22 edges (the
    probe stops at depth 20); and on a tenant without edges the create of
    A -> A succeeds and stores a self-loop. *)
Lemma C1_cycle_accepted :
  (exists w, calls_ok chain_calls world_chain = Some w
             /\ ~ acyclic (tenant_edges tenant1 (dependency_edges w)))
  /\ (exists d w, createDependency fresh_uuid 0 alice (request idA idA) world_a = (Ok d, w)
                  /\ ~ acyclic (tenant_edges tenant1 (dependency_edges w))).
Proof.
  split.
  - eexists; split; [vm_compute; reflexivity|].
    intros Hacy. apply (Hacy 21%nat (chain_id 0)).
    apply (is_walk_sound _ (chain_id 0)
             (List.map chain_id (seq 1 21) ++ [chain_id 0])%list).
    vm_compute; reflexivity.
  - eexists; eexists; split; [vm_compute; reflexivity|].
    intros Hacy. apply (Hacy 0%nat idA).
    apply (is_walk_sound _ idA [idA]). vm_compute; reflexivity.
Qed.

(** ** Rejection of an edge that closes a cycle *)

(** C4 as stated fails: with A -> B and B -> C stored, the create of C -> A
    is rejected with [CYCLE_DETECTED] and the world is unchanged, but the
    chain of the message is [A -> C]: it contains no rotation of
    [A -> B -> C -> A], and B does not occur in it at all. *)
Lemma C4_chain_is_not_the_cycle :
  exists msg,
    createDependency fresh_uuid 0 alice (request idC idA) world_abc
    = (Throw (Error msg), world_abc)
    /\ msg = "CYCLE_DETECTED: Creating this dependency would create a cycle: "
             ++ idA ++ " -> " ++ idC
    /\ names_cycle msg [idA; idB; idC; idA] = false
    /\ names_cycle msg [idB; idC; idA; idB] = false
    /\ names_cycle msg [idC; idA; idB; idC] = false
    /\ includes msg idB = false.
Proof. eexists. vm_compute. repeat split. Qed.

(** C4, amended: with A -> B and B -> C among the tenant's stored edges and
    the work items C and A in the tenant, the create of C -> A throws
    [CYCLE_DETECTED] with the chain [A -> C] (the start and the target of the
    probe), and leaves the tables and the published messages as they were. *)
Theorem C4_cycle_rejected_with_endpoints
    (uuid : string) (now : Z) (user : User) (data : CreateDependencyRequest)
    (w : World) (a b c : string) :
  req_from_id data = c ->
  req_to_id data = a ->
  missing_ids user [c; a] w = [] ->
  In (a, b) (tenant_edges (user_tenant_id user) (dependency_edges w)) ->
  In (b, c) (tenant_edges (user_tenant_id user) (dependency_edges w)) ->
  createDependency uuid now user data w
  = (Throw (Error ("CYCLE_DETECTED: Creating this dependency would create a cycle: "
                   ++ join " -> " [a; c])), w).
Proof.
  intros Hc Ha Hmissing Hab Hbc. rewrite createDependency_run, Hc, Ha, Hmissing.
  assert (Hprobe : would_cycle_query (dependency_edges w) (user_tenant_id user) a c = true).
  { apply would_cycle_query_spec. exists 1%nat; split; [lia|].
    apply (walk_edge _ 1 a b c Hab), (walk_edge _ 0 b c c Hbc), walk_here. }
  rewrite Hprobe. reflexivity.
Qed.

Lemma C4_cycle_rejected_witness :
  createDependency fresh_uuid 0 alice (request idC idA) world_abc
  = (Throw (Error ("CYCLE_DETECTED: Creating this dependency would create a cycle: "
                   ++ join " -> " [idA; idC])), world_abc).
Proof.
  apply (C4_cycle_rejected_with_endpoints fresh_uuid 0 alice (request idC idA)
           world_abc idA idB idC); try reflexivity.
  - cbn. left; reflexivity.
  - cbn. right; left; reflexivity.
Defined.

(* ===================================================================== *)
(** * Critical path method: the maps built from the graph *)
(* ===================================================================== *)

Section MapFolds.
Context {V : Type}.
Variable value : GraphNode -> V.

Lemma fold_insert_other (ns : list GraphNode) (m : gmap string V) (id : string) :
  ~ In id (List.map node_id ns) ->
  fold_left (fun m n => <[node_id n := value n]> m) ns m !! id = m !! id.
Proof.
  revert m; induction ns as [|n ns IH]; intros m Hnot; [reflexivity|].
  cbn [fold_left]. rewrite IH.
  - apply lookup_insert_ne. intros Heq. apply Hnot. left. exact Heq.
  - intros Hin. apply Hnot. right. exact Hin.
Qed.

Lemma fold_insert_some (ns : list GraphNode) (m : gmap string V) (id : string) (v : V) :
  fold_left (fun m n => <[node_id n := value n]> m) ns m !! id = Some v ->
  (exists n, In n ns /\ node_id n = id /\ value n = v) \/ m !! id = Some v.
Proof.
  revert m; induction ns as [|n ns IH]; intros m H; [right; exact H|].
  cbn [fold_left] in H. destruct (IH _ H) as [(n' & Hin & Hid & Hv)|Hm].
  - left; exists n'; split; [right; exact Hin | auto].
  - destruct (string_dec (node_id n) id) as [Heq|Hne].
    + rewrite <- Heq, lookup_insert_eq in Hm. injection Hm as Hm.
      left; exists n; split; [left; reflexivity | auto].
    + rewrite lookup_insert_ne in Hm by exact Hne. right; exact Hm.
Qed.

Lemma fold_insert_in (ns : list GraphNode) (m : gmap string V) (id : string) :
  In id (List.map node_id ns) ->
  exists n, In n ns /\ node_id n = id
            /\ fold_left (fun m n => <[node_id n := value n]> m) ns m !! id
               = Some (value n).
Proof.
  revert m; induction ns as [|n ns IH]; intros m Hin; [destruct Hin|].
  cbn [fold_left].
  destruct (in_dec string_dec id (List.map node_id ns)) as [Hlater|Hnot].
  - destruct (IH (<[node_id n := value n]> m) Hlater) as (n' & Hn' & Hid & Hl).
    exists n'; split; [right; exact Hn' | auto].
  - destruct Hin as [Heq|Hin]; [|contradiction].
    exists n; split; [left; reflexivity|]. split; [exact Heq|].
    rewrite fold_insert_other by exact Hnot. rewrite <- Heq. apply lookup_insert_eq.
Qed.
End MapFolds.

Lemma nodeMap_of_some (ns : list GraphNode) (id : string) (n : GraphNode) :
  nodeMap_of ns !! id = Some n -> In n ns /\ node_id n = id.
Proof.
  intros H. apply (fold_insert_some (fun n => n)) in H as [(n' & Hin & Hid & ->)|H]; [auto|].
  rewrite lookup_empty in H. discriminate H.
Qed.

Lemma nodeMap_of_in (ns : list GraphNode) (id : string) :
  In id (List.map node_id ns) ->
  exists n, In n ns /\ node_id n = id /\ nodeMap_of ns !! id = Some n.
Proof. apply (fold_insert_in (fun n => n)). Qed.

Lemma empty_adjacency_lookup (ns : list GraphNode) (id : string) :
  empty_adjacency ns !! id
  = if in_dec string_dec id (List.map node_id ns) then Some [] else None.
Proof.
  unfold empty_adjacency. destruct (in_dec string_dec id (List.map node_id ns)) as [Hin|Hnot].
  - destruct (fold_insert_in (fun _ => @nil string) ns ∅ id Hin) as (n & _ & _ & H). exact H.
  - rewrite (fold_insert_other (fun _ => @nil string)) by exact Hnot. apply lookup_empty.
Qed.

Lemma push_to_lookup (m : gmap string (list string)) (k v id : string) :
  push_to m k v !! id
  = match m !! id with
    | Some l => Some (if String.eqb k id then l ++ [v] else l)%list
    | None => None
    end.
Proof.
  unfold push_to. destruct (String.eqb_spec k id) as [->|Hne].
  - destruct (m !! id) as [l|] eqn:Hm; [apply lookup_insert_eq | exact Hm].
  - destruct (m !! k) as [l|]; [rewrite lookup_insert_ne by exact Hne|];
      destruct (m !! id); reflexivity.
Qed.

Lemma fold_push_lookup (key val : GraphEdge -> string) (es : list GraphEdge)
    (m : gmap string (list string)) (id : string) :
  fold_left (fun m e => push_to m (key e) (val e)) es m !! id
  = match m !! id with
    | Some l =>
        Some (l ++ List.map val (List.filter (fun e => String.eqb (key e) id) es))%list
    | None => None
    end.
Proof.
  revert m; induction es as [|e es IH]; intros m.
  - cbn. destruct (m !! id); [rewrite app_nil_r|]; reflexivity.
  - cbn [fold_left List.filter]. rewrite IH, push_to_lookup.
    destruct (m !! id) as [l|]; [|reflexivity].
    destruct (String.eqb (key e) id); [|reflexivity].
    cbn [List.map]. rewrite <- app_assoc. reflexivity.
Qed.

Lemma adjacencyList_of_lookup (g : DependencyGraph) (id : string) :
  adjacencyList_of g !! id
  = if in_dec string_dec id (node_ids g) then Some (successors_of (edges g) id) else None.
Proof.
  unfold adjacencyList_of. rewrite (fold_push_lookup edge_from edge_to).
  rewrite empty_adjacency_lookup. unfold node_ids.
  destruct (in_dec string_dec id (List.map node_id (nodes g))); reflexivity.
Qed.

Lemma reverseAdjacencyList_of_lookup (g : DependencyGraph) (id : string) :
  reverseAdjacencyList_of g !! id
  = if in_dec string_dec id (node_ids g) then Some (predecessors_of (edges g) id) else None.
Proof.
  unfold reverseAdjacencyList_of. rewrite (fold_push_lookup edge_to edge_from).
  rewrite empty_adjacency_lookup. unfold node_ids.
  destruct (in_dec string_dec id (List.map node_id (nodes g))); reflexivity.
Qed.

Lemma in_successors_of (es : list GraphEdge) (a b : string) :
  In b (successors_of es a) <-> exists e, In e es /\ edge_from e = a /\ edge_to e = b.
Proof.
  unfold successors_of. rewrite in_map_iff. split.
  - intros (e & Hb & Hin). apply filter_In in Hin as [Hin Ha].
    apply String.eqb_eq in Ha. exists e; auto.
  - intros (e & Hin & Ha & Hb). exists e; split; [exact Hb|].
    apply filter_In; split; [exact Hin | apply String.eqb_eq, Ha].
Qed.

Lemma in_predecessors_of (es : list GraphEdge) (a b : string) :
  In a (predecessors_of es b) <-> exists e, In e es /\ edge_from e = a /\ edge_to e = b.
Proof.
  unfold predecessors_of. rewrite in_map_iff. split.
  - intros (e & Ha & Hin). apply filter_In in Hin as [Hin Hb].
    apply String.eqb_eq in Hb. exists e; auto.
  - intros (e & Hin & Ha & Hb). exists e; split; [exact Ha|].
    apply filter_In; split; [exact Hin | apply String.eqb_eq, Hb].
Qed.

Lemma map_injective_on {A B} (f : A -> B) (l : list A) (x y : A) :
  List.NoDup (List.map f l) -> In x l -> In y l -> f x = f y -> x = y.
Proof.
  induction l as [|z l IH]; intros Hnd Hx Hy Hf; [destruct Hx|].
  cbn [List.map] in Hnd. apply List.NoDup_cons_iff in Hnd as [Hz Hnd].
  destruct Hx as [->|Hx], Hy as [->|Hy].
  - reflexivity.
  - exfalso; apply Hz. rewrite Hf. apply in_map, Hy.
  - exfalso; apply Hz. rewrite <- Hf. apply in_map, Hx.
  - apply IH; assumption.
Qed.

(** With one edge per pair, [lagDays] reads the lag of that edge. *)
Lemma lagDays_of_edge (es : list GraphEdge) (e : GraphEdge) :
  List.NoDup (List.map (fun e => (edge_from e, edge_to e)) es) ->
  In e es ->
  lagDays es (edge_from e) (edge_to e) = edge_lag_days e.
Proof.
  intros Hnd Hin. unfold lagDays, find_edge.
  destruct (List.find _ es) as [e'|] eqn:Hfind.
  - apply find_some in Hfind as [Hin' Hc]. apply andb_true_iff in Hc as [Hf Ht].
    apply String.eqb_eq in Hf, Ht.
    rewrite (map_injective_on (fun e => (edge_from e, edge_to e)) es e' e Hnd Hin' Hin);
      [reflexivity | cbn; congruence].
  - apply (find_none _ _ Hfind) in Hin. rewrite !String.eqb_refl in Hin. discriminate Hin.
Qed.

(* ===================================================================== *)
(** * Critical path method: more call depth changes nothing *)
(* ===================================================================== *)

Section DepthMonotone.
Variable nodeMap : gmap string GraphNode.
Variable adjacencyList reverseAdjacencyList : gmap string (list string).
Variable graph_edges : list GraphEdge.

Lemma forward_loop_mono rec rec' nodeId preds acc st :
  (forall p s, completed (rec p s) -> rec' p s = rec p s) ->
  completed (forward_loop graph_edges rec nodeId preds acc st) ->
  forward_loop graph_edges rec' nodeId preds acc st
  = forward_loop graph_edges rec nodeId preds acc st.
Proof.
  intros Hrec; revert acc st; induction preds as [|p preds IH]; intros acc st Hc;
    [reflexivity|].
  cbn [forward_loop] in *.
  assert (Hp : completed (rec p st)).
  { intros Heq. rewrite Heq in Hc. apply Hc; reflexivity. }
  rewrite (Hrec p st Hp). destruct (rec p st) as [[f st']|e]; [|reflexivity].
  apply IH, Hc.
Qed.

Lemma forwardPass_mono d d' nodeId st :
  (d <= d')%nat ->
  completed (forwardPass nodeMap reverseAdjacencyList graph_edges d nodeId st) ->
  forwardPass nodeMap reverseAdjacencyList graph_edges d' nodeId st
  = forwardPass nodeMap reverseAdjacencyList graph_edges d nodeId st.
Proof.
  revert d' nodeId st; induction d as [|d IH]; intros d' nodeId st Hle Hc.
  - exfalso; apply Hc; reflexivity.
  - destruct d' as [|d']; [lia|]. cbn [forwardPass] in *.
    destruct (earliestFinish st !! nodeId); [reflexivity|].
    assert (Hloop : completed
              (forward_loop graph_edges
                 (forwardPass nodeMap reverseAdjacencyList graph_edges d) nodeId
                 (default [] (reverseAdjacencyList !! nodeId)) 0 st)).
    { intros Heq. rewrite Heq in Hc. apply Hc; reflexivity. }
    rewrite (forward_loop_mono (forwardPass nodeMap reverseAdjacencyList graph_edges d)
               (forwardPass nodeMap reverseAdjacencyList graph_edges d'));
      [reflexivity | | exact Hloop].
    intros p s Hp. apply IH; [lia | exact Hp].
Qed.

Lemma forward_all_mono d d' ns st :
  (d <= d')%nat ->
  completed (forward_all nodeMap reverseAdjacencyList graph_edges d ns st) ->
  forward_all nodeMap reverseAdjacencyList graph_edges d' ns st
  = forward_all nodeMap reverseAdjacencyList graph_edges d ns st.
Proof.
  intros Hle; revert st; induction ns as [|n ns IH]; intros st Hc; [reflexivity|].
  cbn [forward_all] in *.
  assert (Hn : completed (forwardPass nodeMap reverseAdjacencyList graph_edges d
                            (node_id n) st)).
  { intros Heq. rewrite Heq in Hc. apply Hc; reflexivity. }
  rewrite (forwardPass_mono d d' _ _ Hle Hn).
  destruct (forwardPass _ _ _ d (node_id n) st) as [[f st']|e]; [|reflexivity].
  apply IH, Hc.
Qed.

Variable forward : ForwardState.
Variable projectCompletion : jsnum.

Lemma backward_loop_mono rec rec' nodeId succs acc st :
  (forall p s, completed (rec p s) -> rec' p s = rec p s) ->
  completed (backward_loop graph_edges rec nodeId succs acc st) ->
  backward_loop graph_edges rec' nodeId succs acc st
  = backward_loop graph_edges rec nodeId succs acc st.
Proof.
  intros Hrec; revert acc st; induction succs as [|p succs IH]; intros acc st Hc;
    [reflexivity|].
  cbn [backward_loop] in *.
  assert (Hp : completed (rec p st)).
  { intros Heq. rewrite Heq in Hc. apply Hc; reflexivity. }
  rewrite (Hrec p st Hp). destruct (rec p st) as [[f st']|e]; [|reflexivity].
  apply IH, Hc.
Qed.

Lemma backwardPass_mono d d' nodeId st :
  (d <= d')%nat ->
  completed (backwardPass nodeMap adjacencyList graph_edges forward projectCompletion
                          d nodeId st) ->
  backwardPass nodeMap adjacencyList graph_edges forward projectCompletion d' nodeId st
  = backwardPass nodeMap adjacencyList graph_edges forward projectCompletion d nodeId st.
Proof.
  revert d' nodeId st; induction d as [|d IH]; intros d' nodeId st Hle Hc.
  - exfalso; apply Hc; reflexivity.
  - destruct d' as [|d']; [lia|]. cbn [backwardPass] in *.
    destruct (latestStart st !! nodeId); [reflexivity|].
    destruct (default [] (adjacencyList !! nodeId)) as [|s0 succs]; [reflexivity|].
    assert (Hloop : completed
              (backward_loop graph_edges
                 (backwardPass nodeMap adjacencyList graph_edges forward
                               projectCompletion d)
                 nodeId (s0 :: succs) projectCompletion st)).
    { intros Heq. rewrite Heq in Hc. apply Hc; reflexivity. }
    rewrite (backward_loop_mono
               (backwardPass nodeMap adjacencyList graph_edges forward
                             projectCompletion d)
               (backwardPass nodeMap adjacencyList graph_edges forward
                             projectCompletion d'));
      [reflexivity | | exact Hloop].
    intros p s Hp. apply IH; [lia | exact Hp].
Qed.

Lemma backward_all_mono d d' ns st :
  (d <= d')%nat ->
  completed (backward_all nodeMap adjacencyList graph_edges forward projectCompletion
                          d ns st) ->
  backward_all nodeMap adjacencyList graph_edges forward projectCompletion d' ns st
  = backward_all nodeMap adjacencyList graph_edges forward projectCompletion d ns st.
Proof.
  intros Hle; revert st; induction ns as [|n ns IH]; intros st Hc; [reflexivity|].
  cbn [backward_all] in *.
  assert (Hn : completed (backwardPass nodeMap adjacencyList graph_edges forward
                            projectCompletion d (node_id n) st)).
  { intros Heq. rewrite Heq in Hc. apply Hc; reflexivity. }
  rewrite (backwardPass_mono d d' _ _ Hle Hn).
  destruct (backwardPass _ _ _ _ _ d (node_id n) st) as [[f st']|e]; [|reflexivity].
  apply IH, Hc.
Qed.
End DepthMonotone.

(** A call of [calculateCriticalPath] that does not overflow the stack gives
    the same result with any larger call depth. *)
Lemma calculateCriticalPath_mono (d d' : nat) (g : DependencyGraph) :
  (d <= d')%nat ->
  completed (calculateCriticalPath d g) ->
  calculateCriticalPath d' g = calculateCriticalPath d g.
Proof.
  intros Hle Hc. unfold calculateCriticalPath in *.
  assert (Hf : completed (forward_all (nodeMap_of (nodes g)) (reverseAdjacencyList_of g)
                            (edges g) d (nodes g) empty_forward)).
  { intros Heq. rewrite Heq in Hc. apply Hc; reflexivity. }
  rewrite (forward_all_mono _ _ _ d d' _ _ Hle Hf).
  destruct (forward_all _ _ _ d (nodes g) empty_forward) as [fw|e]; [|reflexivity].
  assert (Hb : completed (backward_all (nodeMap_of (nodes g)) (adjacencyList_of g)
                            (edges g) fw (projectCompletion_of fw) d (nodes g)
                            empty_backward)).
  { intros Heq. rewrite Heq in Hc. apply Hc; reflexivity. }
  rewrite (backward_all_mono _ _ _ _ _ d d' _ _ Hle Hb). reflexivity.
Qed.

(* ===================================================================== *)
(** * Critical path method on concrete graphs *)
(* ===================================================================== *)

(** C3: on the diamond, with any call depth of at least 3, the total duration
    is 9, the critical nodes are A, C and D, and B has slack 2. *)
Theorem C3_diamond_critical_path (depth : nat) :
  exists analysis graph',
    calculateCriticalPath (3 + depth) diamond = Ok (analysis, graph')
    /\ total_duration_days analysis = Fin 9
    /\ path analysis = [idA; idC; idD]
    /\ List.map (fun n => (node_id n, node_is_critical n)) (nodes graph')
       = [(idA, true); (idB, false); (idC, true); (idD, true)]
    /\ List.map (fun n => (node_id n, node_slack_days n)) (nodes graph')
       = [(idA, Some (Fin 0)); (idB, Some (Fin 2)); (idC, Some (Fin 0));
          (idD, Some (Fin 0))].
Proof.
  assert (Hc : completed (calculateCriticalPath 3 diamond)) by (vm_compute; discriminate).
  rewrite (calculateCriticalPath_mono 3 (3 + depth) diamond ltac:(lia) Hc).
  vm_compute. eexists; eexists; split; [reflexivity|]. repeat split.
Qed.

(** C6, on the graph without nodes and edges: the path is empty and the
    total duration is [-Infinity] ([Math.max] of no argument), not 0; the
    analysis of a tenant without work items reports the same. *)
Theorem C6_empty_graph_total (depth : nat) :
  (exists analysis graph',
     calculateCriticalPath depth empty_graph = Ok (analysis, graph')
     /\ path analysis = []
     /\ total_duration_days analysis = NegInf)
  /\ (exists analysis,
        getCriticalPathAnalysis depth alice world_empty = (Ok analysis, world_empty)
        /\ path analysis = []
        /\ total_duration_days analysis = NegInf).
Proof.
  split.
  - eexists; eexists; split; [reflexivity|]. split; reflexivity.
  - eexists; split; [reflexivity|]. split; reflexivity.
Qed.

(** The builder turns every fetched dependency into an edge: it filters
    nothing. *)
Lemma buildDependencyGraph_keeps_every_edge (workItems : list WorkItem)
    (dependencies : list Dependency) :
  edge_pairs (buildDependencyGraph workItems dependencies)
  = List.map (fun dep => (dep_from_id dep, dep_to_id dep)) dependencies
  /\ node_ids (buildDependencyGraph workItems dependencies) = List.map wi_id workItems.
Proof.
  unfold edge_pairs, node_ids, buildDependencyGraph; cbn [edges nodes].
  rewrite !List.map_map. split; reflexivity.
Qed.

(** C7, for the filter [A] in a tenant that stores A -> B: the built graph
    has the node A alone and keeps the edge A -> B, and the critical path
    computation reads [duration_days] of the missing node B, so
    [getDependencyGraph] throws a [TypeError]. *)
Theorem C7_dangling_edge_reaches_cpm (depth : nat) :
  node_ids filtered_graph = [idA]
  /\ edge_pairs filtered_graph = [(idA, idB)]
  /\ calculateCriticalPath (2 + depth) filtered_graph
     = Throw (undefined_read "duration_days")
  /\ getDependencyGraph (2 + depth) alice (Some [idA]) world_ab
     = (Throw (undefined_read "duration_days"), world_ab).
Proof.
  assert (Hc : completed (calculateCriticalPath 2 filtered_graph))
    by (vm_compute; discriminate).
  assert (Hcpm : calculateCriticalPath (2 + depth) filtered_graph
                 = Throw (undefined_read "duration_days")).
  { rewrite (calculateCriticalPath_mono 2 (2 + depth) filtered_graph ltac:(lia) Hc).
    vm_compute; reflexivity. }
  split; [reflexivity|]. split; [reflexivity|]. split; [exact Hcpm|].
  unfold getDependencyGraph. fold filtered_graph. rewrite Hcpm. reflexivity.
Qed.

(* ===================================================================== *)
(** * Risk score and completion probability *)
(* ===================================================================== *)

(** C9, on the graph without nodes: the score is [0 / 0], that is [NaN], not
    0, and the completion probability computed from it is [NaN] as well; the
    analysis of a tenant without work items reports both. *)
Theorem C9_empty_graph_risk_is_nan :
  PrimFloat.is_nan (calculateRiskScore empty_graph) = true
  /\ PrimFloat.is_nan (estimateCompletionProbability (calculateRiskScore empty_graph)) = true
  /\ exists analysis,
       getCriticalPathAnalysis 1 alice world_empty = (Ok analysis, world_empty)
       /\ PrimFloat.is_nan (risk_score analysis) = true
       /\ PrimFloat.is_nan (completion_probability analysis) = true.
Proof.
  split; [vm_compute; reflexivity|]. split; [vm_compute; reflexivity|].
  eexists; split; [reflexivity|]. split; vm_compute; reflexivity.
Qed.

(** On a graph with nodes the formula applies: one blocked node gives the
    score 0.5 and the probability 0.5. *)
Example risk_of_one_blocked_node :
  calculateRiskScore blocked_graph = 0.5%float
  /\ estimateCompletionProbability (calculateRiskScore blocked_graph) = 0.5%float.
Proof. split; vm_compute; reflexivity. Qed.

(* ===================================================================== *)
(** * Further scenarios of the specification, evaluated *)
(* ===================================================================== *)

(** Linear chain without lag: total duration 10, every node critical. *)
Example linear_chain_critical_path :
  exists analysis graph',
    calculateCriticalPath 3 linear_chain = Ok (analysis, graph')
    /\ total_duration_days analysis = Fin 10
    /\ path analysis = [idA; idB; idC]
    /\ List.map node_slack_days (nodes graph')
       = [Some (Fin 0); Some (Fin 0); Some (Fin 0)].
Proof. vm_compute. eexists; eexists; repeat split. Qed.

(** Duplicate rejection: with A -> B stored, the create of A -> B throws
    [DUPLICATE_DEPENDENCY], answered 409, and the world is unchanged. *)
Example duplicate_rejected :
  exists e,
    createDependency fresh_uuid 0 alice (request idA idB) world_ab = (Throw e, world_ab)
    /\ statusCode (handleError e "Failed to create dependency") = 409
    /\ error (handleError e "Failed to create dependency") = Some "DUPLICATE_DEPENDENCY".
Proof. eexists. vm_compute. repeat split. Qed.

(** [detectCycles] on the triangle records the cycle A, B, C, A. *)
Example triangle_cycle_detected :
  exists r,
    detectCycles 4 triangle = Ok r
    /\ has_cycles r = true
    /\ cycles r = [[idA; idB; idC; idA]]
    /\ affected_work_items r = [idA; idB; idC].
Proof. vm_compute. eexists; repeat split. Qed.

(** On the triangle the forward pass recurses around the cycle: a call depth
    of 50 is exhausted. *)
Example triangle_overflows :
  calculateCriticalPath 50 triangle = Throw stack_overflow.
Proof. vm_compute. reflexivity. Qed.

(** The analysis of a stored diamond whose node C is blocked and long: C is
    the one bottleneck, with both risk factors. *)
Example diamond_bottleneck :
  exists analysis,
    getCriticalPathAnalysis 4 alice world_diamond = (Ok analysis, world_diamond)
    /\ path analysis = [idA; idC; idD]
    /\ total_duration_days analysis = Fin 51
    /\ List.map (fun b => (work_item_id b, delay_impact_days b, risk_factors b))
                (bottlenecks analysis)
       = [(idC, 45, ["Currently blocked"; "Long duration"])].
Proof. vm_compute. eexists; repeat split. Qed.

(* ===================================================================== *)
(** * Critical path method: the recursion ends on an acyclic graph *)
(* ===================================================================== *)

Lemma reaches_edge E a b : In (a, b) E -> reaches E a b.
Proof. intros H; exists 0%nat. apply (walk_edge E 0 a b b H), walk_here. Qed.

Lemma reaches_trans E a b c : reaches E a b -> reaches E b c -> reaches E a c.
Proof.
  intros [n Hn] [m Hm]. exists (n + S m)%nat.
  apply (walk_app E (S n) (S m) a b c Hn Hm).
Qed.

Lemma reaches_irrefl E a : acyclic E -> ~ reaches E a a.
Proof. intros Hacy [n Hn]. exact (Hacy n a Hn). Qed.

(** The nodes whose call is pending form the call stack of a recursive pass:
    they are distinct nodes of the graph, all related to the node of the
    current call, so the stack is never deeper than the number of nodes. *)
Section CallStack.
Variable below : string -> string -> Prop.
Hypothesis below_trans : forall a b c, below a b -> below b c -> below a c.
Hypothesis below_irrefl : forall a, ~ below a a.
Variable ids : list string.

Lemma stack_ok_fresh depth id stack :
  stack_ok below ids depth id stack -> In id ids ->
  List.NoDup (id :: stack) /\ incl (id :: stack) ids.
Proof.
  intros (Hnd & Hincl & Hbelow & _) Hid. split.
  - constructor; [|exact Hnd]. intros Hin. exact (below_irrefl id (Hbelow id Hin)).
  - intros x [<-|Hx]; [exact Hid | exact (Hincl x Hx)].
Qed.

Lemma stack_ok_depth depth id stack :
  stack_ok below ids depth id stack -> In id ids -> exists depth', depth = S depth'.
Proof.
  intros Hok Hid. destruct (stack_ok_fresh depth id stack Hok Hid) as [Hnd Hincl].
  pose proof (List.NoDup_incl_length Hnd Hincl) as Hlen. cbn [length] in Hlen.
  destruct Hok as (_ & _ & _ & Hdepth).
  destruct depth as [|depth']; [lia | exists depth'; reflexivity].
Qed.

Lemma stack_ok_push depth id stack p :
  stack_ok below ids (S depth) id stack -> In id ids -> below p id ->
  stack_ok below ids depth p (id :: stack).
Proof.
  intros Hok Hid Hp. destruct (stack_ok_fresh (S depth) id stack Hok Hid) as [Hnd Hincl].
  destruct Hok as (_ & _ & Hbelow & Hdepth). repeat split; [exact Hnd | exact Hincl | |].
  - intros x [<-|Hx]; [exact Hp | exact (below_trans p id x Hp (Hbelow x Hx))].
  - cbn [length]. lia.
Qed.

Lemma stack_ok_nil depth id : (length ids <= depth)%nat -> stack_ok below ids depth id [].
Proof.
  intros H. repeat split; [constructor | intros x [] | intros x [] | cbn [length]; lia].
Qed.
End CallStack.

(* ===================================================================== *)
(** * Critical path method: the forward pass *)
(* ===================================================================== *)

Lemma start_from_mono es (EF EF' : gmap string Z) id preds acc s :
  EF ⊆ EF' -> start_from es EF id preds acc = Some s ->
  start_from es EF' id preds acc = Some s.
Proof.
  intros Hsub; revert acc; induction preds as [|p preds IH]; intros acc H; [exact H|].
  cbn [start_from] in *. destruct (EF !! p) as [pf|] eqn:Hp; [|discriminate H].
  rewrite (lookup_weaken _ _ _ _ Hp Hsub). apply IH, H.
Qed.

(** The fold is at least [acc] and at least every predecessor's finish plus
    lag... *)
Lemma start_from_ge es (EF : gmap string Z) id preds acc s :
  start_from es EF id preds acc = Some s ->
  acc <= s
  /\ forall p, In p preds -> exists pf, EF !! p = Some pf /\ pf + lagDays es p id <= s.
Proof.
  revert acc; induction preds as [|p preds IH]; intros acc H; cbn [start_from] in H.
  - injection H as <-. split; [lia | intros p []].
  - destruct (EF !! p) as [pf|] eqn:Hp; [|discriminate H].
    destruct (IH _ H) as [Hacc Hall]. split; [lia|].
    intros q [<-|Hq]; [exists pf; split; [exact Hp | lia] | exact (Hall q Hq)].
Qed.

(** ... and it is [acc] or one of these values. *)
Lemma start_from_attained es (EF : gmap string Z) id preds acc s :
  start_from es EF id preds acc = Some s ->
  s = acc
  \/ exists p pf, In p preds /\ EF !! p = Some pf /\ s = pf + lagDays es p id.
Proof.
  revert acc; induction preds as [|p preds IH]; intros acc H; cbn [start_from] in H.
  - injection H as <-. left; reflexivity.
  - destruct (EF !! p) as [pf|] eqn:Hp; [|discriminate H].
    destruct (IH _ H) as [->|(q & qf & Hq & Hqf & ->)].
    + destruct (Z.max_spec acc (pf + lagDays es p id)) as [[_ ->]|[_ ->]].
      * right; exists p, pf; repeat split; [left; reflexivity | exact Hp].
      * left; reflexivity.
    + right; exists q, qf; repeat split; [right; exact Hq | exact Hqf].
Qed.

Section Forward.
Variable g : DependencyGraph.
Hypothesis endpoints_are_nodes :
  forall e, In e (edges g) -> In (edge_from e) (node_ids g) /\ In (edge_to e) (node_ids g).
Hypothesis graph_acyclic : acyclic (edge_pairs g).

Local Abbreviation nodeMap := (nodeMap_of (nodes g)).
Local Abbreviation radj := (reverseAdjacencyList_of g).
Local Abbreviation below := (reaches (edge_pairs g)).

Lemma edge_pair_in e : In e (edges g) -> In (edge_from e, edge_to e) (edge_pairs g).
Proof. intros H. unfold edge_pairs. apply (in_map (fun e => (edge_from e, edge_to e))), H. Qed.

Lemma forward_loop_ok rec id :
  (forall p st, fwd_inv g st -> In p (node_ids g) -> below p id -> fwd_post g p st (rec p st)) ->
  forall preds acc st,
    fwd_inv g st ->
    (forall p, In p preds -> In p (node_ids g) /\ below p id) ->
    exists m st',
      forward_loop (edges g) rec id preds acc st = Ok (m, st')
      /\ fwd_inv g st'
      /\ earliestFinish st ⊆ earliestFinish st'
      /\ start_from (edges g) (earliestFinish st') id preds acc = Some m
      /\ forall k, earliestFinish st !! k = None -> earliestFinish st' !! k <> None ->
                   below k id.
Proof.
  intros Hrec; induction preds as [|p preds IH]; intros acc st Hinv Hpreds.
  - exists acc, st. repeat split; [exact Hinv | reflexivity |].
    intros k Hk Hk'. contradiction.
  - destruct (Hpreds p (or_introl eq_refl)) as [Hp Hbelow].
    destruct (Hrec p st Hinv Hp Hbelow) as (pf & st1 & Hr & Hinv1 & Hsub1 & Hpf & Hgrow1).
    cbn [forward_loop]. rewrite Hr.
    destruct (IH (Z.max acc (pf + lagDays (edges g) p id)) st1 Hinv1
                 (fun q Hq => Hpreds q (or_intror Hq)))
      as (m & st' & Hloop & Hinv' & Hsub' & Hstart & Hgrow').
    exists m, st'. repeat split.
    + exact Hloop.
    + exact Hinv'.
    + transitivity (earliestFinish st1); assumption.
    + cbn [start_from]. rewrite (lookup_weaken _ _ _ _ Hpf Hsub'). exact Hstart.
    + intros k Hk Hk'. destruct (earliestFinish st1 !! k) as [v|] eqn:Hk1.
      * destruct (Hgrow1 k Hk) as [->|Hkp]; [congruence | exact Hbelow |].
        exact (reaches_trans _ k p id Hkp Hbelow).
      * exact (Hgrow' k Hk1 Hk').
Qed.

Lemma predecessors_are_below id p :
  In p (predecessors_of (edges g) id) -> In p (node_ids g) /\ below p id.
Proof.
  intros H. apply in_predecessors_of in H as (e & He & <- & <-). split.
  - apply (endpoints_are_nodes e He).
  - apply reaches_edge, edge_pair_in, He.
Qed.

(** With call depth for the nodes not yet on the stack, the forward pass
    on a node returns and extends the memo tables consistently. *)
Lemma forwardPass_ok depth :
  forall id st stack,
    fwd_inv g st -> In id (node_ids g) ->
    stack_ok below (node_ids g) depth id stack ->
    fwd_post g id st (forwardPass nodeMap radj (edges g) depth id st).
Proof.
  induction depth as [|depth IH]; intros id st stack Hinv Hid Hstack.
  - destruct (stack_ok_depth below (fun a => reaches_irrefl _ a graph_acyclic)
                (node_ids g) 0 id stack Hstack Hid) as [d Hd]. discriminate Hd.
  - cbn [forwardPass]. destruct (earliestFinish st !! id) as [f|] eqn:Hmemo.
    + exists f, st. repeat split; [exact Hinv | reflexivity | exact Hmemo |].
      intros k Hk Hk'. contradiction.
    + rewrite reverseAdjacencyList_of_lookup.
      destruct (in_dec string_dec id (node_ids g)) as [_|Hnot]; [|contradiction].
      cbn [default from_option Datatypes.id].
      destruct (forward_loop_ok (forwardPass nodeMap radj (edges g) depth) id) with
        (preds := predecessors_of (edges g) id) (acc := 0) (st := st)
        as (m & st' & Hloop & Hinv' & Hsub & Hstart & Hgrow).
      { intros p s Hs Hp Hbelow. apply (IH p s (id :: stack) Hs Hp).
        apply (stack_ok_push below (reaches_trans _)
                 (fun a => reaches_irrefl _ a graph_acyclic) (node_ids g)
                 depth id stack p Hstack Hid Hbelow). }
      { exact Hinv. }
      { apply predecessors_are_below. }
      rewrite Hloop.
      destruct (nodeMap_of_in (nodes g) id Hid) as (node & _ & _ & Hnode).
      rewrite Hnode.
      assert (Hfresh : earliestFinish st' !! id = None).
      { destruct (earliestFinish st' !! id) as [v|] eqn:Hv; [|reflexivity].
        exfalso. apply (reaches_irrefl _ id graph_acyclic).
        apply (Hgrow id Hmemo). rewrite Hv. discriminate. }
      assert (Hext : earliestFinish st'
                     ⊆ <[id := m + node_duration_days node]> (earliestFinish st')).
      { apply insert_subseteq, Hfresh. }
      eexists _, _. split; [reflexivity|]. cbn [earliestFinish earliestStart].
      repeat split.
      * intros k f Hk. cbn [earliestFinish earliestStart] in Hk |- *.
        destruct (string_dec id k) as [<-|Hne].
        -- rewrite lookup_insert_eq in Hk. injection Hk as <-.
           exists node, m. rewrite lookup_insert_eq.
           repeat split; [exact Hnode|]. apply (start_from_mono _ _ _ _ _ _ _ Hext Hstart).
        -- rewrite lookup_insert_ne in Hk by exact Hne.
           destruct (Hinv' k f Hk) as (nk & sk & Hnk & Hsk & Hfk & Hstk).
           exists nk, sk. rewrite lookup_insert_ne by exact Hne.
           repeat split; [exact Hnk | exact Hsk | exact Hfk |].
           apply (start_from_mono _ _ _ _ _ _ _ Hext Hstk).
      * transitivity (earliestFinish st'); assumption.
      * apply lookup_insert_eq.
      * intros k Hk Hk'. destruct (string_dec id k) as [<-|Hne]; [left; reflexivity|].
        right. rewrite lookup_insert_ne in Hk' by exact Hne. exact (Hgrow k Hk Hk').
Qed.

(** The forward pass over all nodes returns, with every node memoised. *)
Lemma forward_all_ok depth :
  (length (nodes g) <= depth)%nat ->
  forall ns st,
    fwd_inv g st -> incl (List.map node_id ns) (node_ids g) ->
    exists st',
      forward_all nodeMap radj (edges g) depth ns st = Ok st'
      /\ fwd_inv g st'
      /\ earliestFinish st ⊆ earliestFinish st'
      /\ forall id, In id (List.map node_id ns) -> earliestFinish st' !! id <> None.
Proof.
  intros Hdepth; induction ns as [|n ns IH]; intros st Hinv Hincl.
  - exists st. repeat split; [exact Hinv | reflexivity | intros id []].
  - assert (Hn : In (node_id n) (node_ids g)) by (apply Hincl; left; reflexivity).
    destruct (forwardPass_ok depth (node_id n) st [] Hinv Hn)
      as (f & st1 & Hr & Hinv1 & Hsub1 & Hf & _).
    { apply stack_ok_nil. unfold node_ids. rewrite length_map. exact Hdepth. }
    cbn [forward_all]. rewrite Hr.
    destruct (IH st1 Hinv1 (fun x Hx => Hincl x (or_intror Hx)))
      as (st' & Hall & Hinv' & Hsub' & Hmemo).
    exists st'. repeat split; [exact Hall | exact Hinv' | |].
    + transitivity (earliestFinish st1); assumption.
    + intros id [<-|Hid]; [|exact (Hmemo id Hid)].
      rewrite (lookup_weaken _ _ _ _ Hf Hsub'). discriminate.
Qed.

Lemma fwd_inv_empty : fwd_inv g empty_forward.
Proof. intros id f H. cbn in H. rewrite lookup_empty in H. discriminate H. Qed.
End Forward.

(* ===================================================================== *)
(** * Critical path method: project completion and the backward pass *)
(* ===================================================================== *)

Lemma fold_max_fin (zs : list Z) (a : Z) :
  fold_left Math_max (List.map Fin zs) (Fin a) = Fin (fold_left Z.max zs a).
Proof. revert a; induction zs as [|z zs IH]; intros a; [reflexivity | apply IH]. Qed.

Lemma fold_max_ge (zs : list Z) (a : Z) :
  a <= fold_left Z.max zs a /\ forall z, In z zs -> z <= fold_left Z.max zs a.
Proof.
  revert a; induction zs as [|z zs IH]; intros a; cbn [fold_left].
  - split; [lia | intros z []].
  - destruct (IH (Z.max a z)) as [Ha Hall]. split; [lia|].
    intros y [<-|Hy]; [lia | exact (Hall y Hy)].
Qed.

(** [Math.max] of at least one finite value is finite and bounds them all. *)
Lemma Math_max_all_fin (zs : list Z) :
  zs <> [] ->
  exists t, Math_max_all (List.map Fin zs) = Fin t /\ forall z, In z zs -> z <= t.
Proof.
  destruct zs as [|z zs]; [contradiction|]. intros _.
  exists (fold_left Z.max zs z). split.
  - unfold Math_max_all. cbn [List.map fold_left Math_max]. apply fold_max_fin.
  - destruct (fold_max_ge zs z) as [Hz Hall]. intros y [<-|Hy]; [exact Hz | exact (Hall y Hy)].
Qed.

Lemma projectCompletion_of_fin (fw : ForwardState) (id0 : string) (f0 : Z) :
  earliestFinish fw !! id0 = Some f0 ->
  exists t, projectCompletion_of fw = Fin t
            /\ forall id f, earliestFinish fw !! id = Some f -> f <= t.
Proof.
  intros H0. unfold projectCompletion_of.
  rewrite <- (List.map_map snd Fin).
  destruct (Math_max_all_fin (List.map snd (map_to_list (earliestFinish fw))))
    as (t & Ht & Hall).
  - intros Hnil. apply elem_of_map_to_list, list_elem_of_In in H0.
    apply (in_map snd) in H0. rewrite Hnil in H0. destruct H0.
  - exists t; split; [exact Ht|]. intros id f Hf. apply Hall.
    apply elem_of_map_to_list, list_elem_of_In in Hf. apply (in_map snd) in Hf. exact Hf.
Qed.

Section Backward.
Variable g : DependencyGraph.
Hypothesis endpoints_are_nodes :
  forall e, In e (edges g) -> In (edge_from e) (node_ids g) /\ In (edge_to e) (node_ids g).
Hypothesis graph_acyclic : acyclic (edge_pairs g).

Variable fw : ForwardState.
Hypothesis forward_consistent : fwd_inv g fw.
Hypothesis forward_complete :
  forall id, In id (node_ids g) -> earliestFinish fw !! id <> None.

Variable t : Z.
Hypothesis completion_bounds :
  forall id f, earliestFinish fw !! id = Some f -> f <= t.

Local Abbreviation nodeMap := (nodeMap_of (nodes g)).
Local Abbreviation adj := (adjacencyList_of g).
Local Abbreviation above := (fun a b => reaches (edge_pairs g) b a).

Lemma above_trans a b c : above a b -> above b c -> above a c.
Proof. intros Hab Hbc. exact (reaches_trans _ c b a Hbc Hab). Qed.

Lemma above_irrefl a : ~ above a a.
Proof. apply reaches_irrefl, graph_acyclic. Qed.

Lemma backward_loop_ok rec id ef :
  earliestFinish fw !! id = Some ef ->
  (forall s st, bwd_inv g fw st -> In s (node_ids g) -> above s id ->
                bwd_post g fw s st (rec s st)) ->
  forall succs a st,
    bwd_inv g fw st -> ef <= a ->
    (forall s, In s succs ->
               In s (node_ids g) /\ above s id /\ In id (predecessors_of (edges g) s)) ->
    exists m st',
      backward_loop (edges g) rec id succs (Fin a) st = Ok (Fin m, st')
      /\ bwd_inv g fw st'
      /\ latestStart st ⊆ latestStart st'
      /\ ef <= m
      /\ forall k, latestStart st !! k = None -> latestStart st' !! k <> None ->
                   above k id.
Proof.
  intros Hef Hrec; induction succs as [|s succs IH]; intros a st Hinv Ha Hsuccs.
  - exists a, st. repeat split; [exact Hinv | reflexivity | exact Ha |].
    intros k Hk Hk'. contradiction.
  - destruct (Hsuccs s (or_introl eq_refl)) as (Hs & Habove & Hpred).
    destruct (Hrec s st Hinv Hs Habove)
      as (ls & st1 & Hr & Hinv1 & Hsub1 & Hls & Hgrow1).
    cbn [backward_loop]. rewrite Hr.
    destruct (Hinv1 s ls Hls) as (node & efs & lfs & Hnode & Hefs & _ & -> & Hle).
    destruct (forward_consistent s efs Hefs) as (node' & ss & Hnode' & _ & Hfs & Hstart).
    assert (node' = node) by congruence; subst node'.
    destruct (start_from_ge _ _ _ _ _ _ Hstart) as [_ Hall].
    destruct (Hall id Hpred) as (pf & Hpf & Hlag).
    assert (pf = ef) by congruence; subst pf.
    cbn [jsub Math_min].
    destruct (IH (Z.min a (lfs - node_duration_days node - lagDays (edges g) id s)) st1
                 Hinv1 ltac:(lia) (fun q Hq => Hsuccs q (or_intror Hq)))
      as (m & st' & Hloop & Hinv' & Hsub' & Hm & Hgrow').
    exists m, st'. repeat split.
    + exact Hloop.
    + exact Hinv'.
    + transitivity (latestStart st1); assumption.
    + exact Hm.
    + intros k Hk Hk'. destruct (latestStart st1 !! k) as [v|] eqn:Hk1.
      * destruct (Hgrow1 k Hk) as [->|Hks]; [congruence | exact Habove |].
        exact (above_trans k s id Hks Habove).
      * exact (Hgrow' k Hk1 Hk').
Qed.

Lemma successors_are_above id s :
  In s (successors_of (edges g) id) ->
  In s (node_ids g) /\ above s id /\ In id (predecessors_of (edges g) s).
Proof.
  intros H. apply in_successors_of in H as (e & He & <- & <-). repeat split.
  - apply (endpoints_are_nodes e He).
  - apply reaches_edge, (edge_pair_in g), He.
  - apply in_predecessors_of. exists e; auto.
Qed.

(** With call depth for the nodes not yet on the stack, the backward pass
    on a node returns and extends the memo tables consistently. *)
Lemma backwardPass_ok depth :
  forall id st stack,
    bwd_inv g fw st -> In id (node_ids g) ->
    stack_ok above (node_ids g) depth id stack ->
    bwd_post g fw id st (backwardPass nodeMap adj (edges g) fw (Fin t) depth id st).
Proof.
  induction depth as [|depth IH]; intros id st stack Hinv Hid Hstack.
  - destruct (stack_ok_depth above above_irrefl (node_ids g) 0 id stack Hstack Hid)
      as [d Hd]. discriminate Hd.
  - cbn [backwardPass]. destruct (latestStart st !! id) as [ls|] eqn:Hmemo.
    + exists ls, st. repeat split; [exact Hinv | reflexivity | exact Hmemo |].
      intros k Hk Hk'. contradiction.
    + rewrite adjacencyList_of_lookup.
      destruct (in_dec string_dec id (node_ids g)) as [_|Hnot]; [|contradiction].
      cbn [default from_option Datatypes.id].
      destruct (earliestFinish fw !! id) as [ef|] eqn:Hef;
        [|exfalso; exact (forward_complete id Hid Hef)].
      destruct (nodeMap_of_in (nodes g) id Hid) as (node & _ & _ & Hnode).
      assert (Hstep : exists lf st',
                 match successors_of (edges g) id with
                 | [] => Ok (num_get (earliestFinish fw) id, st)
                 | _ :: _ =>
                     backward_loop (edges g)
                       (backwardPass nodeMap adj (edges g) fw (Fin t) depth) id
                       (successors_of (edges g) id) (Fin t) st
                 end = Ok (Fin lf, st')
                 /\ bwd_inv g fw st'
                 /\ latestStart st ⊆ latestStart st'
                 /\ ef <= lf
                 /\ forall k, latestStart st !! k = None -> latestStart st' !! k <> None ->
                              above k id).
      { destruct (successors_of (edges g) id) as [|s0 succs] eqn:Hsuccs.
        - exists ef, st. unfold num_get. rewrite Hef.
          repeat split; [exact Hinv | reflexivity | lia |].
          intros k Hk Hk'. contradiction.
        - rewrite <- Hsuccs.
          apply (backward_loop_ok _ id ef Hef).
          + intros s s1 Hs1 Hs Habove. apply (IH s s1 (id :: stack) Hs1 Hs).
            apply (stack_ok_push above above_trans above_irrefl (node_ids g)
                     depth id stack s Hstack Hid Habove).
          + exact Hinv.
          + apply (completion_bounds id ef Hef).
          + apply successors_are_above. }
      destruct Hstep as (lf & st' & Hloop & Hinv' & Hsub & Hlf & Hgrow).
      rewrite Hloop, Hnode.
      assert (Hfresh : latestStart st' !! id = None).
      { destruct (latestStart st' !! id) as [v|] eqn:Hv; [|reflexivity].
        exfalso. apply (above_irrefl id). apply (Hgrow id Hmemo). rewrite Hv. discriminate. }
      eexists _, _. split; [reflexivity|]. repeat split.
      * intros k ls Hk. cbn [latestStart latestFinish jsub] in Hk |- *.
        destruct (string_dec id k) as [<-|Hne].
        -- rewrite lookup_insert_eq in Hk. injection Hk as <-.
           exists node, ef, lf. rewrite lookup_insert_eq. repeat split; assumption.
        -- rewrite lookup_insert_ne in Hk by exact Hne.
           destruct (Hinv' k ls Hk) as (nk & efk & lfk & Hnk & Hefk & Hlfk & Hlsk & Hle).
           exists nk, efk, lfk. rewrite lookup_insert_ne by exact Hne.
           repeat split; assumption.
      * cbn [latestStart]. transitivity (latestStart st'); [exact Hsub|].
        apply insert_subseteq, Hfresh.
      * cbn [latestStart]. apply lookup_insert_eq.
      * intros k Hk Hk'. cbn [latestStart] in Hk'.
        destruct (string_dec id k) as [<-|Hne]; [left; reflexivity|].
        right. rewrite lookup_insert_ne in Hk' by exact Hne. exact (Hgrow k Hk Hk').
Qed.

(** The backward pass over all nodes returns, with every node memoised. *)
Lemma backward_all_ok depth :
  (length (nodes g) <= depth)%nat ->
  forall ns st,
    bwd_inv g fw st -> incl (List.map node_id ns) (node_ids g) ->
    exists st',
      backward_all nodeMap adj (edges g) fw (Fin t) depth ns st = Ok st'
      /\ bwd_inv g fw st'
      /\ latestStart st ⊆ latestStart st'
      /\ forall id, In id (List.map node_id ns) -> latestStart st' !! id <> None.
Proof.
  intros Hdepth; induction ns as [|n ns IH]; intros st Hinv Hincl.
  - exists st. repeat split; [exact Hinv | reflexivity | intros id []].
  - assert (Hn : In (node_id n) (node_ids g)) by (apply Hincl; left; reflexivity).
    destruct (backwardPass_ok depth (node_id n) st [] Hinv Hn)
      as (ls & st1 & Hr & Hinv1 & Hsub1 & Hls & _).
    { apply stack_ok_nil. unfold node_ids. rewrite length_map. exact Hdepth. }
    cbn [backward_all]. rewrite Hr.
    destruct (IH st1 Hinv1 (fun x Hx => Hincl x (or_intror Hx)))
      as (st' & Hall & Hinv' & Hsub' & Hmemo).
    exists st'. repeat split; [exact Hall | exact Hinv' | |].
    + transitivity (latestStart st1); assumption.
    + intros id [<-|Hid]; [|exact (Hmemo id Hid)].
      rewrite (lookup_weaken _ _ _ _ Hls Hsub'). discriminate.
Qed.

Lemma bwd_inv_empty : bwd_inv g fw empty_backward.
Proof. intros id ls H. cbn in H. rewrite lookup_empty in H. discriminate H. Qed.
End Backward.

(* ===================================================================== *)
(** * Critical path method: soundness on well-formed acyclic graphs *)
(* ===================================================================== *)

Lemma mark_edges_ok (m : gmap string GraphNode) (es : list GraphEdge) :
  (forall e, In e es -> m !! edge_from e <> None /\ m !! edge_to e <> None) ->
  exists es', mark_edges m es = Ok es'.
Proof.
  induction es as [|e es IH]; intros H; [exists []; reflexivity|].
  destruct (H e (or_introl eq_refl)) as [Hf Ht].
  destruct (IH (fun e' He' => H e' (or_intror He'))) as [es' Hes'].
  cbn [mark_edges]. unfold mark_edge.
  destruct (m !! edge_from e) as [fromNode|]; [|contradiction].
  destruct (m !! edge_to e) as [toNode|]; [|contradiction].
  rewrite Hes'. destruct (node_is_critical fromNode); eexists; reflexivity.
Qed.

Lemma annotate_ids fw bw (ns : list GraphNode) :
  List.map node_id (List.map (annotate fw bw) ns) = List.map node_id ns.
Proof. rewrite List.map_map. reflexivity. Qed.

(** On an acyclic graph whose edges join its nodes, with a call depth of at
    least the number of nodes, [calculateCriticalPath] returns: both passes
    memoise every node, and the graph comes back with every node annotated. *)
Lemma calculateCriticalPath_runs (g : DependencyGraph) (depth : nat) :
  (forall e, In e (edges g) ->
             In (edge_from e) (node_ids g) /\ In (edge_to e) (node_ids g)) ->
  acyclic (edge_pairs g) ->
  (length (nodes g) <= depth)%nat ->
  exists fw bw analysis edges',
    calculateCriticalPath depth g
    = Ok (analysis,
          {| nodes := List.map (annotate fw bw) (nodes g);
             edges := edges';
             critical_path := critical_path g;
             cycle_detected := cycle_detected g;
             graph_cycles := graph_cycles g |})
    /\ forall id, In id (node_ids g) ->
                  exists es ef ls lf, schedule_of g fw bw id es ef ls lf.
Proof.
  intros Hend Hacy Hdepth. unfold calculateCriticalPath.
  destruct (forward_all_ok g Hend Hacy depth Hdepth (nodes g) empty_forward
              (fwd_inv_empty g) (fun x Hx => Hx))
    as (fw & Hfw & Hinv & _ & Hall).
  rewrite Hfw.
  assert (Hmark : forall bw, exists edges',
             mark_edges (nodeMap_of (List.map (annotate fw bw) (nodes g))) (edges g)
             = Ok edges').
  { intros bw. apply mark_edges_ok. intros e He. destruct (Hend e He) as [Hf Ht].
    unfold node_ids in Hf, Ht. rewrite <- (annotate_ids fw bw) in Hf, Ht.
    destruct (nodeMap_of_in _ _ Hf) as (nf & _ & _ & ->).
    destruct (nodeMap_of_in _ _ Ht) as (nt & _ & _ & ->). split; discriminate. }
  assert (Hcase : nodes g = [] \/ exists n0, In (node_id n0) (node_ids g)).
  { unfold node_ids. destruct (nodes g) as [|n0 ns0]; [left; reflexivity|].
    right; exists n0; left; reflexivity. }
  destruct Hcase as [Hnil|[n0 H0]].
  - destruct (Hmark empty_backward) as [edges' Hedges'].
    rewrite Hnil in Hedges' |- *. cbn [backward_all]. rewrite Hedges'.
    exists fw, empty_backward. eexists _, edges'. split; [reflexivity|].
    intros id Hid. unfold node_ids in Hid. rewrite Hnil in Hid. destruct Hid.
  - 
    destruct (earliestFinish fw !! node_id n0) as [f0|] eqn:Hf0;
      [|exfalso; exact (Hall _ H0 Hf0)].
    destruct (projectCompletion_of_fin fw _ _ Hf0) as (t & Ht & Hbound).
    rewrite Ht.
    destruct (backward_all_ok g Hend Hacy fw Hinv Hall t Hbound depth Hdepth (nodes g)
                empty_backward (bwd_inv_empty g fw) (fun x Hx => Hx))
      as (bw & Hbw & Hbinv & _ & Hball).
    rewrite Hbw. destruct (Hmark bw) as [edges' Hedges']. rewrite Hedges'.
    exists fw, bw. eexists _, edges'. split; [reflexivity|].
    intros id Hid.
    destruct (latestStart bw !! id) as [ls|] eqn:Hls; [|exfalso; exact (Hball _ Hid Hls)].
    destruct (Hbinv id ls Hls) as (node & ef & lf & Hnode & Hef & Hlf & -> & Hle).
    destruct (Hinv id ef Hef) as (node' & es & Hnode' & Hes & Hfs & Hstart).
    assert (node' = node) by congruence; subst node'.
    exists es, ef, (lf - node_duration_days node), lf.
    repeat split; try assumption. exists node. repeat split; assumption.
Qed.

(** The annotations of a node whose id has a schedule. *)
Lemma annotate_schedule g fw bw (n : GraphNode) es ef ls lf :
  schedule_of g fw bw (node_id n) es ef ls lf ->
  node_earliest_start (annotate fw bw n) = Some (Fin es)
  /\ node_earliest_finish (annotate fw bw n) = Some (Fin ef)
  /\ node_latest_start (annotate fw bw n) = Some (Fin ls)
  /\ node_latest_finish (annotate fw bw n) = Some (Fin lf)
  /\ node_slack_days (annotate fw bw n) = Some (Fin (ls - es)).
Proof.
  intros (Hes & Hef & Hls & Hlf & _).
  unfold annotate, slack_of, num_get, jnum_get; cbn.
  rewrite Hes, Hef, Hls, Hlf. repeat split.
Qed.

(** With distinct ids, the node map holds the node itself. *)
Lemma nodeMap_of_node (ns : list GraphNode) (n node : GraphNode) :
  List.NoDup (List.map node_id ns) -> In n ns ->
  nodeMap_of ns !! node_id n = Some node -> node = n.
Proof.
  intros Hnd Hin Hnode. apply nodeMap_of_some in Hnode as [Hin' Hid].
  exact (map_injective_on node_id ns node n Hnd Hin' Hin Hid).
Qed.


Lemma two_node_graph_well_formed : well_formed two_node_graph.
Proof.
  repeat split.
  - repeat constructor; cbn; intuition discriminate.
  - destruct H as [<-|[]]; cbn; auto.
  - destruct H as [<-|[]]; cbn; auto.
  - repeat constructor; cbn; intuition.
Qed.

(** A numbering of the nodes that increases along every edge rules out
    cycles. *)
Lemma acyclic_of_rank (E : list (string * string)) (rank : string -> nat) :
  (forall a b, In (a, b) E -> (rank a < rank b)%nat) -> acyclic E.
Proof.
  intros Hrank.
  assert (Hle : forall n a b, walk E n a b -> (rank a <= rank b)%nat).
  { induction 1 as [a|n a b c Hin Hw IH]; [lia|]. specialize (Hrank a b Hin). lia. }
  intros n a Hw. inversion Hw as [|n' a' b c Hin Hrest]; subst.
  specialize (Hrank a b Hin). specialize (Hle n b a Hrest). lia.
Qed.

Lemma two_node_graph_acyclic : acyclic (edge_pairs two_node_graph).
Proof.
  apply (acyclic_of_rank _ (fun s => if String.eqb s idA then 0%nat else 1%nat)).
  intros a b [Heq|[]]. injection Heq as <- <-. vm_compute. lia.
Qed.



(** C8 as stated fails: in A(2) -> B(1) with lag -5 the node B has a
    predecessor and the maximum over its predecessors is 2 + (-5) = -3, yet
    ES(B) = 0 (and EF(B) = 1): the fold of [Math.max] starts from 0 for every
    node. *)
Lemma C8_negative_start_is_clipped :
  exists analysis g',
    calculateCriticalPath 2 negative_lag_graph = Ok (analysis, g')
    /\ List.map (fun n => (node_id n, node_earliest_start n, node_earliest_finish n))
                (nodes g')
       = [(idA, Some (Fin 0), Some (Fin 2)); (idB, Some (Fin 0), Some (Fin 1))]
    /\ predecessors_of (edges negative_lag_graph) idB = [idA]
    /\ 2 + lagDays (edges negative_lag_graph) idA idB = -3.
Proof.
  eexists _, _. split; [vm_compute; reflexivity|]. repeat split.
Qed.

(** C8, amended: on a well-formed acyclic graph, with a call depth of at
    least the number of nodes, every node v gets
    ES(v) = max(0, max over incoming edges (u, v) of EF(u) + lag): ES(v) is
    at least 0 and at least EF(u) + lag for every incoming edge, and it is 0
    or one of these sums. A negative maximum is clipped to 0 at every node,
    and a node without incoming edge starts at 0. *)
Theorem C8_earliest_start_is_max_with_zero (g : DependencyGraph) (depth : nat) :
  well_formed g ->
  acyclic (edge_pairs g) ->
  (length (nodes g) <= depth)%nat ->
  exists analysis g',
    calculateCriticalPath depth g = Ok (analysis, g')
    /\ List.map node_id (nodes g') = node_ids g
    /\ forall v, In v (nodes g') ->
         exists es : Z,
           node_earliest_start v = Some (Fin es)
           /\ 0 <= es
           /\ (forall e u, In e (edges g) -> edge_to e = node_id v ->
                           In u (nodes g') -> node_id u = edge_from e ->
                           exists ef : Z, node_earliest_finish u = Some (Fin ef)
                                          /\ ef + edge_lag_days e <= es)
           /\ (es = 0
               \/ exists e u (ef : Z),
                    In e (edges g) /\ edge_to e = node_id v
                    /\ In u (nodes g') /\ node_id u = edge_from e
                    /\ node_earliest_finish u = Some (Fin ef)
                    /\ es = ef + edge_lag_days e)
           /\ ((forall e, In e (edges g) -> edge_to e <> node_id v) -> es = 0).
Proof.
  intros (Hnd & Hend & Hedges) Hacy Hdepth.
  destruct (calculateCriticalPath_runs g depth Hend Hacy Hdepth)
    as (fw & bw & analysis & edges' & Hrun & Hsched).
  eexists _, _. split; [exact Hrun|]. cbn [nodes]. split; [apply annotate_ids|].
  intros v' Hv'. apply in_map_iff in Hv' as (v & <- & Hv).
  destruct (Hsched (node_id v) (in_map node_id _ _ Hv)) as (es & ef & ls & lf & Hs).
  destruct (annotate_schedule g fw bw v _ _ _ _ Hs) as (Hes & _).
  destruct Hs as (_ & _ & _ & _ & Hstart & _).
  destruct (start_from_ge _ _ _ _ _ _ Hstart) as [Hzero Hall].
  assert (Hattained :
            es = 0
            \/ exists e u (efu : Z),
                 In e (edges g) /\ edge_to e = node_id v
                 /\ In u (List.map (annotate fw bw) (nodes g)) /\ node_id u = edge_from e
                 /\ node_earliest_finish u = Some (Fin efu)
                 /\ es = efu + edge_lag_days e).
  { destruct (start_from_attained _ _ _ _ _ _ Hstart) as [->|(p & pf & Hp & Hpf & ->)];
      [left; reflexivity|].
    right. apply in_predecessors_of in Hp as (e & He & <- & Hto).
    destruct (Hend e He) as [Hfrom _]. apply in_map_iff in Hfrom as (u & Hu & Hin).
    destruct (Hsched (node_id u) (in_map node_id _ _ Hin)) as (esu & efu & lsu & lfu & Hsu).
    destruct (annotate_schedule g fw bw u _ _ _ _ Hsu) as (_ & Hefu & _).
    destruct Hsu as (_ & Hu_ef & _).
    exists e, (annotate fw bw u), efu. repeat split.
    - exact He.
    - exact Hto.
    - apply in_map, Hin.
    - exact Hu.
    - exact Hefu.
    - rewrite Hu in Hu_ef. assert (pf = efu) by congruence; subst pf.
      rewrite <- Hto, (lagDays_of_edge (edges g) e Hedges He). reflexivity. }
  exists es. cbn [annotate node_id]. repeat split.
  - exact Hes.
  - exact Hzero.
  - intros e u' He Hto Hu' Hu. apply in_map_iff in Hu' as (u & <- & Hin).
    cbn [annotate node_id] in Hu.
    destruct (Hsched (node_id u) (in_map node_id _ _ Hin)) as (esu & efu & lsu & lfu & Hsu).
    destruct (annotate_schedule g fw bw u _ _ _ _ Hsu) as (_ & Hefu & _).
    destruct Hsu as (_ & Hu_ef & _).
    exists efu; split; [exact Hefu|].
    destruct (Hall (node_id u)) as (pf & Hpf & Hlag).
    { apply in_predecessors_of. exists e; auto. }
    assert (pf = efu) by congruence; subst pf.
    rewrite Hu, <- Hto, (lagDays_of_edge (edges g) e Hedges He) in Hlag. exact Hlag.
  - exact Hattained.
  - intros Hsource. destruct Hattained as [H0|(e & _ & _ & He & Hto & _)]; [exact H0|].
    exfalso. exact (Hsource e He Hto).
Qed.

Lemma C8_earliest_start_witness :
  exists analysis g',
    calculateCriticalPath 2 two_node_graph = Ok (analysis, g')
    /\ List.map node_id (nodes g') = node_ids two_node_graph
    /\ forall v, In v (nodes g') ->
         exists es : Z,
           node_earliest_start v = Some (Fin es)
           /\ 0 <= es
           /\ (forall e u, In e (edges two_node_graph) -> edge_to e = node_id v ->
                           In u (nodes g') -> node_id u = edge_from e ->
                           exists ef : Z, node_earliest_finish u = Some (Fin ef)
                                          /\ ef + edge_lag_days e <= es)
           /\ (es = 0
               \/ exists e u (ef : Z),
                    In e (edges two_node_graph) /\ edge_to e = node_id v
                    /\ In u (nodes g') /\ node_id u = edge_from e
                    /\ node_earliest_finish u = Some (Fin ef)
                    /\ es = ef + edge_lag_days e)
           /\ ((forall e, In e (edges two_node_graph) -> edge_to e <> node_id v) -> es = 0).
Proof.
  apply (C8_earliest_start_is_max_with_zero two_node_graph 2
           two_node_graph_well_formed two_node_graph_acyclic).
  cbn; lia.
Defined.

(* ===================================================================== *)
(** * Further properties of the edge lifecycle *)
(* ===================================================================== *)

Lemma array_includes_In (l : list string) (x : string) :
  array_includes l x = true <-> In x l.
Proof.
  unfold array_includes. rewrite existsb_exists. split.
  - intros (y & Hy & Heq). apply String.eqb_eq in Heq. subst y. exact Hy.
  - intros H. exists x; split; [exact H | apply String.eqb_refl].
Qed.

Lemma filter_nil_iff {A} (f : A -> bool) (l : list A) :
  List.filter f l = [] <-> forall x, In x l -> f x = false.
Proof.
  induction l as [|a l IH]; cbn [List.filter].
  - split; [intros _ x [] | reflexivity].
  - destruct (f a) eqn:Ha; split.
    + discriminate.
    + intros H. rewrite (H a (or_introl eq_refl)) in Ha. discriminate Ha.
    + intros H x [<-|Hx]; [exact Ha | apply IH; assumption].
    + intros H. apply IH. intros x Hx. apply H. right; exact Hx.
Qed.

(** The ids reported missing are exactly the requested ids without a work
    item of that id in the caller's tenant. *)
Lemma in_missing_ids user ids w id :
  In id (missing_ids user ids w)
  <-> In id ids /\ ~ work_item_exists (user_tenant_id user) id w.
Proof.
  unfold missing_ids, work_item_exists. rewrite filter_In, negb_true_iff. split.
  - intros [Hin Hnot]. split; [exact Hin|]. intros (wi & Hwi & Ht & Hid).
    assert (Hfound : array_includes
              (List.map wi_id
                 (List.filter (fun wi => String.eqb (wi_tenant_id wi) (user_tenant_id user)
                                         && array_includes ids (wi_id wi))
                              (work_items w))) id = true).
    { apply array_includes_In, in_map_iff. exists wi; split; [exact Hid|].
      apply filter_In; split; [exact Hwi|]. apply andb_true_iff; split.
      - apply String.eqb_eq, Ht.
      - apply array_includes_In. rewrite Hid. exact Hin. }
    congruence.
  - intros [Hin Hnot]. split; [exact Hin|].
    destruct (array_includes _ id) eqn:Hfound; [|reflexivity].
    exfalso. apply Hnot. apply array_includes_In, in_map_iff in Hfound as (wi & Hid & Hwi).
    apply filter_In in Hwi as [Hwi Hc]. apply andb_true_iff in Hc as [Ht _].
    apply String.eqb_eq in Ht. exists wi; auto.
Qed.

Lemma work_item_exists_dec tenant id w :
  {work_item_exists tenant id w} + {~ work_item_exists tenant id w}.
Proof.
  unfold work_item_exists.
  destruct (List.find (fun wi => String.eqb (wi_tenant_id wi) tenant
                                 && String.eqb (wi_id wi) id) (work_items w))
    as [wi|] eqn:Hfind.
  - left. apply find_some in Hfind as [Hin Hc]. apply andb_true_iff in Hc as [Ht Hi].
    apply String.eqb_eq in Ht, Hi. exists wi; auto.
  - right. intros (wi & Hin & Ht & Hi). apply (find_none _ _ Hfind) in Hin.
    rewrite Ht, Hi, !String.eqb_refl in Hin. discriminate Hin.
Qed.

Lemma missing_ids_nil user ids w :
  missing_ids user ids w = []
  <-> forall id, In id ids -> work_item_exists (user_tenant_id user) id w.
Proof.
  split.
  - intros Hnil id Hin.
    destruct (work_item_exists_dec (user_tenant_id user) id w) as [He|Hne]; [exact He|].
    assert (Hm : In id (missing_ids user ids w)) by (apply in_missing_ids; auto).
    rewrite Hnil in Hm. destruct Hm.
  - intros Hall. destruct (missing_ids user ids w) as [|m ms] eqn:Hm; [reflexivity|].
    assert (Hin : In m (missing_ids user ids w)) by (rewrite Hm; left; reflexivity).
    apply in_missing_ids in Hin as [Hin Hnot]. exfalso. exact (Hnot (Hall m Hin)).
Qed.


Lemma would_cycle_query_false rows tenant start target :
  would_cycle_query rows tenant start target = false
  <-> forall n, (S n <= 20)%nat -> ~ walk (tenant_edges tenant rows) (S n) start target.
Proof.
  pose proof (would_cycle_query_spec rows tenant start target) as Hspec.
  destruct (would_cycle_query rows tenant start target); split.
  - discriminate.
  - intros H. exfalso. destruct (proj1 Hspec eq_refl) as (n & Hn & Hw). exact (H n Hn Hw).
  - intros _ n Hn Hw.
    assert (Habs : false = true) by (apply Hspec; exists n; auto). discriminate Habs.
  - reflexivity.
Qed.

(** X2. [wouldCreateCycle] reads only: it answers [has_cycles] exactly when
    a walk of 1 to 20 stored edges of the tenant leads from [toId] to
    [fromId], and then its one chain is [[toId, fromId]]. *)
Theorem wouldCreateCycle_exact (tenantId fromId toId : string) (w : World) :
  exists r,
    wouldCreateCycle tenantId fromId toId w = (Ok r, w)
    /\ (has_cycles r = true
        <-> exists n, (S n <= 20)%nat
                      /\ walk (tenant_edges tenantId (dependency_edges w)) (S n) toId fromId)
    /\ cycles r = (if has_cycles r then [[toId; fromId]] else [])
    /\ affected_work_items r = (if has_cycles r then [fromId; toId] else []).
Proof.
  unfold wouldCreateCycle, read, bind, ret. eexists. split; [reflexivity|].
  cbn [has_cycles cycles affected_work_items].
  split; [apply would_cycle_query_spec|]. split; reflexivity.
Qed.

Lemma duplicate_check_false user data w :
  (0 <? length
     (List.filter (fun de => String.eqb (dep_tenant_id de) (user_tenant_id user)
                             && String.eqb (dep_from_id de) (req_from_id data)
                             && String.eqb (dep_to_id de) (req_to_id data))
                  (dependency_edges w)))%nat = false
  <-> ~ edge_stored (user_tenant_id user) (req_from_id data) (req_to_id data) w.
Proof.
  unfold edge_stored. split.
  - intros Hlen (de & Hin & Ht & Hf & Hto).
    assert (Hde : In de (List.filter
                (fun de => String.eqb (dep_tenant_id de) (user_tenant_id user)
                           && String.eqb (dep_from_id de) (req_from_id data)
                           && String.eqb (dep_to_id de) (req_to_id data))
                (dependency_edges w))).
    { apply filter_In; split; [exact Hin|]. rewrite Ht, Hf, Hto, !String.eqb_refl.
      reflexivity. }
    destruct (List.filter _ (dependency_edges w)); [destruct Hde | discriminate Hlen].
  - intros Hnot. destruct (List.filter _ (dependency_edges w)) as [|de l] eqn:Hfilter;
      [reflexivity|]. exfalso. apply Hnot.
    assert (Hde : In de (de :: l)) by (left; reflexivity). rewrite <- Hfilter in Hde.
    apply filter_In in Hde as [Hin Hc]. apply andb_true_iff in Hc as [Hc Hto].
    apply andb_true_iff in Hc as [Ht Hf]. apply String.eqb_eq in Ht, Hf, Hto.
    exists de; auto.
Qed.


(** ** Update and delete *)

Lemma fold_assign_patched now data d :
  fold_left assign (build_updates data ++ [SetUpdatedAt now])%list d = patched now data d.
Proof.
  unfold build_updates, patched.
  destruct (upd_dependency_type data), (upd_lag_days data), (upd_metadata data);
    reflexivity.
Qed.

Lemma build_updates_nil data :
  build_updates data = [] <-> ~ patch_present data.
Proof.
  unfold build_updates, patch_present.
  destruct (upd_dependency_type data), (upd_lag_days data), (upd_metadata data);
    cbn;
    (split;
     [ intros Heq; try discriminate Heq; intros [H|[H|H]]; apply H; reflexivity
     | intros H; try reflexivity; exfalso; apply H;
       first [left; discriminate | right; left; discriminate | right; right; discriminate] ]).
Qed.

(** The three outcomes of [updateDependency]. *)
Lemma updateDependency_run now user dependencyId data w :
  updateDependency now user dependencyId data w
  = match visible_row user dependencyId w with
    | None => (Throw (Error "DEPENDENCY_NOT_FOUND"), w)
    | Some existing =>
        match build_updates data with
        | [] => (Ok (Some existing), w)
        | _ :: _ =>
            (Ok (Some (patched now data existing)),
             {| work_items := work_items w;
                dependency_edges :=
                  List.map (fun de => if String.eqb (dep_id de) dependencyId
                                         && String.eqb (dep_tenant_id de) (user_tenant_id user)
                                      then patched now data de else de)
                           (dependency_edges w);
                published :=
                  (published w
                   ++ [ {| exchange := "system"; routingKey := "critical_path.recalculate";
                           payload := RecalculateMsg (user_tenant_id user) now |};
                        {| exchange := "dependencies"; routingKey := "dependency.updated";
                           payload := UpdatedMsg dependencyId (user_tenant_id user)
                                        (user_id user) existing
                                        (Some (patched now data existing)) data now |} ])%list |})
        end
    end.
Proof.
  unfold updateDependency, transaction, getDependencyById, read, bind, visible_row.
  destruct (List.filter _ (dependency_edges w)) as [|existing rest] eqn:Hrows;
    cbn [hd_error]; [cbn; rewrite world_eta; reflexivity|].
  destruct (build_updates data) as [|a l] eqn:Hupd; [reflexivity|].
  cbn [length Nat.eqb]. rewrite <- Hupd.
  unfold write_edges, schedulePathRecalculation, publish, ret.
  cbn [work_items dependency_edges published].
  unfold update_returning, update_rows. rewrite Hrows. cbn [List.map hd_error].
  rewrite !fold_assign_patched, <- app_assoc. cbn [app].
  f_equal. f_equal. apply map_ext. intros de.
  rewrite fold_assign_patched. reflexivity.
Qed.

Lemma deleteDependency_run' now user dependencyId w :
  deleteDependency now user dependencyId w
  = match visible_row user dependencyId w with
    | None => (Throw (Error "DEPENDENCY_NOT_FOUND"), w)
    | Some existing =>
        (Ok tt,
         {| work_items := work_items w;
            dependency_edges :=
              List.filter (fun de => negb (String.eqb (dep_id de) dependencyId
                                           && String.eqb (dep_tenant_id de)
                                                         (user_tenant_id user)))
                          (dependency_edges w);
            published :=
              (published w
               ++ [ {| exchange := "system"; routingKey := "critical_path.recalculate";
                       payload := RecalculateMsg (user_tenant_id user) now |};
                    {| exchange := "dependencies"; routingKey := "dependency.deleted";
                       payload := DeletedMsg dependencyId (user_tenant_id user)
                                             (user_id user) existing now |} ])%list |})
    end.
Proof.
  rewrite deleteDependency_run. unfold visible_row.
  destruct (hd_error _); [|reflexivity]. rewrite <- app_assoc. reflexivity.
Qed.

Lemma createDependency_run' uuid now user data w :
  createDependency uuid now user data w
  = (Ok (new_dependency uuid now user data), world_after_create uuid now user data w)
  \/ exists e, createDependency uuid now user data w = (Throw e, w).
Proof.
  rewrite createDependency_run. unfold world_after_create.
  rewrite <- app_assoc. cbn [app].
  destruct (missing_ids _ _ _); [|right; eexists; reflexivity].
  destruct (would_cycle_query _ _ _ _); [right; eexists; reflexivity|].
  destruct (0 <? length _)%nat; [right; eexists; reflexivity|].
  left; reflexivity.
Qed.

(** X4. A mutation that throws changes nothing: the tables and the
    published messages are as before the call. *)
Theorem failed_mutation_changes_nothing (m : Mutation) (w w' : World) (e : exn) :
  mutate m w = (Throw e, w') -> w' = w.
Proof.
  destruct m as [uuid now user data|now user dependencyId data|now user dependencyId];
    cbn [mutate].
  - destruct (createDependency_run' uuid now user data w) as [->|[e' ->]].
    + discriminate.
    + intros H. injection H as _ <-. reflexivity.
  - rewrite updateDependency_run. destruct (visible_row user dependencyId w).
    + destruct (build_updates data); discriminate.
    + intros H. injection H as _ <-. reflexivity.
  - rewrite deleteDependency_run'. destruct (visible_row user dependencyId w).
    + discriminate.
    + intros H. injection H as _ <-. reflexivity.
Qed.

Lemma failed_mutation_witness :
  snd (mutate (MDelete 7 alice fresh_uuid) world_ab) = world_ab.
Proof.
  apply (failed_mutation_changes_nothing (MDelete 7 alice fresh_uuid) world_ab _
           (Error "DEPENDENCY_NOT_FOUND")).
  reflexivity.
Defined.

(** X5. A mutation either leaves the edge table and the published messages
    untouched (it threw, or it was an update without any field), or it
    succeeded and published exactly two messages: the recalculation request
    of the caller's tenant on [system], then its own event on
    [dependencies]. *)
Theorem mutation_publishes_two_or_nothing (m : Mutation) (w : World) :
  (dependency_edges (snd (mutate m w)) = dependency_edges w
   /\ published (snd (mutate m w)) = published w)
  \/ (fst (mutate m w) = Ok tt
      /\ exists event,
           published (snd (mutate m w))
           = (published w ++ [recalculate_message m; event])%list
           /\ exchange event = "dependencies"
           /\ routingKey event = mutation_key m).
Proof.
  destruct m as [uuid now user data|now user dependencyId data|now user dependencyId];
    cbn [mutate].
  - destruct (createDependency_run' uuid now user data w) as [->|[e' ->]].
    + right. split; [reflexivity|]. eexists. split; [reflexivity|]. split; reflexivity.
    + left. split; reflexivity.
  - rewrite updateDependency_run. destruct (visible_row user dependencyId w).
    + destruct (build_updates data).
      * left. split; reflexivity.
      * right. split; [reflexivity|]. eexists. split; [reflexivity|]. split; reflexivity.
    + left. split; reflexivity.
  - rewrite deleteDependency_run'. destruct (visible_row user dependencyId w).
    + right. split; [reflexivity|]. eexists. split; [reflexivity|]. split; reflexivity.
    + left. split; reflexivity.
Qed.

(** ** Tenant isolation *)

Lemma visible_row_some user dependencyId w d :
  visible_row user dependencyId w = Some d ->
  In d (dependency_edges w) /\ dep_id d = dependencyId
  /\ dep_tenant_id d = user_tenant_id user.
Proof.
  unfold visible_row. intros H.
  destruct (List.filter _ (dependency_edges w)) as [|x l] eqn:Hf; [discriminate H|].
  injection H as ->.
  assert (Hin : In d (d :: l)) by (left; reflexivity). rewrite <- Hf in Hin.
  apply filter_In in Hin as [Hin Hc]. apply andb_true_iff in Hc as [Hi Ht].
  apply String.eqb_eq in Hi, Ht. auto.
Qed.

Lemma visible_row_none user dependencyId w :
  visible_row user dependencyId w = None
  <-> forall d, In d (dependency_edges w) -> dep_id d = dependencyId ->
                dep_tenant_id d <> user_tenant_id user.
Proof.
  unfold visible_row. split.
  - intros H d Hin Hid Ht.
    assert (Hd : In d (List.filter
               (fun de => String.eqb (dep_id de) dependencyId
                          && String.eqb (dep_tenant_id de) (user_tenant_id user))
               (dependency_edges w))).
    { apply filter_In; split; [exact Hin|]. rewrite Hid, Ht, !String.eqb_refl. reflexivity. }
    destruct (List.filter _ (dependency_edges w)); [destruct Hd | discriminate H].
  - intros H. destruct (List.filter _ (dependency_edges w)) as [|x l] eqn:Hf; [reflexivity|].
    exfalso. assert (Hin : In x (x :: l)) by (left; reflexivity). rewrite <- Hf in Hin.
    apply filter_In in Hin as [Hin Hc]. apply andb_true_iff in Hc as [Hi Ht].
    apply String.eqb_eq in Hi, Ht. exact (H x Hin Hi Ht).
Qed.


Lemma filter_tenant_map_own (tenant own : string) (f : Dependency -> Dependency)
    (p : Dependency -> bool) (rows : list Dependency) :
  tenant <> own ->
  (forall de, p de = true -> dep_tenant_id de = own) ->
  (forall de, dep_tenant_id (f de) = dep_tenant_id de) ->
  List.filter (fun de => String.eqb (dep_tenant_id de) tenant)
              (List.map (fun de => if p de then f de else de) rows)
  = List.filter (fun de => String.eqb (dep_tenant_id de) tenant) rows.
Proof.
  intros Hne Hp Hf. induction rows as [|de rows IH]; [reflexivity|].
  cbn [List.map List.filter]. rewrite IH. destruct (p de) eqn:Hpde; [|reflexivity].
  rewrite Hf. rewrite (Hp de Hpde).
  destruct (String.eqb_spec own tenant) as [Heq|_]; [congruence | reflexivity].
Qed.

Lemma filter_tenant_filter_own (tenant own : string) (p : Dependency -> bool)
    (rows : list Dependency) :
  tenant <> own ->
  (forall de, p de = true -> dep_tenant_id de = own) ->
  List.filter (fun de => String.eqb (dep_tenant_id de) tenant)
              (List.filter (fun de => negb (p de)) rows)
  = List.filter (fun de => String.eqb (dep_tenant_id de) tenant) rows.
Proof.
  intros Hne Hp. induction rows as [|de rows IH]; [reflexivity|].
  cbn [List.filter]. destruct (p de) eqn:Hpde; cbn [negb List.filter]; rewrite IH.
  - rewrite (Hp de Hpde).
    destruct (String.eqb_spec own tenant) as [Heq|_]; [congruence | reflexivity].
  - reflexivity.
Qed.

Lemma own_row_tenant dependencyId own de :
  String.eqb (dep_id de) dependencyId && String.eqb (dep_tenant_id de) own = true ->
  dep_tenant_id de = own.
Proof. intros H. apply andb_true_iff in H as [_ H]. apply String.eqb_eq, H. Qed.

(** X7. A mutation, whether it succeeds or throws, leaves the rows of every
    other tenant exactly as they were, and never touches the work items. *)
Theorem mutation_leaves_other_tenants (m : Mutation) (w : World) (tenant : string) :
  tenant <> user_tenant_id (mutation_user m) ->
  tenant_rows tenant (snd (mutate m w)) = tenant_rows tenant w
  /\ work_items (snd (mutate m w)) = work_items w.
Proof.
  intros Hne. unfold tenant_rows.
  destruct m as [uuid now user data|now user dependencyId data|now user dependencyId];
    cbn [mutate mutation_user] in *.
  - destruct (createDependency_run' uuid now user data w) as [->|[e' ->]];
      cbn [snd]; [|split; reflexivity].
    unfold world_after_create; cbn [dependency_edges work_items].
    split; [|reflexivity]. rewrite List.filter_app. cbn [List.filter new_dependency dep_tenant_id].
    destruct (String.eqb_spec (user_tenant_id user) tenant) as [Heq|_]; [congruence|].
    apply app_nil_r.
  - rewrite updateDependency_run. destruct (visible_row user dependencyId w);
      [|split; reflexivity].
    destruct (build_updates data); cbn [snd dependency_edges work_items];
      [split; reflexivity|]. split; [|reflexivity].
    apply (filter_tenant_map_own tenant (user_tenant_id user) (patched now data));
      [exact Hne | apply own_row_tenant | reflexivity].
  - rewrite deleteDependency_run'. destruct (visible_row user dependencyId w);
      cbn [snd dependency_edges work_items]; [|split; reflexivity].
    split; [|reflexivity].
    apply (filter_tenant_filter_own tenant (user_tenant_id user)
             (fun de => String.eqb (dep_id de) dependencyId
                        && String.eqb (dep_tenant_id de) (user_tenant_id user)));
      [exact Hne | apply own_row_tenant].
Qed.

Lemma mutation_leaves_other_tenants_witness :
  tenant_rows tenant1
    (snd (mutate (MDelete 3 {| user_id := idD; user_tenant_id := idC |} edgeAB) world_ab))
  = tenant_rows tenant1 world_ab
  /\ work_items
       (snd (mutate (MDelete 3 {| user_id := idD; user_tenant_id := idC |} edgeAB) world_ab))
     = work_items world_ab.
Proof.
  apply (mutation_leaves_other_tenants
           (MDelete 3 {| user_id := idD; user_tenant_id := idC |} edgeAB) world_ab tenant1).
  vm_compute. discriminate.
Defined.

(** ** Uniqueness of the stored pairs *)

Lemma NoDup_map_filter {A B} (f : A -> B) (p : A -> bool) (l : list A) :
  List.NoDup (List.map f l) -> List.NoDup (List.map f (List.filter p l)).
Proof.
  induction l as [|a l IH]; intros H; [exact H|].
  cbn [List.map] in H. apply List.NoDup_cons_iff in H as [Ha Hl].
  cbn [List.filter]. destruct (p a); [|exact (IH Hl)].
  cbn [List.map]. constructor; [|exact (IH Hl)].
  intros Hin. apply Ha. apply in_map_iff in Hin as (x & Hx & Hin).
  apply filter_In in Hin as [Hin _]. apply in_map_iff. exists x; auto.
Qed.

Lemma NoDup_snoc {A} (l : list A) (x : A) :
  List.NoDup l -> ~ In x l -> List.NoDup (l ++ [x]).
Proof.
  induction l as [|a l IH]; intros Hl Hx; cbn [app].
  - constructor; [intros [] | constructor].
  - apply List.NoDup_cons_iff in Hl as [Ha Hl]. constructor.
    + intros Hin. apply in_app_or in Hin as [Hin|[<-|[]]]; [exact (Ha Hin)|].
      apply Hx. left; reflexivity.
    + apply IH; [exact Hl|]. intros Hin. apply Hx. right; exact Hin.
Qed.

Lemma mutate_keeps_unique (m : Mutation) (w w' : World) :
  mutate m w = (Ok tt, w') ->
  unique_edges (dependency_edges w) -> unique_edges (dependency_edges w').
Proof.
  unfold unique_edges.
  destruct m as [uuid now user data|now user dependencyId data|now user dependencyId];
    cbn [mutate].
  - rewrite createDependency_run.
    destruct (missing_ids _ _ _); [|discriminate].
    destruct (would_cycle_query _ _ _ _); [discriminate|].
    destruct (0 <? length _)%nat eqn:Hdup; [discriminate|].
    intros H Hu. injection H as <-. cbn [dependency_edges].
    rewrite List.map_app. cbn [List.map new_dependency dep_tenant_id dep_from_id dep_to_id].
    apply NoDup_snoc; [exact Hu|]. intros Hin.
    apply in_map_iff in Hin as (de & Hkey & Hin). injection Hkey as Ht Hf Hto.
    apply (proj1 (duplicate_check_false user data w) Hdup). exists de; auto.
  - rewrite updateDependency_run. destruct (visible_row user dependencyId w); [|discriminate].
    destruct (build_updates data); intros H Hu; injection H as <-; [exact Hu|].
    cbn [dependency_edges]. rewrite List.map_map.
    erewrite map_ext; [exact Hu|]. intros de. cbv beta.
    destruct (_ && _); reflexivity.
  - rewrite deleteDependency_run'. destruct (visible_row user dependencyId w); [|discriminate].
    intros H Hu. injection H as <-. cbn [dependency_edges].
    apply NoDup_map_filter, Hu.
Qed.

(** X8. Along every sequence of create, update and delete calls that all
    succeed, no two stored rows ever share [(tenant_id, from_id, to_id)],
    when none did at the start. *)
Theorem unique_edges_invariant (ms : list Mutation) (w0 w : World) :
  unique_edges (dependency_edges w0) ->
  mutations_ok ms w0 = Some w ->
  unique_edges (dependency_edges w).
Proof.
  revert w0; induction ms as [|m ms IH]; intros w0 Hu Hok; cbn [mutations_ok] in Hok.
  - injection Hok as <-. exact Hu.
  - destruct (mutate m w0) as [[[]|e] w1] eqn:Hm; [|discriminate Hok].
    apply (IH w1); [|exact Hok]. apply (mutate_keeps_unique m w0 w1 Hm Hu).
Qed.

Lemma unique_edges_invariant_witness :
  exists w, mutations_ok mutations_abc world_abc_items = Some w
            /\ unique_edges (dependency_edges w).
Proof.
  eexists; split.
  - vm_compute; reflexivity.
  - apply (unique_edges_invariant mutations_abc world_abc_items).
    + constructor.
    + vm_compute; reflexivity.
Defined.

(** ** What an update changes, and reading back *)

(** X9. [updateDependency], whatever the patch and whether it succeeds or
    throws, keeps the rows of the table in place with their id, tenant,
    endpoints and creation audit: it adds no row, removes none, and every
    tenant keeps the same edges. *)
Theorem updateDependency_keeps_identity (now : Z) (user : User) (dependencyId : string)
    (data : UpdateDependencyRequest) (w : World) :
  List.map row_identity (dependency_edges (snd (updateDependency now user dependencyId data w)))
  = List.map row_identity (dependency_edges w)
  /\ forall tenant,
       tenant_edges tenant (dependency_edges (snd (updateDependency now user dependencyId data w)))
       = tenant_edges tenant (dependency_edges w).
Proof.
  rewrite updateDependency_run. destruct (visible_row user dependencyId w);
    [|split; reflexivity].
  destruct (build_updates data); cbn [snd dependency_edges]; [split; reflexivity|].
  split.
  - rewrite List.map_map. apply map_ext. intros de. destruct (_ && _); reflexivity.
  - intros tenant. unfold tenant_edges.
    induction (dependency_edges w) as [|de rows IH]; [reflexivity|].
    cbn [List.map List.filter].
    assert (Hsame : forall x : Dependency,
               (if String.eqb (dep_id de) dependencyId
                   && String.eqb (dep_tenant_id de) (user_tenant_id user)
                then patched now data de else de) = x ->
               dep_tenant_id x = dep_tenant_id de /\ dep_from_id x = dep_from_id de
               /\ dep_to_id x = dep_to_id de).
    { intros x <-. destruct (_ && _); repeat split. }
    destruct (Hsame _ eq_refl) as (Ht & Hf & Hto). rewrite Ht.
    destruct (String.eqb (dep_tenant_id de) tenant); [|exact IH].
    cbn [List.map]. rewrite Hf, Hto, IH. reflexivity.
Qed.

Lemma filter_own_map_patched (dependencyId own : string) (f : Dependency -> Dependency)
    (rows : list Dependency) :
  (forall de, dep_id (f de) = dep_id de /\ dep_tenant_id (f de) = dep_tenant_id de) ->
  List.filter (fun de => String.eqb (dep_id de) dependencyId
                         && String.eqb (dep_tenant_id de) own)
              (List.map (fun de => if String.eqb (dep_id de) dependencyId
                                      && String.eqb (dep_tenant_id de) own
                                   then f de else de) rows)
  = List.map f (List.filter (fun de => String.eqb (dep_id de) dependencyId
                                       && String.eqb (dep_tenant_id de) own) rows).
Proof.
  intros Hf. induction rows as [|de rows IH]; [reflexivity|].
  cbn [List.map List.filter].
  destruct (String.eqb (dep_id de) dependencyId
            && String.eqb (dep_tenant_id de) own) eqn:Hp.
  - destruct (Hf de) as [Hi Ht]. rewrite Hi, Ht, Hp. cbn [List.map]. rewrite IH. reflexivity.
  - rewrite Hp. exact IH.
Qed.



(** X11. After a create that succeeds with an id no row of the caller's
    tenant carried, [getDependencyById] reads the created row. *)
Theorem create_then_get (uuid : string) (now : Z) (user : User)
    (data : CreateDependencyRequest) (w w' : World) (d : Dependency) :
  fst (getDependencyById user uuid w) = Ok None ->
  createDependency uuid now user data w = (Ok d, w') ->
  getDependencyById user uuid w' = (Ok (Some d), w').
Proof.
  intros Hfresh Hcreate. cbn in Hfresh. injection Hfresh as Hfresh.
  destruct (createDependency_run' uuid now user data w) as [Hrun|[e Hrun]];
    rewrite Hrun in Hcreate; [|discriminate Hcreate].
  injection Hcreate as <- <-.
  unfold getDependencyById, read, world_after_create. cbn [dependency_edges].
  f_equal. f_equal. rewrite List.filter_app.
  destruct (List.filter _ (dependency_edges w)) as [|x l]; [|discriminate Hfresh].
  cbn [app List.filter new_dependency dep_id dep_tenant_id].
  rewrite !String.eqb_refl. reflexivity.
Qed.

Lemma create_then_get_witness :
  getDependencyById alice fresh_uuid
    (world_after_create fresh_uuid 4 alice (request idA idC) world_abc)
  = (Ok (Some (new_dependency fresh_uuid 4 alice (request idA idC))),
     world_after_create fresh_uuid 4 alice (request idA idC) world_abc).
Proof.
  apply (create_then_get fresh_uuid 4 alice (request idA idC) world_abc); vm_compute; reflexivity.
Defined.

Lemma filter_filter_negb {A} (p : A -> bool) (l : list A) :
  List.filter p (List.filter (fun x => negb (p x)) l) = [].
Proof.
  induction l as [|a l IH]; [reflexivity|]. cbn [List.filter].
  destruct (p a) eqn:Hp; cbn [negb List.filter]; [exact IH|]. rewrite Hp. exact IH.
Qed.

(** X12. After a delete that succeeds, the caller's tenant has no row of that
    id: [getDependencyById] reads [null] and a second delete throws
    [DEPENDENCY_NOT_FOUND]; every row the delete did not address is kept. *)
Theorem delete_then_get (now now' : Z) (user : User) (dependencyId : string) (w w' : World) :
  deleteDependency now user dependencyId w = (Ok tt, w') ->
  getDependencyById user dependencyId w' = (Ok None, w')
  /\ deleteDependency now' user dependencyId w' = (Throw (Error "DEPENDENCY_NOT_FOUND"), w')
  /\ forall de, In de (dependency_edges w')
                <-> In de (dependency_edges w)
                    /\ ~ (dep_id de = dependencyId /\ dep_tenant_id de = user_tenant_id user).
Proof.
  rewrite deleteDependency_run'. destruct (visible_row user dependencyId w) as [existing|];
    [|discriminate].
  intros H. injection H as <-.
  assert (Hgone : visible_row user dependencyId
                    {| work_items := work_items w;
                       dependency_edges :=
                         List.filter (fun de => negb (String.eqb (dep_id de) dependencyId
                                                      && String.eqb (dep_tenant_id de)
                                                                    (user_tenant_id user)))
                                     (dependency_edges w);
                       published :=
                         (published w
                          ++ [ {| exchange := "system"; routingKey := "critical_path.recalculate";
                                  payload := RecalculateMsg (user_tenant_id user) now |};
                               {| exchange := "dependencies"; routingKey := "dependency.deleted";
                                  payload := DeletedMsg dependencyId (user_tenant_id user)
                                                        (user_id user) existing now |} ])%list |}
                  = None).
  { unfold visible_row. cbn [dependency_edges].
    rewrite (filter_filter_negb
               (fun de => String.eqb (dep_id de) dependencyId
                          && String.eqb (dep_tenant_id de) (user_tenant_id user))).
    reflexivity. }
  split; [|split].
  - unfold getDependencyById, read. f_equal. f_equal. exact Hgone.
  - rewrite deleteDependency_run', Hgone. reflexivity.
  - intros de. cbn [dependency_edges]. rewrite filter_In, negb_true_iff. split.
    + intros [Hin Hp]. split; [exact Hin|]. intros [Hi Ht].
      rewrite Hi, Ht, !String.eqb_refl in Hp. discriminate Hp.
    + intros [Hin Hnot]. split; [exact Hin|].
      destruct (String.eqb_spec (dep_id de) dependencyId) as [Hi|]; [|reflexivity].
      destruct (String.eqb_spec (dep_tenant_id de) (user_tenant_id user)) as [Ht|];
        [|reflexivity].
      exfalso. apply Hnot. auto.
Qed.

Lemma delete_then_get_witness :
  getDependencyById alice edgeAB (snd (deleteDependency 5 alice edgeAB world_abc))
  = (Ok None, snd (deleteDependency 5 alice edgeAB world_abc)).
Proof.
  apply (delete_then_get 5 6 alice edgeAB world_abc
           (snd (deleteDependency 5 alice edgeAB world_abc))).
  vm_compute. reflexivity.
Defined.
(* ===================================================================== *)
(** * The answers of the controller *)
(* ===================================================================== *)

Lemma handleError_not_found_message (fallback : string) :
  handleError (Error "DEPENDENCY_NOT_FOUND") fallback
  = {| statusCode := 404; success := false; error := Some "NOT_FOUND";
       response_message := Some "DEPENDENCY_NOT_FOUND"; data := None |}.
Proof. reflexivity. Qed.

Lemma falsy_some (s : string) : s <> "" -> falsy (Some s) = false.
Proof. intros H. cbn [falsy]. apply String.eqb_neq. exact H. Qed.



Lemma handleError_work_items (missing fallback : string) :
  let r := handleError (Error ("WORK_ITEMS_NOT_FOUND: " ++ missing)) fallback in
  (statusCode r = 409 /\ error r = Some "CYCLE_DETECTED"
   \/ statusCode r = 404 /\ error r = Some "NOT_FOUND")
  /\ success r = false /\ data r = None.
Proof.
  cbn zeta. unfold handleError. cbn [message].
  destruct (includes _ "CYCLE_DETECTED"); [split; [left|]; split; reflexivity|].
  change ("WORK_ITEMS_NOT_FOUND: " ++ missing)%string
    with ("WORK_ITEMS_" ++ ("NOT_FOUND: " ++ missing))%string.
  rewrite (includes_skip "WORK_ITEMS_" ("NOT_FOUND: " ++ missing) "NOT_FOUND") by reflexivity.
  split; [right|]; split; reflexivity.
Qed.

Lemma handleError_cycle (rest fallback : string) :
  let r := handleError (Error ("CYCLE_DETECTED: " ++ rest)) fallback in
  statusCode r = 409 /\ error r = Some "CYCLE_DETECTED" /\ success r = false /\ data r = None.
Proof.
  cbn zeta. unfold handleError. cbn [message].
  rewrite (includes_prefix ("CYCLE_DETECTED: " ++ rest) "CYCLE_DETECTED") by reflexivity.
  repeat split.
Qed.

(* ===================================================================== *)
(** * Critical path method: when the computation returns *)
(* ===================================================================== *)

Lemma after_cycle_pred (E : list (string * string)) (x : string) :
  after_cycle E x -> exists p, In (p, x) E /\ after_cycle E p.
Proof.
  intros (c & Hc & Hx).
  assert (Hw : exists n, walk E (S n) c x).
  { destruct Hx as [<-|Hx]; [exact Hc | exact Hx]. }
  destruct Hw as [n Hw]. apply walk_snoc_inv in Hw as (p & Hp & Hlast).
  exists p. split; [exact Hlast|]. exists c. split; [exact Hc|].
  destruct n as [|n]; [inversion Hp; subst; left; reflexivity|].
  right. exists n. exact Hp.
Qed.

Lemma in_edge_pairs (g : DependencyGraph) (a b : string) :
  In (a, b) (edge_pairs g) <-> exists e, In e (edges g) /\ edge_from e = a /\ edge_to e = b.
Proof.
  unfold edge_pairs. rewrite in_map_iff. split.
  - intros (e & Heq & Hin). injection Heq as <- <-. exists e; auto.
  - intros (e & Hin & <- & <-). exists e; auto.
Qed.

Section Converse.
Variable g : DependencyGraph.

Local Abbreviation nodeMap := (nodeMap_of (nodes g)).
Local Abbreviation radj := (reverseAdjacencyList_of g).
Local Abbreviation adj := (adjacencyList_of g).

Lemma nodeMap_is_node (id : string) (node : GraphNode) :
  nodeMap !! id = Some node -> In id (node_ids g).
Proof.
  intros H. apply nodeMap_of_some in H as [Hin <-]. apply in_map, Hin.
Qed.

Lemma forward_loop_clean rec id preds :
  (forall p s f s', rec p s = Ok (f, s') -> forward_clean g s ->
                    forward_clean g s' /\ ~ after_cycle (edge_pairs g) p) ->
  forall acc st r st',
    forward_loop (edges g) rec id preds acc st = Ok (r, st') ->
    forward_clean g st ->
    forward_clean g st' /\ forall p, In p preds -> ~ after_cycle (edge_pairs g) p.
Proof.
  intros Hrec. induction preds as [|p preds IH]; intros acc st r st' Hrun Hclean.
  - cbn [forward_loop] in Hrun. injection Hrun as _ <-. split; [exact Hclean|].
    intros p [].
  - cbn [forward_loop] in Hrun.
    destruct (rec p st) as [[pf st1]|e] eqn:Hp; [|discriminate Hrun].
    destruct (Hrec p st pf st1 Hp Hclean) as [Hclean1 Hnot].
    destruct (IH _ _ _ _ Hrun Hclean1) as [Hclean' Hrest].
    split; [exact Hclean'|]. intros q [<-|Hq]; [exact Hnot | exact (Hrest q Hq)].
Qed.

Lemma forwardPass_clean depth :
  forall id st f st',
    forwardPass nodeMap radj (edges g) depth id st = Ok (f, st') ->
    forward_clean g st ->
    forward_clean g st' /\ ~ after_cycle (edge_pairs g) id.
Proof.
  induction depth as [|depth IH]; intros id st f st' Hrun Hclean; [discriminate Hrun|].
  cbn [forwardPass] in Hrun.
  destruct (earliestFinish st !! id) as [finish|] eqn:Hmemo.
  { injection Hrun as _ <-. split; [exact Hclean|]. apply Hclean. rewrite Hmemo. discriminate. }
  destruct (forward_loop _ _ _ _ _ _) as [[m st1]|e] eqn:Hloop; [|discriminate Hrun].
  destruct (nodeMap !! id) as [node|] eqn:Hnode; [|discriminate Hrun].
  injection Hrun as _ <-.
  pose proof (nodeMap_is_node id node Hnode) as Hid.
  rewrite reverseAdjacencyList_of_lookup in Hloop.
  destruct (in_dec string_dec id (node_ids g)) as [_|Hno]; [|contradiction].
  cbn [default from_option Datatypes.id] in Hloop.
  destruct (forward_loop_clean _ id _ (IH) _ _ _ _ Hloop Hclean) as [Hclean1 Hpreds].
  assert (Hnot : ~ after_cycle (edge_pairs g) id).
  { intros Hafter. destruct (after_cycle_pred _ _ Hafter) as (p & Hedge & Hp).
    apply (Hpreds p); [|exact Hp].
    apply in_predecessors_of. apply in_edge_pairs. exact Hedge. }
  split; [|exact Hnot].
  intros k Hk. cbn [earliestFinish] in Hk.
  destruct (string_dec id k) as [<-|Hne]; [exact Hnot|].
  rewrite lookup_insert_ne in Hk by exact Hne. exact (Hclean1 k Hk).
Qed.

Lemma forward_all_clean depth ns :
  forall st st',
    forward_all nodeMap radj (edges g) depth ns st = Ok st' ->
    forward_clean g st ->
    forward_clean g st' /\ forall n, In n ns -> ~ after_cycle (edge_pairs g) (node_id n).
Proof.
  induction ns as [|n ns IH]; intros st st' Hrun Hclean.
  - injection Hrun as <-. split; [exact Hclean | intros n []].
  - cbn [forward_all] in Hrun.
    destruct (forwardPass _ _ _ _ _ _) as [[f st1]|e] eqn:Hpass; [|discriminate Hrun].
    destruct (forwardPass_clean _ _ _ _ _ Hpass Hclean) as [Hclean1 Hnot].
    destruct (IH _ _ Hrun Hclean1) as [Hclean' Hrest].
    split; [exact Hclean'|]. intros n' [<-|Hn']; [exact Hnot | exact (Hrest n' Hn')].
Qed.

Variable fw : ForwardState.
Variable t : jsnum.

Lemma backward_loop_closed rec id succs :
  (forall s st r st', rec s st = Ok (r, st') -> backward_closed g st ->
      backward_closed g st'
      /\ (forall k, latestStart st !! k <> None -> latestStart st' !! k <> None)
      /\ latestStart st' !! s <> None) ->
  forall acc st r st',
    backward_loop (edges g) rec id succs acc st = Ok (r, st') ->
    backward_closed g st ->
    backward_closed g st'
    /\ (forall k, latestStart st !! k <> None -> latestStart st' !! k <> None)
    /\ forall s, In s succs -> latestStart st' !! s <> None.
Proof.
  intros Hrec. induction succs as [|s succs IH]; intros acc st r st' Hrun Hclosed.
  - cbn [backward_loop] in Hrun. injection Hrun as _ <-.
    split; [exact Hclosed|]. split; [auto | intros s []].
  - cbn [backward_loop] in Hrun.
    destruct (rec s st) as [[ss st1]|e] eqn:Hs; [|discriminate Hrun].
    destruct (Hrec s st ss st1 Hs Hclosed) as (Hclosed1 & Hmono1 & Hin1).
    destruct (IH _ _ _ _ Hrun Hclosed1) as (Hclosed' & Hmono' & Hrest).
    split; [exact Hclosed'|]. split; [auto|].
    intros q [<-|Hq]; [apply Hmono', Hin1 | exact (Hrest q Hq)].
Qed.

Lemma backwardPass_closed depth :
  forall id st r st',
    backwardPass nodeMap adj (edges g) fw t depth id st = Ok (r, st') ->
    backward_closed g st ->
    backward_closed g st'
    /\ (forall k, latestStart st !! k <> None -> latestStart st' !! k <> None)
    /\ latestStart st' !! id <> None.
Proof.
  induction depth as [|depth IH]; intros id st r st' Hrun Hclosed; [discriminate Hrun|].
  cbn [backwardPass] in Hrun.
  destruct (latestStart st !! id) as [start|] eqn:Hmemo.
  { injection Hrun as _ <-. split; [exact Hclosed|]. split; [auto|].
    rewrite Hmemo. discriminate. }
  rewrite adjacencyList_of_lookup in Hrun.
  destruct (in_dec string_dec id (node_ids g)) as [Hid|Hno].
  2: { cbn [default from_option Datatypes.id] in Hrun.
       destruct (nodeMap !! id) as [node|] eqn:Hnode; [|discriminate Hrun].
       exfalso. exact (Hno (nodeMap_is_node id node Hnode)). }
  cbn [default from_option Datatypes.id] in Hrun.
  assert (Hloop : exists m st1,
             (forall s, In s (successors_of (edges g) id) -> latestStart st1 !! s <> None)
             /\ backward_closed g st1
             /\ (forall k, latestStart st !! k <> None -> latestStart st1 !! k <> None)
             /\ match nodeMap !! id with
                | None => Throw (undefined_read "duration_days")
                | Some node =>
                    Ok (jsub m (Fin (node_duration_days node)),
                        {| latestStart :=
                             <[id := jsub m (Fin (node_duration_days node))]> (latestStart st1);
                           latestFinish := <[id := m]> (latestFinish st1) |})
                end = Ok (r, st')).
  { destruct (successors_of (edges g) id) as [|s0 succs] eqn:Hsuccs.
    - eexists _, st. split; [intros s []|]. split; [exact Hclosed|]. split; [auto|].
      exact Hrun.
    - destruct (backward_loop _ _ _ _ _ _) as [[m st1]|e] eqn:Hl; [|discriminate Hrun].
      destruct (backward_loop_closed _ id _ IH _ _ _ _ Hl Hclosed)
        as (Hclosed1 & Hmono1 & Hall).
      exists m, st1. split; [exact Hall|]. split; [exact Hclosed1|]. split; [exact Hmono1|].
      exact Hrun. }
  destruct Hloop as (m & st1 & Hall & Hclosed1 & Hmono1 & Hend).
  destruct (nodeMap !! id) as [node|]; [|discriminate Hend].
  injection Hend as _ <-. unfold backward_closed. cbn [latestStart].
  assert (Hkeep : forall k, latestStart st1 !! k <> None ->
                            <[id := jsub m (Fin (node_duration_days node))]>
                              (latestStart st1) !! k <> None).
  { intros k Hk. destruct (string_dec id k) as [<-|Hne].
    - rewrite lookup_insert_eq. discriminate.
    - rewrite lookup_insert_ne by exact Hne. exact Hk. }
  split; [|split].
  - intros k Hk. destruct (string_dec id k) as [<-|Hne].
    + split; [exact Hid|]. intros s Hs. apply Hkeep, Hall, Hs.
    + rewrite lookup_insert_ne in Hk by exact Hne.
      destruct (Hclosed1 k Hk) as [Hnode Hsuccs]. split; [exact Hnode|].
      intros s Hs. apply Hkeep, Hsuccs, Hs.
  - intros k Hk. apply Hkeep, Hmono1, Hk.
  - rewrite lookup_insert_eq. discriminate.
Qed.

Lemma backward_all_closed depth ns :
  forall st st',
    backward_all nodeMap adj (edges g) fw t depth ns st = Ok st' ->
    backward_closed g st ->
    backward_closed g st'
    /\ (forall k, latestStart st !! k <> None -> latestStart st' !! k <> None)
    /\ forall n, In n ns -> latestStart st' !! node_id n <> None.
Proof.
  induction ns as [|n ns IH]; intros st st' Hrun Hclosed.
  - injection Hrun as <-. split; [exact Hclosed|]. split; [auto | intros n []].
  - cbn [backward_all] in Hrun.
    destruct (backwardPass _ _ _ _ _ _ _ _) as [[r st1]|e] eqn:Hpass; [|discriminate Hrun].
    destruct (backwardPass_closed _ _ _ _ _ Hpass Hclosed) as (Hclosed1 & Hmono1 & Hin1).
    destruct (IH _ _ Hrun Hclosed1) as (Hclosed' & Hmono' & Hrest).
    split; [exact Hclosed'|]. split; [auto|].
    intros n' [<-|Hn']; [apply Hmono', Hin1 | exact (Hrest n' Hn')].
Qed.
End Converse.

Lemma mark_edges_from (m : gmap string GraphNode) (es es' : list GraphEdge) :
  mark_edges m es = Ok es' -> forall e, In e es -> m !! edge_from e <> None.
Proof.
  revert es'; induction es as [|e0 es IH]; intros es' Hrun e Hin; [destruct Hin|].
  cbn [mark_edges] in Hrun.
  destruct (mark_edge m e0) as [e0'|x] eqn:H0; [|discriminate Hrun].
  destruct (mark_edges m es) as [rest|x]; [|discriminate Hrun].
  destruct Hin as [<-|Hin]; [|exact (IH rest eq_refl e Hin)].
  unfold mark_edge in H0. destruct (m !! edge_from e0); [discriminate | discriminate H0].
Qed.

(** When [calculateCriticalPath] returns, at any call depth, every edge of
    the graph joins two of its nodes and no walk along the edges is a
    cycle. *)
Lemma calculateCriticalPath_ok_graph (depth : nat) (g : DependencyGraph)
    (r : CriticalPathAnalysis * DependencyGraph) :
  calculateCriticalPath depth g = Ok r ->
  edges_join_nodes g /\ acyclic (edge_pairs g).
Proof.
  unfold calculateCriticalPath. intros Hrun.
  destruct (forward_all _ _ _ _ _ _) as [fw|e] eqn:Hfw; [|discriminate Hrun].
  destruct (backward_all _ _ _ _ _ _ _ _) as [bw|e] eqn:Hbw; [|discriminate Hrun].
  destruct (mark_edges _ _) as [edges'|e] eqn:Hmark; [|discriminate Hrun].
  assert (Hjoin : edges_join_nodes g).
  { intros e He.
    assert (Hfrom : In (edge_from e) (node_ids g)).
    { pose proof (mark_edges_from _ _ _ Hmark e He) as Hf.
      destruct (nodeMap_of _ !! edge_from e) as [n|] eqn:Hn; [|contradiction].
      apply nodeMap_of_some in Hn as [Hin Hid].
      unfold node_ids. rewrite <- (annotate_ids fw bw), <- Hid. apply in_map, Hin. }
    split; [exact Hfrom|].
    destruct (backward_all_closed g fw _ depth (nodes g) _ _ Hbw) as (Hclosed & _ & Hall).
    { intros k Hk. cbn in Hk. rewrite lookup_empty in Hk. contradiction. }
    unfold node_ids in Hfrom. apply in_map_iff in Hfrom as (n & Hid & Hn).
    pose proof (Hall n Hn) as Hmemo. rewrite Hid in Hmemo.
    destruct (Hclosed _ Hmemo) as [_ Hsuccs].
    apply (Hclosed (edge_to e)). apply Hsuccs. apply in_successors_of.
    exists e; auto. }
  split; [exact Hjoin|].
  intros n a Hw.
  destruct (forward_all_clean g depth (nodes g) _ _ Hfw) as [_ Hnodes].
  { intros k Hk. cbn in Hk. rewrite lookup_empty in Hk. contradiction. }
  inversion Hw as [|n' a' b c Hin Hrest]; subst.
  apply in_edge_pairs in Hin as (e & He & Hfrom & _).
  destruct (Hjoin e He) as [Ha _]. rewrite Hfrom in Ha.
  unfold node_ids in Ha. apply in_map_iff in Ha as (node & Hid & Hnode).
  apply (Hnodes node Hnode). rewrite Hid.
  exists a. split; [exists n; exact Hw | left; reflexivity].
Qed.

(** X15. With a call depth of at least the number of nodes,
    [calculateCriticalPath] returns exactly on the graphs whose edges all join
    two nodes of the graph and form no cycle; on every other graph it
    throws. *)
Theorem calculateCriticalPath_returns_iff (depth : nat) (g : DependencyGraph) :
  (length (nodes g) <= depth)%nat ->
  (exists r, calculateCriticalPath depth g = Ok r)
  <-> edges_join_nodes g /\ acyclic (edge_pairs g).
Proof.
  intros Hdepth. split.
  - intros [r Hr]. exact (calculateCriticalPath_ok_graph depth g r Hr).
  - intros [Hjoin Hacy].
    destruct (calculateCriticalPath_runs g depth Hjoin Hacy Hdepth)
      as (fw & bw & analysis & edges' & Hrun & _).
    eexists. exact Hrun.
Qed.

Lemma calculateCriticalPath_returns_witness :
  (exists r, calculateCriticalPath 2 two_node_graph = Ok r)
  <-> edges_join_nodes two_node_graph /\ acyclic (edge_pairs two_node_graph).
Proof.
  apply (calculateCriticalPath_returns_iff 2 two_node_graph). cbn. lia.
Defined.
(* ===================================================================== *)
(** * Cycle detection: termination and correctness of the verdict *)
(* ===================================================================== *)

#[local] Set Warnings "-clear-no-such-hyp".

Lemma in_recorded_pairs (g : DependencyGraph) (a b : string) :
  In (a, b) (recorded_pairs g)
  <-> In a (node_ids g) /\ In b (successors_of (edges g) a).
Proof.
  unfold recorded_pairs. rewrite in_map_iff, in_successors_of. split.
  - intros (e & Heq & Hin). injection Heq as <- <-.
    apply filter_In in Hin as [Hin Hnode]. apply array_includes_In in Hnode.
    split; [exact Hnode | exists e; auto].
  - intros (Ha & e & Hin & <- & <-). exists e. split; [reflexivity|].
    apply filter_In. split; [exact Hin | apply array_includes_In, Ha].
Qed.

Lemma neighbors_recorded (g : DependencyGraph) (id v : string) :
  In v (default [] (adjacencyList_of g !! id)) <-> In (id, v) (recorded_pairs g).
Proof.
  rewrite adjacencyList_of_lookup, in_recorded_pairs.
  destruct (in_dec string_dec id (node_ids g)) as [Hid|Hno];
    cbn [default from_option Datatypes.id].
  - tauto.
  - split; [intros [] | intros [Hid _]; contradiction].
Qed.

Lemma recorded_pairs_sub (g : DependencyGraph) (p : string * string) :
  In p (recorded_pairs g) -> In p (edge_pairs g).
Proof.
  unfold recorded_pairs, edge_pairs. rewrite !in_map_iff.
  intros (e & Heq & Hin). apply filter_In in Hin as [Hin _]. exists e; auto.
Qed.

Lemma walk_stays (E : list (string * string)) (B : gset string) :
  (forall u, u ∈ B -> forall v, In (u, v) E -> v ∈ B) ->
  forall n a b, walk E n a b -> a ∈ B -> b ∈ B.
Proof.
  intros Hclosed. induction 1 as [a|n a b c Hin Hw IH]; intros Ha; [exact Ha|].
  apply IH. exact (Hclosed a Ha b Hin).
Qed.

Lemma size_list_to_set_le (l : list string) :
  (size (list_to_set (C:=gset string) l) <= length l)%nat.
Proof.
  induction l as [|x l IH]; [rewrite list_to_set_nil, size_empty; cbn; lia|].
  rewrite list_to_set_cons, size_union_alt, size_singleton. cbn [length].
  pose proof (subseteq_size (list_to_set (C:=gset string) l ∖ {[x]}) (list_to_set l)) as H.
  assert (Hs : list_to_set (C:=gset string) l ∖ {[x]} ⊆ list_to_set l) by set_solver.
  specialize (H Hs). lia.
Qed.

Section DfsProofs.
Variable g : DependencyGraph.

Local Abbreviation E := (recorded_pairs g).
Local Abbreviation adj := (adjacencyList_of g).
Local Abbreviation U := (dfs_universe g).

(** *** Cycles once found stay found *)

Lemma dfs_loop_found rec path neighbors :
  (forall n p s b s', rec n p s = Ok (b, s') ->
      (b = true -> found_cycles s' <> []) /\ (found_cycles s <> [] -> found_cycles s' <> [])) ->
  forall st b st',
    dfs_loop rec path neighbors st = Ok (b, st') ->
    (b = true -> found_cycles st' <> []) /\ (found_cycles st <> [] -> found_cycles st' <> []).
Proof.
  intros Hrec. induction neighbors as [|n neighbors IH]; intros st b st' Hrun.
  - cbn [dfs_loop] in Hrun. injection Hrun as <- <-. split; [discriminate | auto].
  - cbn [dfs_loop] in Hrun.
    destruct (negb (bool_decide (n ∈ visited st))).
    + destruct (rec n path st) as [[b1 st1]|e] eqn:Hn; [|discriminate Hrun].
      destruct (Hrec _ _ _ _ _ Hn) as [Htrue Hmono].
      destruct b1.
      * injection Hrun as <- <-. split; [intros _; apply Htrue; reflexivity | exact Hmono].
      * destruct (IH _ _ _ Hrun) as [Htrue' Hmono']. split; [exact Htrue' | auto].
    + destruct (bool_decide (n ∈ recursionStack st)).
      * injection Hrun as <- <-. cbn [found_cycles].
        split; intros _ Heq; apply app_eq_nil in Heq as [_ Heq]; discriminate Heq.
      * exact (IH _ _ _ Hrun).
Qed.

Lemma dfs_found depth :
  forall id path st b st',
    dfs adj depth id path st = Ok (b, st') ->
    (b = true -> found_cycles st' <> []) /\ (found_cycles st <> [] -> found_cycles st' <> []).
Proof.
  induction depth as [|depth IH]; intros id path st b st' Hrun; [discriminate Hrun|].
  cbn [dfs] in Hrun.
  destruct (dfs_loop _ _ _ _) as [[b2 st2]|e] eqn:Hloop; [|discriminate Hrun].
  destruct (dfs_loop_found _ _ _ IH _ _ _ Hloop) as [Htrue Hmono].
  cbn [found_cycles] in Hmono.
  destruct b2; injection Hrun as <- <-; cbn [found_cycles].
  - split; [intros _; apply Htrue; reflexivity | exact Hmono].
  - split; [discriminate | exact Hmono].
Qed.

Lemma dfs_all_found depth ns :
  forall st st', dfs_all adj depth ns st = Ok st' ->
                 found_cycles st <> [] -> found_cycles st' <> [].
Proof.
  induction ns as [|n ns IH]; intros st st' Hrun Hne.
  - injection Hrun as <-. exact Hne.
  - cbn [dfs_all] in Hrun. destruct (negb _); [|exact (IH _ _ Hrun Hne)].
    destruct (dfs _ _ _ _ _) as [[b st1]|e] eqn:Hd; [|discriminate Hrun].
    apply (IH _ _ Hrun). apply (dfs_found _ _ _ _ _ _ Hd), Hne.
Qed.

(** *** On a graph without cycle nothing is reported *)

Section Sound.
Hypothesis graph_acyclic : acyclic E.

Lemma dfs_loop_sound rec id path neighbors :
  (forall n p s b s', rec n p s = Ok (b, s') ->
      (forall x, x ∈ recursionStack s -> reaches E x n) ->
      b = false /\ found_cycles s' = found_cycles s
      /\ recursionStack s' ⊆ recursionStack s) ->
  (forall n, In n neighbors -> In (id, n) E) ->
  forall st b st',
    dfs_loop rec path neighbors st = Ok (b, st') ->
    (forall x, x ∈ recursionStack st -> x = id \/ reaches E x id) ->
    b = false /\ found_cycles st' = found_cycles st
    /\ recursionStack st' ⊆ recursionStack st.
Proof.
  intros Hrec. induction neighbors as [|n neighbors IH]; intros Hedges st b st' Hrun Hstack.
  - cbn [dfs_loop] in Hrun. injection Hrun as <- <-. auto.
  - pose proof (Hedges n (or_introl eq_refl)) as Hn.
    assert (Hreach : forall x, x ∈ recursionStack st -> reaches E x n).
    { intros x Hx. destruct (Hstack x Hx) as [->|Hxi]; [apply reaches_edge, Hn|].
      exact (reaches_trans E x id n Hxi (reaches_edge E id n Hn)). }
    cbn [dfs_loop] in Hrun.
    destruct (negb (bool_decide (n ∈ visited st))).
    + destruct (rec n path st) as [[b1 st1]|e] eqn:Hcall; [|discriminate Hrun].
      destruct (Hrec _ _ _ _ _ Hcall Hreach) as (-> & Hfound1 & Hsub1).
      destruct (IH (fun m Hm => Hedges m (or_intror Hm)) _ _ _ Hrun) as (Hb & Hfound & Hsub).
      { intros x Hx. apply Hstack, Hsub1, Hx. }
      split; [exact Hb|]. split; [congruence | set_solver].
    + destruct (bool_decide (n ∈ recursionStack st)) eqn:Hon.
      * exfalso. apply bool_decide_eq_true in Hon.
        exact (reaches_irrefl E n graph_acyclic (Hreach n Hon)).
      * exact (IH (fun m Hm => Hedges m (or_intror Hm)) _ _ _ Hrun Hstack).
Qed.

Lemma dfs_sound depth :
  forall id path st b st',
    dfs adj depth id path st = Ok (b, st') ->
    (forall x, x ∈ recursionStack st -> reaches E x id) ->
    b = false /\ found_cycles st' = found_cycles st
    /\ recursionStack st' ⊆ recursionStack st.
Proof.
  induction depth as [|depth IH]; intros id path st b st' Hrun Hstack; [discriminate Hrun|].
  cbn [dfs] in Hrun.
  destruct (dfs_loop _ _ _ _) as [[b2 st2]|e] eqn:Hloop; [|discriminate Hrun].
  destruct (dfs_loop_sound _ id _ _ IH (fun n Hn => proj1 (neighbors_recorded g id n) Hn)
              _ _ _ Hloop) as (-> & Hfound & Hsub).
  { cbn [recursionStack]. intros x Hx. apply elem_of_union in Hx as [Hx|Hx].
    - left. apply elem_of_singleton in Hx. exact Hx.
    - right. exact (Hstack x Hx). }
  cbn [recursionStack found_cycles] in Hfound, Hsub.
  injection Hrun as <- <-. cbn [recursionStack found_cycles].
  split; [reflexivity|]. split; [exact Hfound|].
  assert (Hnot : id ∉ recursionStack st).
  { intros Hin. exact (reaches_irrefl E id graph_acyclic (Hstack id Hin)). }
  set_solver.
Qed.

Lemma dfs_all_sound depth ns :
  forall st st',
    dfs_all adj depth ns st = Ok st' ->
    recursionStack st = ∅ ->
    found_cycles st' = found_cycles st /\ recursionStack st' = ∅.
Proof.
  induction ns as [|n ns IH]; intros st st' Hrun Hempty.
  - injection Hrun as <-. auto.
  - cbn [dfs_all] in Hrun. destruct (negb _); [|exact (IH _ _ Hrun Hempty)].
    destruct (dfs _ _ _ _ _) as [[b st1]|e] eqn:Hd; [|discriminate Hrun].
    destruct (dfs_sound _ _ _ _ _ _ Hd) as (_ & Hfound1 & Hsub1).
    { intros x Hx. rewrite Hempty in Hx. set_solver. }
    assert (Hempty1 : recursionStack st1 = ∅) by (rewrite Hempty in Hsub1; set_solver).
    destruct (IH _ _ Hrun Hempty1) as [Hfound Hstack]. split; [congruence | exact Hstack].
Qed.
End Sound.

(** *** A search that reports nothing has seen that there is no cycle *)

Lemma dfs_finished_mono (st st' : DfsState) :
  visited st ⊆ visited st' -> recursionStack st' = recursionStack st ->
  dfs_finished st ⊆ dfs_finished st'.
Proof. unfold dfs_finished. intros Hv ->. set_solver. Qed.

Lemma dfs_loop_false rec path neighbors :
  (forall n p s s', rec n p s = Ok (false, s') -> dfs_inv E s -> n ∉ visited s ->
      dfs_inv E s' /\ visited s ⊆ visited s'
      /\ recursionStack s' = recursionStack s /\ n ∈ dfs_finished s') ->
  forall st st',
    dfs_loop rec path neighbors st = Ok (false, st') ->
    dfs_inv E st ->
    dfs_inv E st' /\ visited st ⊆ visited st'
    /\ recursionStack st' = recursionStack st
    /\ forall n, In n neighbors -> n ∈ dfs_finished st'.
Proof.
  intros Hrec. induction neighbors as [|n neighbors IH]; intros st st' Hrun Hinv.
  - cbn [dfs_loop] in Hrun. injection Hrun as <-.
    split; [exact Hinv|]. split; [reflexivity|]. split; [reflexivity | intros n []].
  - cbn [dfs_loop] in Hrun.
    destruct (bool_decide (n ∈ visited st)) eqn:Hvis; cbn [negb] in Hrun.
    + destruct (bool_decide (n ∈ recursionStack st)) eqn:Hon; [discriminate Hrun|].
      apply bool_decide_eq_true in Hvis. apply bool_decide_eq_false in Hon.
      destruct (IH _ _ Hrun Hinv) as (Hinv' & Hv & Hs & Hall).
      split; [exact Hinv'|]. split; [exact Hv|]. split; [exact Hs|].
      intros m [<-|Hm]; [|exact (Hall m Hm)].
      apply (dfs_finished_mono st st' Hv Hs). unfold dfs_finished. set_solver.
    + apply bool_decide_eq_false in Hvis.
      destruct (rec n path st) as [[b1 st1]|e] eqn:Hcall; [|discriminate Hrun].
      destruct b1; [discriminate Hrun|].
      destruct (Hrec _ _ _ _ Hcall Hinv Hvis) as (Hinv1 & Hv1 & Hs1 & Hn1).
      destruct (IH _ _ Hrun Hinv1) as (Hinv' & Hv & Hs & Hall).
      split; [exact Hinv'|]. split; [set_solver|]. split; [congruence|].
      intros m [<-|Hm]; [|exact (Hall m Hm)].
      apply (dfs_finished_mono st1 st' Hv Hs), Hn1.
Qed.

Lemma dfs_false depth :
  forall id path st st',
    dfs adj depth id path st = Ok (false, st') ->
    dfs_inv E st -> id ∉ visited st ->
    dfs_inv E st' /\ visited st ⊆ visited st'
    /\ recursionStack st' = recursionStack st /\ id ∈ dfs_finished st'.
Proof.
  induction depth as [|depth IH]; intros id path st st' Hrun Hinv Hfresh;
    [discriminate Hrun|].
  cbn [dfs] in Hrun.
  destruct (dfs_loop _ _ _ _) as [[b2 st2]|e] eqn:Hloop; [|discriminate Hrun].
  destruct b2; [discriminate Hrun|]. injection Hrun as <-.
  destruct Hinv as [Hsub Hfin].
  assert (Hnot : id ∉ recursionStack st) by set_solver.
  destruct (dfs_loop_false _ _ _ IH _ _ Hloop) as ((Hsub2 & Hfin2) & Hv2 & Hs2 & Hall).
  { split; cbn [visited recursionStack]; [set_solver|].
    intros u Hu. unfold dfs_finished in Hu |- *. cbn [visited recursionStack] in Hu |- *.
    assert (Hu' : u ∈ dfs_finished st) by (unfold dfs_finished; set_solver).
    destruct (Hfin u Hu') as [Hclosed Hcycle]. split; [|exact Hcycle].
    intros v Hv. specialize (Hclosed v Hv). unfold dfs_finished in Hclosed. set_solver. }
  cbn [visited recursionStack] in Hv2, Hs2.
  assert (Hid2 : id ∈ recursionStack st2) by (rewrite Hs2; set_solver).
  assert (Hgrow : dfs_finished st2 ⊆ visited st2 ∖ (recursionStack st2 ∖ {[id]})).
  { unfold dfs_finished. set_solver. }
  split; [|split; [|split]].
  - split; cbn [visited recursionStack]; [set_solver|].
    intros u Hu. unfold dfs_finished in Hu |- *. cbn [visited recursionStack] in Hu |- *.
    destruct (string_dec u id) as [->|Hne].
    + split.
      * intros v Hv. apply Hgrow, Hall. apply neighbors_recorded, Hv.
      * intros [n Hw]. inversion Hw as [|n' a b c Hin Hrest]; subst.
        assert (Hb : b ∈ dfs_finished st2) by (apply Hall, neighbors_recorded, Hin).
        pose proof (walk_stays E (dfs_finished st2)
                      (fun u Hu v Hv => proj1 (Hfin2 u Hu) v Hv) _ _ _ Hrest Hb) as Hback.
        unfold dfs_finished in Hback. set_solver.
    + assert (Hu2 : u ∈ dfs_finished st2) by (unfold dfs_finished; set_solver).
      destruct (Hfin2 u Hu2) as [Hclosed Hcycle]. split; [|exact Hcycle].
      intros v Hv. apply Hgrow, Hclosed, Hv.
  - cbn [visited]. set_solver.
  - cbn [recursionStack]. rewrite Hs2. set_solver.
  - unfold dfs_finished. cbn [visited recursionStack]. set_solver.
Qed.

Lemma dfs_all_false depth ns :
  forall st st',
    dfs_all adj depth ns st = Ok st' ->
    found_cycles st' = [] ->
    dfs_inv E st -> recursionStack st = ∅ ->
    dfs_inv E st' /\ recursionStack st' = ∅ /\ visited st ⊆ visited st'
    /\ forall n, In n ns -> node_id n ∈ visited st'.
Proof.
  induction ns as [|n ns IH]; intros st st' Hrun Hnone Hinv Hempty.
  - injection Hrun as <-. split; [exact Hinv|]. split; [exact Hempty|].
    split; [reflexivity | intros n []].
  - cbn [dfs_all] in Hrun.
    destruct (bool_decide (node_id n ∈ visited st)) eqn:Hvis; cbn [negb] in Hrun.
    + apply bool_decide_eq_true in Hvis.
      destruct (IH _ _ Hrun Hnone Hinv Hempty) as (Hinv' & Hs & Hv & Hall).
      split; [exact Hinv'|]. split; [exact Hs|]. split; [exact Hv|].
      intros m [<-|Hm]; [set_solver | exact (Hall m Hm)].
    + apply bool_decide_eq_false in Hvis.
      destruct (dfs _ _ _ _ _) as [[b st1]|e] eqn:Hd; [|discriminate Hrun].
      assert (Hnone1 : found_cycles st1 = []).
      { destruct (found_cycles st1) as [|c cs] eqn:Hf; [reflexivity|].
        exfalso. apply (dfs_all_found _ _ _ _ Hrun); [rewrite Hf; discriminate | exact Hnone]. }
      assert (Hb : b = false).
      { destruct b; [|reflexivity]. exfalso.
        exact (proj1 (dfs_found _ _ _ _ _ _ Hd) eq_refl Hnone1). }
      subst b.
      destruct (dfs_false _ _ _ _ _ Hd Hinv Hvis) as (Hinv1 & Hv1 & Hs1 & Hn1).
      assert (Hempty1 : recursionStack st1 = ∅) by congruence.
      destruct (IH _ _ Hrun Hnone Hinv1 Hempty1) as (Hinv' & Hs & Hv & Hall).
      split; [exact Hinv'|]. split; [exact Hs|]. split; [set_solver|].
      intros m [<-|Hm]; [|exact (Hall m Hm)].
      unfold dfs_finished in Hn1. set_solver.
Qed.

(** *** The search ends on every graph *)

Lemma dfs_loop_total (d : nat) rec path neighbors :
  (forall n p s, n ∈ U -> n ∉ visited s -> (size (U ∖ visited s) <= d)%nat ->
      exists b s', rec n p s = Ok (b, s') /\ visited s ⊆ visited s') ->
  (forall n, In n neighbors -> n ∈ U) ->
  forall st, (size (U ∖ visited st) <= d)%nat ->
    exists b st', dfs_loop rec path neighbors st = Ok (b, st') /\ visited st ⊆ visited st'.
Proof.
  intros Hrec. induction neighbors as [|n neighbors IH]; intros HU st Hsize.
  - exists false, st. split; reflexivity.
  - cbn [dfs_loop].
    destruct (bool_decide (n ∈ visited st)) eqn:Hvis; cbn [negb].
    + destruct (bool_decide (n ∈ recursionStack st)).
      * eexists _, _. split; [reflexivity|]. cbn [visited]. reflexivity.
      * apply (IH (fun m Hm => HU m (or_intror Hm)) st Hsize).
    + apply bool_decide_eq_false in Hvis.
      destruct (Hrec n path st (HU n (or_introl eq_refl)) Hvis Hsize) as (b1 & st1 & -> & Hv1).
      destruct b1; [exists true, st1; split; [reflexivity | exact Hv1]|].
      destruct (IH (fun m Hm => HU m (or_intror Hm)) st1) as (b & st' & Hrun & Hv).
      { pose proof (subseteq_size (U ∖ visited st1) (U ∖ visited st)) as Hle.
        assert (Hs : U ∖ visited st1 ⊆ U ∖ visited st) by set_solver.
        specialize (Hle Hs). lia. }
      exists b, st'. split; [exact Hrun | set_solver].
Qed.

Lemma neighbors_in_universe id n :
  In n (default [] (adj !! id)) -> n ∈ U.
Proof.
  intros H. apply neighbors_recorded, in_recorded_pairs in H as [_ H].
  apply in_successors_of in H as (e & He & _ & <-).
  unfold dfs_universe. apply elem_of_list_to_set, list_elem_of_In, in_or_app.
  right. apply in_map, He.
Qed.

Lemma dfs_total depth :
  forall id path st,
    id ∈ U -> id ∉ visited st -> (size (U ∖ visited st) <= depth)%nat ->
    exists b st', dfs adj depth id path st = Ok (b, st') /\ visited st ⊆ visited st'.
Proof.
  induction depth as [|depth IH]; intros id path st Hid Hfresh Hsize.
  - exfalso.
    pose proof (subseteq_size ({[id]} : gset string) (U ∖ visited st)) as Hle.
    assert (Hs : ({[id]} : gset string) ⊆ U ∖ visited st) by set_solver.
    specialize (Hle Hs). rewrite size_singleton in Hle. lia.
  - cbn [dfs].
    destruct (dfs_loop_total depth (dfs adj depth) (path ++ [id])
                (default [] (adj !! id)) IH (neighbors_in_universe id)
                {| visited := {[id]} ∪ visited st;
                   recursionStack := {[id]} ∪ recursionStack st;
                   found_cycles := found_cycles st |})
      as (b & st2 & -> & Hv2).
    { cbn [visited].
      pose proof (subset_size (U ∖ ({[id]} ∪ visited st)) (U ∖ visited st)) as Hlt.
      assert (Hs : U ∖ ({[id]} ∪ visited st) ⊂ U ∖ visited st) by set_solver.
      specialize (Hlt Hs). lia. }
    cbn [visited] in Hv2.
    destruct b; eexists _, _; (split; [reflexivity|]); cbn [visited]; set_solver.
Qed.

Lemma dfs_all_total depth ns :
  (size U <= depth)%nat ->
  (forall n, In n ns -> node_id n ∈ U) ->
  forall st, exists st', dfs_all adj depth ns st = Ok st'.
Proof.
  intros Hdepth. induction ns as [|n ns IH]; intros HU st; [exists st; reflexivity|].
  cbn [dfs_all].
  destruct (bool_decide (node_id n ∈ visited st)) eqn:Hvis; cbn [negb].
  - apply (IH (fun m Hm => HU m (or_intror Hm))).
  - apply bool_decide_eq_false in Hvis.
    destruct (dfs_total depth (node_id n) [] st (HU n (or_introl eq_refl)) Hvis)
      as (b & st1 & -> & _).
    { pose proof (subseteq_size (U ∖ visited st) U) as Hle.
      assert (Hs : U ∖ visited st ⊆ U) by set_solver. specialize (Hle Hs). lia. }
    apply (IH (fun m Hm => HU m (or_intror Hm))).
Qed.
End DfsProofs.

Lemma dfs_inv_start (E : list (string * string)) : dfs_inv E dfs_start.
Proof.
  split; [reflexivity|]. intros u Hu. unfold dfs_finished, dfs_start in Hu.
  cbn in Hu. set_solver.
Qed.

(** What [detectCycles] returns, from the state its search ends in. *)
Lemma detectCycles_run (depth : nat) (g : DependencyGraph) :
  detectCycles depth g
  = match dfs_all (adjacencyList_of g) depth (nodes g) dfs_start with
    | Throw e => Throw e
    | Ok st =>
        Ok {| has_cycles := (0 <? length (found_cycles st))%nat;
              cycles := found_cycles st;
              affected_work_items := distinct (List.concat (found_cycles st));
              resolution_suggestions := generateCycleResolutions (found_cycles st) |}
    end.
Proof. reflexivity. Qed.

(** On a graph whose recorded edges form no cycle, a search that returns
    reports nothing. *)
Lemma detectCycles_acyclic (depth : nat) (g : DependencyGraph) (r : CycleDetectionResult) :
  acyclic (recorded_pairs g) ->
  detectCycles depth g = Ok r ->
  r = {| has_cycles := false; cycles := []; affected_work_items := [];
         resolution_suggestions := [] |}.
Proof.
  intros Hacy. rewrite detectCycles_run.
  destruct (dfs_all _ _ _ _) as [st|e] eqn:Hall; [|discriminate].
  destruct (dfs_all_sound g Hacy depth (nodes g) _ _ Hall eq_refl) as [Hfound _].
  cbn [found_cycles dfs_start] in Hfound. rewrite Hfound. intros H; injection H as <-.
  reflexivity.
Qed.

(** With a call depth of at least the number of distinct ids among the
    nodes and the edge targets, the search returns. *)
Lemma detectCycles_total (depth : nat) (g : DependencyGraph) :
  (size (dfs_universe g) <= depth)%nat ->
  exists r, detectCycles depth g = Ok r.
Proof.
  intros Hdepth. rewrite detectCycles_run.
  destruct (dfs_all_total g depth (nodes g) Hdepth) with (st := dfs_start) as [st ->].
  - intros n Hn. unfold dfs_universe.
    apply elem_of_list_to_set, list_elem_of_In, in_or_app. left. apply in_map, Hn.
  - eexists. reflexivity.
Qed.

(** X16. [detectCycles] ends on every graph, cyclic or not: with a call
    depth of at least the number of nodes and edges it returns a result. *)
Theorem detectCycles_terminates (depth : nat) (g : DependencyGraph) :
  (length (nodes g) + length (edges g) <= depth)%nat ->
  exists r, detectCycles depth g = Ok r.
Proof.
  intros Hdepth. apply detectCycles_total. unfold dfs_universe.
  pose proof (size_list_to_set_le (node_ids g ++ List.map edge_to (edges g))) as Hle.
  unfold node_ids in Hle. rewrite length_app, !length_map in Hle. unfold node_ids. lia.
Qed.

Lemma detectCycles_terminates_witness : exists r, detectCycles 6 triangle = Ok r.
Proof. apply (detectCycles_terminates 6 triangle). cbn. lia. Defined.

(** X17. The verdict of [detectCycles] is right: when it returns,
    [has_cycles] is true exactly when the edges that start at a node of the
    graph contain a cycle. *)
Theorem detectCycles_decides (depth : nat) (g : DependencyGraph) (r : CycleDetectionResult) :
  detectCycles depth g = Ok r ->
  (has_cycles r = false <-> acyclic (recorded_pairs g))
  /\ (has_cycles r = false <-> cycles r = []).
Proof.
  intros Hrun. split.
  - split.
    + intros Hnone. rewrite detectCycles_run in Hrun.
      destruct (dfs_all _ _ _ _) as [st|e] eqn:Hall; [|discriminate Hrun].
      injection Hrun as <-. cbn [has_cycles] in Hnone.
      assert (Hfound : found_cycles st = []).
      { destruct (found_cycles st); [reflexivity | discriminate Hnone]. }
      destruct (dfs_all_false g depth (nodes g) _ _ Hall Hfound
                  (dfs_inv_start _) eq_refl) as ((_ & Hfin) & Hstack & _ & Hnodes).
      intros n a Hw.
      assert (Ha : In a (node_ids g)).
      { inversion Hw as [|n' a' b c Hin Hrest]; subst.
        apply in_recorded_pairs in Hin as [Ha _]. exact Ha. }
      unfold node_ids in Ha. apply in_map_iff in Ha as (node & <- & Hnode).
      apply (Hfin (node_id node)).
      * unfold dfs_finished. rewrite Hstack. specialize (Hnodes node Hnode). set_solver.
      * exists n. exact Hw.
    + intros Hacy. rewrite (detectCycles_acyclic depth g r Hacy Hrun). reflexivity.
  - rewrite detectCycles_run in Hrun.
    destruct (dfs_all _ _ _ _) as [st|e]; [|discriminate Hrun].
    injection Hrun as <-. cbn [has_cycles cycles].
    destruct (found_cycles st); split; intros H; try reflexivity; discriminate H.
Qed.

Lemma detectCycles_decides_witness :
  (false = false <-> acyclic (recorded_pairs two_node_graph))
  /\ (false = false <-> @nil (list string) = []).
Proof.
  apply (detectCycles_decides 3 two_node_graph
           {| has_cycles := false; cycles := []; affected_work_items := [];
              resolution_suggestions := [] |}).
  vm_compute. reflexivity.
Defined.
(* ===================================================================== *)
(** * The graph endpoints: when they answer, and what *)
(* ===================================================================== *)

Lemma map_eq_project {A B C} (f : A -> B) (h : A -> C) (l l' : list A) :
  (forall x y, f x = f y -> h x = h y) ->
  List.map f l = List.map f l' -> List.map h l = List.map h l'.
Proof.
  intros Hfh. revert l'; induction l as [|x l IH]; intros [|y l'] Heq;
    try discriminate Heq; [reflexivity|].
  cbn [List.map] in *. injection Heq as Hxy Hrest.
  rewrite (Hfh x y Hxy), (IH l' Hrest). reflexivity.
Qed.

Lemma mark_edges_core (m : gmap string GraphNode) (es es' : list GraphEdge) :
  mark_edges m es = Ok es' -> List.map edge_core es' = List.map edge_core es.
Proof.
  revert es'; induction es as [|e es IH]; intros es' Hrun.
  - injection Hrun as <-. reflexivity.
  - cbn [mark_edges] in Hrun.
    destruct (mark_edge m e) as [e'|x] eqn:He; [|discriminate Hrun].
    destruct (mark_edges m es) as [rest|x]; [|discriminate Hrun].
    injection Hrun as <-. cbn [List.map]. rewrite (IH rest eq_refl). f_equal.
    unfold mark_edge in He. destruct (m !! edge_from e) as [fromNode|]; [|discriminate He].
    destruct (node_is_critical fromNode).
    + destruct (m !! edge_to e); [|discriminate He]. injection He as <-. reflexivity.
    + injection He as <-. reflexivity.
Qed.

(** The graph [calculateCriticalPath] leaves has the nodes and the edges
    it was given, in order, up to the annotations. *)
Lemma calculateCriticalPath_shape (depth : nat) (g g' : DependencyGraph)
    (analysis : CriticalPathAnalysis) :
  calculateCriticalPath depth g = Ok (analysis, g') ->
  node_ids g' = node_ids g
  /\ List.map edge_core (edges g') = List.map edge_core (edges g)
  /\ edge_pairs g' = edge_pairs g
  /\ recorded_pairs g' = recorded_pairs g.
Proof.
  unfold calculateCriticalPath. intros Hrun.
  destruct (forward_all _ _ _ _ _ _) as [fw|e]; [|discriminate Hrun].
  destruct (backward_all _ _ _ _ _ _ _ _) as [bw|e]; [|discriminate Hrun].
  destruct (mark_edges _ _) as [edges'|e] eqn:Hmark; [|discriminate Hrun].
  injection Hrun as _ <-.
  pose proof (mark_edges_core _ _ _ Hmark) as Hcore.
  assert (Hids : node_ids
                   {| nodes := List.map (annotate fw bw) (nodes g); edges := edges';
                      critical_path := critical_path g; cycle_detected := cycle_detected g;
                      graph_cycles := graph_cycles g |} = node_ids g).
  { unfold node_ids. cbn [nodes]. apply annotate_ids. }
  split; [exact Hids|]. split; [exact Hcore|]. split.
  - unfold edge_pairs. cbn [edges].
    apply (map_eq_project edge_core (fun e => (edge_from e, edge_to e))); [|exact Hcore].
    intros x y Hxy. unfold edge_core in Hxy. congruence.
  - unfold recorded_pairs. rewrite Hids. cbn [edges].
    clear -Hcore. revert edges' Hcore.
    induction (edges g) as [|e es IH]; intros [|e' es'] Hcore; try discriminate Hcore;
      [reflexivity|].
    cbn [List.map] in Hcore. injection Hcore as _ Hfrom Hto _ _ Hrest.
    cbn [List.filter]. rewrite Hfrom.
    destruct (array_includes (node_ids g) (edge_from e)); cbn [List.map];
      rewrite (IH es' Hrest); [rewrite Hfrom, Hto|]; reflexivity.
Qed.

(** *** The errors of the graph computations *)

Section GraphErrors.
Variable nodeMap : gmap string GraphNode.
Variable adjacencyList reverseAdjacencyList : gmap string (list string).
Variable graph_edges : list GraphEdge.

Lemma forward_loop_throws rec nodeId preds :
  (forall p s e, rec p s = Throw e -> graph_error e) ->
  forall acc st e, forward_loop graph_edges rec nodeId preds acc st = Throw e -> graph_error e.
Proof.
  intros Hrec. induction preds as [|p preds IH]; intros acc st e Hrun; [discriminate Hrun|].
  cbn [forward_loop] in Hrun. destruct (rec p st) as [[f st']|x] eqn:Hp.
  - exact (IH _ _ _ Hrun).
  - injection Hrun as <-. exact (Hrec _ _ _ Hp).
Qed.

Lemma forwardPass_throws depth :
  forall nodeId st e,
    forwardPass nodeMap reverseAdjacencyList graph_edges depth nodeId st = Throw e ->
    graph_error e.
Proof.
  induction depth as [|depth IH]; intros nodeId st e Hrun.
  - injection Hrun as <-. left; reflexivity.
  - cbn [forwardPass] in Hrun. destruct (earliestFinish st !! nodeId); [discriminate Hrun|].
    destruct (forward_loop _ _ _ _ _ _) as [[m st']|x] eqn:Hloop.
    + destruct (nodeMap !! nodeId); [discriminate Hrun|]. injection Hrun as <-.
      right; left; reflexivity.
    + injection Hrun as <-. exact (forward_loop_throws _ _ _ IH _ _ _ Hloop).
Qed.

Lemma forward_all_throws depth ns :
  forall st e,
    forward_all nodeMap reverseAdjacencyList graph_edges depth ns st = Throw e ->
    graph_error e.
Proof.
  induction ns as [|n ns IH]; intros st e Hrun; [discriminate Hrun|].
  cbn [forward_all] in Hrun. destruct (forwardPass _ _ _ _ _ _) as [[f st']|x] eqn:Hp.
  - exact (IH _ _ Hrun).
  - injection Hrun as <-. exact (forwardPass_throws _ _ _ _ Hp).
Qed.

Variable forward : ForwardState.
Variable projectCompletion : jsnum.

Lemma backward_loop_throws rec nodeId succs :
  (forall p s e, rec p s = Throw e -> graph_error e) ->
  forall acc st e, backward_loop graph_edges rec nodeId succs acc st = Throw e -> graph_error e.
Proof.
  intros Hrec. induction succs as [|p succs IH]; intros acc st e Hrun; [discriminate Hrun|].
  cbn [backward_loop] in Hrun. destruct (rec p st) as [[f st']|x] eqn:Hp.
  - exact (IH _ _ _ Hrun).
  - injection Hrun as <-. exact (Hrec _ _ _ Hp).
Qed.

Lemma backwardPass_throws depth :
  forall nodeId st e,
    backwardPass nodeMap adjacencyList graph_edges forward projectCompletion depth nodeId st
    = Throw e ->
    graph_error e.
Proof.
  induction depth as [|depth IH]; intros nodeId st e Hrun.
  - injection Hrun as <-. left; reflexivity.
  - cbn [backwardPass] in Hrun. destruct (latestStart st !! nodeId); [discriminate Hrun|].
    destruct (default [] (adjacencyList !! nodeId)) as [|s succs].
    + destruct (nodeMap !! nodeId); [discriminate Hrun|]. injection Hrun as <-.
      right; left; reflexivity.
    + destruct (backward_loop _ _ _ _ _ _) as [[m st']|x] eqn:Hloop.
      * destruct (nodeMap !! nodeId); [discriminate Hrun|]. injection Hrun as <-.
        right; left; reflexivity.
      * injection Hrun as <-. exact (backward_loop_throws _ _ _ IH _ _ _ Hloop).
Qed.

Lemma backward_all_throws depth ns :
  forall st e,
    backward_all nodeMap adjacencyList graph_edges forward projectCompletion depth ns st
    = Throw e ->
    graph_error e.
Proof.
  induction ns as [|n ns IH]; intros st e Hrun; [discriminate Hrun|].
  cbn [backward_all] in Hrun.
  destruct (backwardPass _ _ _ _ _ _ _ _) as [[f st']|x] eqn:Hp.
  - exact (IH _ _ Hrun).
  - injection Hrun as <-. exact (backwardPass_throws _ _ _ _ Hp).
Qed.
End GraphErrors.

Lemma mark_edges_throws (m : gmap string GraphNode) (es : list GraphEdge) (e : exn) :
  mark_edges m es = Throw e -> graph_error e.
Proof.
  induction es as [|edge es IH]; intros Hrun; [discriminate Hrun|].
  cbn [mark_edges] in Hrun. destruct (mark_edge m edge) as [edge'|x] eqn:He.
  - destruct (mark_edges m es) as [rest|x]; [discriminate Hrun|].
    injection Hrun as <-. exact (IH eq_refl).
  - injection Hrun as <-. unfold mark_edge in He.
    destruct (m !! edge_from edge) as [fromNode|].
    + destruct (node_is_critical fromNode); [|discriminate He].
      destruct (m !! edge_to edge); [discriminate He|]. injection He as <-.
      right; right; reflexivity.
    + injection He as <-. right; right; reflexivity.
Qed.

Lemma calculateCriticalPath_throws (depth : nat) (g : DependencyGraph) (e : exn) :
  calculateCriticalPath depth g = Throw e -> graph_error e.
Proof.
  unfold calculateCriticalPath. intros Hrun.
  destruct (forward_all _ _ _ _ _ _) as [fw|x] eqn:Hfw.
  2: { injection Hrun as <-. exact (forward_all_throws _ _ _ _ _ _ _ Hfw). }
  destruct (backward_all _ _ _ _ _ _ _ _) as [bw|x] eqn:Hbw.
  2: { injection Hrun as <-. exact (backward_all_throws _ _ _ _ _ _ _ _ _ Hbw). }
  destruct (mark_edges _ _) as [edges'|x] eqn:Hmark; [discriminate Hrun|].
  injection Hrun as <-. exact (mark_edges_throws _ _ _ Hmark).
Qed.

Lemma dfs_loop_throws rec path neighbors :
  (forall n p s e, rec n p s = Throw e -> e = stack_overflow) ->
  forall st e, dfs_loop rec path neighbors st = Throw e -> e = stack_overflow.
Proof.
  intros Hrec. induction neighbors as [|n neighbors IH]; intros st e Hrun;
    [discriminate Hrun|].
  cbn [dfs_loop] in Hrun. destruct (negb _).
  - destruct (rec n path st) as [[[|] st1]|x] eqn:Hn.
    + discriminate Hrun.
    + exact (IH _ _ Hrun).
    + injection Hrun as <-. exact (Hrec _ _ _ _ Hn).
  - destruct (bool_decide _); [discriminate Hrun | exact (IH _ _ Hrun)].
Qed.

Lemma dfs_throws adjacencyList depth :
  forall id path st e, dfs adjacencyList depth id path st = Throw e -> e = stack_overflow.
Proof.
  induction depth as [|depth IH]; intros id path st e Hrun.
  - injection Hrun as <-. reflexivity.
  - cbn [dfs] in Hrun. destruct (dfs_loop _ _ _ _) as [[[|] st2]|x] eqn:Hloop;
      try discriminate Hrun.
    injection Hrun as <-. exact (dfs_loop_throws _ _ _ IH _ _ Hloop).
Qed.

Lemma detectCycles_throws (depth : nat) (g : DependencyGraph) (e : exn) :
  detectCycles depth g = Throw e -> graph_error e.
Proof.
  rewrite detectCycles_run. generalize dfs_start.
  induction (nodes g) as [|n ns IH]; intros st Hrun; [discriminate Hrun|].
  cbn [dfs_all] in Hrun. destruct (negb _); [|exact (IH _ Hrun)].
  destruct (dfs _ _ _ _ _) as [[b st1]|x] eqn:Hd; [exact (IH _ Hrun)|].
  cbn in Hrun. injection Hrun as <-. left. exact (dfs_throws _ _ _ _ _ _ Hd).
Qed.

Lemma handleError_graph_error (e : exn) (fallback : string) :
  graph_error e ->
  handleError e fallback
  = {| statusCode := 500; success := false; error := Some "INTERNAL_ERROR";
       response_message := Some (message e); data := None |}.
Proof. intros [->|[->| ->]]; reflexivity. Qed.

(** *** The tenant's graph *)

Lemma filter_and_true {A} (p : A -> bool) (l : list A) :
  List.filter (fun x => p x && true) l = List.filter p l.
Proof. apply filter_ext. intros x. apply andb_true_r. Qed.

Lemma built_graph_nodes (user : User) (w : World) (id : string) :
  In id (node_ids (built_graph user None w))
  <-> work_item_exists (user_tenant_id user) id w.
Proof.
  unfold node_ids, built_graph, buildDependencyGraph, select_work_items, work_item_exists.
  cbn [nodes]. rewrite List.map_map. cbn [node_id]. rewrite filter_and_true, in_map_iff.
  split.
  - intros (wi & Hid & Hin). apply filter_In in Hin as [Hin Ht].
    apply String.eqb_eq in Ht. exists wi; auto.
  - intros (wi & Hin & Ht & Hid). exists wi. split; [exact Hid|].
    apply filter_In. split; [exact Hin | apply String.eqb_eq, Ht].
Qed.

Lemma built_graph_pairs (user : User) (w : World) :
  edge_pairs (built_graph user None w)
  = tenant_edges (user_tenant_id user) (dependency_edges w).
Proof.
  unfold edge_pairs, built_graph, buildDependencyGraph, select_dependencies, tenant_edges.
  cbn [edges]. rewrite List.map_map. cbn [edge_from edge_to]. rewrite filter_and_true.
  reflexivity.
Qed.

Lemma edges_join_nodes_pairs (g : DependencyGraph) :
  edges_join_nodes g
  <-> forall a b, In (a, b) (edge_pairs g) -> In a (node_ids g) /\ In b (node_ids g).
Proof.
  split.
  - intros H a b Hin. apply in_edge_pairs in Hin as (e & He & <- & <-). exact (H e He).
  - intros H e He. apply H. apply in_edge_pairs. exists e; auto.
Qed.

Lemma built_graph_ok (user : User) (w : World) :
  edges_join_nodes (built_graph user None w)
  /\ acyclic (edge_pairs (built_graph user None w))
  <-> tenant_store_ok (user_tenant_id user) w.
Proof.
  unfold tenant_store_ok. rewrite edges_join_nodes_pairs, built_graph_pairs.
  split; intros [Hjoin Hacy]; (split; [|exact Hacy]).
  - intros de Hin Ht. rewrite <- !built_graph_nodes. apply Hjoin.
    apply in_tenant_edges. exists de; auto.
  - intros a b Hin. apply in_tenant_edges in Hin as (de & Hin & Ht & <- & <-).
    rewrite !built_graph_nodes. exact (Hjoin de Hin Ht).
Qed.

(** On a graph whose edges join its nodes and form no cycle, with a call
    depth of at least the number of nodes, the search returns and reports
    nothing. *)
Lemma detectCycles_joined (depth : nat) (g : DependencyGraph) :
  edges_join_nodes g -> acyclic (edge_pairs g) ->
  (length (nodes g) <= depth)%nat ->
  detectCycles depth g = Ok no_cycles.
Proof.
  intros Hjoin Hacy Hdepth.
  assert (Hacy' : acyclic (recorded_pairs g)).
  { intros n a Hw. apply (Hacy n a). apply (walk_mono _ _ _ _ _ (recorded_pairs_sub g) Hw). }
  destruct (detectCycles_total depth g) as [r Hr].
  - pose proof (size_list_to_set_le (node_ids g)) as Hle.
    pose proof (subseteq_size (dfs_universe g) (list_to_set (node_ids g))) as Hsub.
    assert (Hs : dfs_universe g ⊆ list_to_set (node_ids g)).
    { unfold dfs_universe. intros x Hx.
      apply elem_of_list_to_set, list_elem_of_In, in_app_or in Hx.
      apply elem_of_list_to_set, list_elem_of_In.
      destruct Hx as [Hx|Hx]; [exact Hx|].
      apply in_map_iff in Hx as (e & <- & He). exact (proj2 (Hjoin e He)). }
    specialize (Hsub Hs). unfold node_ids in Hle. rewrite length_map in Hle.
    unfold node_ids in Hsub. lia.
  - rewrite Hr. f_equal. exact (detectCycles_acyclic depth g r Hacy' Hr).
Qed.

(** *** [getDependencyGraph] and its callers *)

(** What a returned graph tells about the graph that was built. *)
Lemma getDependencyGraph_ok (depth : nat) (user : User) (workItemIds : option (list string))
    (w w' : World) (graph : DependencyGraph) :
  getDependencyGraph depth user workItemIds w = (Ok graph, w') ->
  w' = w
  /\ edges_join_nodes (built_graph user workItemIds w)
  /\ acyclic (edge_pairs (built_graph user workItemIds w))
  /\ node_ids graph = node_ids (built_graph user workItemIds w)
  /\ edge_pairs graph = edge_pairs (built_graph user workItemIds w)
  /\ cycle_detected graph = false /\ graph_cycles graph = Some [].
Proof.
  unfold getDependencyGraph. intros Hrun.
  destruct (calculateCriticalPath _ _) as [[cp g']|e] eqn:Hcalc; [|discriminate Hrun].
  destruct (detectCycles depth g') as [r|e] eqn:Hdet; [|discriminate Hrun].
  injection Hrun as <- <-.
  destruct (calculateCriticalPath_ok_graph _ _ _ Hcalc) as [Hjoin Hacy].
  destruct (calculateCriticalPath_shape _ _ _ _ Hcalc) as (Hids & _ & Hpairs & Hrec).
  assert (Hr : r = no_cycles).
  { apply (detectCycles_acyclic depth g' r); [|exact Hdet].
    rewrite Hrec. intros n a Hw. apply (Hacy n a).
    apply (walk_mono _ _ _ _ _ (recorded_pairs_sub _) Hw). }
  subst r. split; [reflexivity|]. split; [exact Hjoin|]. split; [exact Hacy|].
  split; [exact Hids|]. split; [exact Hpairs|]. split; reflexivity.
Qed.

Lemma edges_join_nodes_same (g g' : DependencyGraph) :
  node_ids g' = node_ids g -> edge_pairs g' = edge_pairs g ->
  edges_join_nodes g -> edges_join_nodes g'.
Proof.
  intros Hids Hpairs. rewrite !edges_join_nodes_pairs, Hids, Hpairs. auto.
Qed.

(** X18. Whenever [getDependencyGraph] returns, with or without a filter,
    the graph it returns says [cycle_detected = false] with an empty list of
    cycles, all its edges join returned nodes and they form no cycle: a graph
    with a cycle is never returned, and nothing is written. *)
Theorem getDependencyGraph_never_reports_cycle (depth : nat) (user : User)
    (workItemIds : option (list string)) (w w' : World) (graph : DependencyGraph) :
  getDependencyGraph depth user workItemIds w = (Ok graph, w') ->
  w' = w
  /\ cycle_detected graph = false /\ graph_cycles graph = Some []
  /\ edges_join_nodes graph /\ acyclic (edge_pairs graph).
Proof.
  intros Hrun.
  destruct (getDependencyGraph_ok _ _ _ _ _ _ Hrun)
    as (Hw & Hjoin & Hacy & Hids & Hpairs & Hflag & Hcycles).
  split; [exact Hw|]. split; [exact Hflag|]. split; [exact Hcycles|]. split.
  - exact (edges_join_nodes_same _ _ Hids Hpairs Hjoin).
  - rewrite Hpairs. exact Hacy.
Qed.

Lemma getDependencyGraph_never_reports_cycle_witness :
  exists graph,
    world_abc = world_abc
    /\ cycle_detected graph = false /\ graph_cycles graph = Some []
    /\ edges_join_nodes graph /\ acyclic (edge_pairs graph).
Proof.
  eexists. eapply (getDependencyGraph_never_reports_cycle 3 alice None world_abc).
  vm_compute. reflexivity.
Defined.

Lemma getDependencyGraph_runs (depth : nat) (user : User) (w : World) :
  tenant_store_ok (user_tenant_id user) w ->
  (length (select_work_items (user_tenant_id user) None w) <= depth)%nat ->
  exists graph,
    getDependencyGraph depth user None w = (Ok graph, w)
    /\ edges_join_nodes graph /\ acyclic (edge_pairs graph)
    /\ length (nodes graph) = length (select_work_items (user_tenant_id user) None w).
Proof.
  intros Hok Hdepth. apply built_graph_ok in Hok as [Hjoin Hacy].
  assert (Hlen : length (nodes (built_graph user None w))
                 = length (select_work_items (user_tenant_id user) None w)).
  { unfold built_graph, buildDependencyGraph. cbn [nodes]. apply length_map. }
  destruct (calculateCriticalPath_runs (built_graph user None w) depth Hjoin Hacy)
    as (fw & bw & analysis & edges' & Hrun & _); [lia|].
  destruct (calculateCriticalPath_shape _ _ _ _ Hrun) as (Hids & _ & Hpairs & _).
  pose proof (edges_join_nodes_same _ _ Hids Hpairs Hjoin) as Hjoin'.
  assert (Hacy' := Hacy). rewrite <- Hpairs in Hacy'.
  unfold getDependencyGraph. rewrite Hrun.
  rewrite (detectCycles_joined depth _ Hjoin' Hacy').
  2: { cbn [nodes]. rewrite length_map. lia. }
  eexists. split; [reflexivity|]. cbn [nodes edges]. split; [|split].
  - apply (edges_join_nodes_same _ _ Hids Hpairs Hjoin).
  - exact Hacy'.
  - rewrite length_map. exact Hlen.
Qed.

(** X19. With a call depth of at least the number of the tenant's work
    items, the three reads of the whole tenant ([getDependencyGraph] without
    filter, [getCriticalPathAnalysis], [detectCyclesInTenant]) return exactly
    when the tenant's stored edges join work items of the tenant and form no
    cycle; otherwise each of them throws. *)
Theorem tenant_reads_return_iff (depth : nat) (user : User) (w : World) :
  (length (select_work_items (user_tenant_id user) None w) <= depth)%nat ->
  ((exists graph, getDependencyGraph depth user None w = (Ok graph, w))
   <-> tenant_store_ok (user_tenant_id user) w)
  /\ ((exists analysis, getCriticalPathAnalysis depth user w = (Ok analysis, w))
      <-> tenant_store_ok (user_tenant_id user) w)
  /\ ((exists r, detectCyclesInTenant depth user w = (Ok r, w))
      <-> tenant_store_ok (user_tenant_id user) w).
Proof.
  intros Hdepth.
  assert (Hback : forall graph w', getDependencyGraph depth user None w = (Ok graph, w') ->
                                   tenant_store_ok (user_tenant_id user) w).
  { intros graph w' Hrun.
    destruct (getDependencyGraph_ok _ _ _ _ _ _ Hrun) as (_ & Hjoin & Hacy & _).
    apply built_graph_ok. auto. }
  split; [|split]; split.
  - intros [graph Hrun]. exact (Hback _ _ Hrun).
  - intros Hok. destruct (getDependencyGraph_runs depth user w Hok Hdepth) as (graph & Hrun & _).
    exists graph. exact Hrun.
  - intros [analysis Hrun]. unfold getCriticalPathAnalysis in Hrun.
    destruct (getDependencyGraph depth user None w) as [[graph|e] w'] eqn:Hg;
      [exact (Hback _ _ eq_refl) | discriminate Hrun].
  - intros Hok.
    destruct (getDependencyGraph_runs depth user w Hok Hdepth)
      as (graph & Hrun & Hjoin & Hacy & Hlen).
    unfold getCriticalPathAnalysis. rewrite Hrun.
    destruct (calculateCriticalPath_runs graph depth Hjoin Hacy)
      as (fw & bw & analysis & edges' & Hcalc & _); [lia|].
    rewrite Hcalc. eexists. reflexivity.
  - intros [r Hrun]. unfold detectCyclesInTenant in Hrun.
    destruct (getDependencyGraph depth user None w) as [[graph|e] w'] eqn:Hg;
      [exact (Hback _ _ eq_refl) | discriminate Hrun].
  - intros Hok.
    destruct (getDependencyGraph_runs depth user w Hok Hdepth)
      as (graph & Hrun & Hjoin & Hacy & Hlen).
    unfold detectCyclesInTenant. rewrite Hrun.
    rewrite (detectCycles_joined depth graph Hjoin Hacy) by lia.
    eexists. reflexivity.
Qed.

Lemma tenant_reads_return_witness :
  ((exists graph, getDependencyGraph 3 alice None world_abc = (Ok graph, world_abc))
   <-> tenant_store_ok (user_tenant_id alice) world_abc)
  /\ ((exists analysis, getCriticalPathAnalysis 3 alice world_abc = (Ok analysis, world_abc))
      <-> tenant_store_ok (user_tenant_id alice) world_abc)
  /\ ((exists r, detectCyclesInTenant 3 alice world_abc = (Ok r, world_abc))
      <-> tenant_store_ok (user_tenant_id alice) world_abc).
Proof.
  apply (tenant_reads_return_iff 3 alice world_abc). vm_compute. lia.
Defined.

(** X20. [detectCyclesInTenant] never reports a cycle: whenever it returns,
    its result is [has_cycles = false] with no cycle, no affected work item
    and no suggestion, and nothing is written. *)
Theorem detectCyclesInTenant_never_reports (depth : nat) (user : User) (w w' : World)
    (r : CycleDetectionResult) :
  detectCyclesInTenant depth user w = (Ok r, w') ->
  r = no_cycles /\ w' = w.
Proof.
  unfold detectCyclesInTenant. intros Hrun.
  destruct (getDependencyGraph depth user None w) as [[graph|e] w1] eqn:Hg;
    [|discriminate Hrun].
  destruct (detectCycles depth graph) as [r'|e] eqn:Hdet; [|discriminate Hrun].
  injection Hrun as <- <-.
  destruct (getDependencyGraph_ok _ _ _ _ _ _ Hg) as (Hw & _ & Hacy & _ & Hpairs & _).
  split; [|exact Hw].
  apply (detectCycles_acyclic depth graph r'); [|exact Hdet].
  intros n a Hwalk. apply (Hacy n a). rewrite <- Hpairs.
  apply (walk_mono _ _ _ _ _ (recorded_pairs_sub _) Hwalk).
Qed.

Lemma detectCyclesInTenant_never_reports_witness :
  exists r, r = no_cycles /\ world_abc = world_abc.
Proof.
  eexists. eapply (detectCyclesInTenant_never_reports 3 alice world_abc).
  vm_compute. reflexivity.
Defined.

Lemma built_graph_filtered_nodes (user : User) (ids : list string) (w : World) (id : string) :
  In id (node_ids (built_graph user (Some ids) w))
  <-> work_item_exists (user_tenant_id user) id w /\ In id ids.
Proof.
  unfold node_ids, built_graph, buildDependencyGraph, select_work_items, work_item_exists.
  cbn [nodes]. rewrite List.map_map. cbn [node_id]. rewrite in_map_iff. split.
  - intros (wi & Hid & Hin). apply filter_In in Hin as [Hin Hc].
    apply andb_true_iff in Hc as [Ht Hi]. apply String.eqb_eq in Ht.
    apply array_includes_In in Hi. rewrite Hid in Hi. split; [exists wi; auto | exact Hi].
  - intros ((wi & Hin & Ht & Hid) & Hi). exists wi. split; [exact Hid|].
    apply filter_In. split; [exact Hin|]. apply andb_true_iff. split.
    + apply String.eqb_eq, Ht.
    + apply array_includes_In. rewrite Hid. exact Hi.
Qed.

(** X21. A filtered [getDependencyGraph] returns only when the filter is
    closed under the tenant's edges: every stored edge of the tenant with an
    endpoint in the filter has both endpoints in the filter, and both are
    work items of the tenant. With any other filter the call throws. *)
Theorem filtered_graph_needs_closed_filter (depth : nat) (user : User) (ids : list string)
    (w w' : World) (graph : DependencyGraph) :
  getDependencyGraph depth user (Some ids) w = (Ok graph, w') ->
  forall de, In de (dependency_edges w) -> dep_tenant_id de = user_tenant_id user ->
    In (dep_from_id de) ids \/ In (dep_to_id de) ids ->
    (In (dep_from_id de) ids /\ work_item_exists (user_tenant_id user) (dep_from_id de) w)
    /\ (In (dep_to_id de) ids /\ work_item_exists (user_tenant_id user) (dep_to_id de) w).
Proof.
  intros Hrun de Hin Ht Hids.
  destruct (getDependencyGraph_ok _ _ _ _ _ _ Hrun) as (_ & Hjoin & _).
  assert (He : In {| edge_id := dep_id de; edge_from := dep_from_id de;
                     edge_to := dep_to_id de; edge_type := dep_dependency_type de;
                     edge_lag_days := dep_lag_days de; edge_is_critical := false |}
                  (edges (built_graph user (Some ids) w))).
  { unfold built_graph, buildDependencyGraph, select_dependencies. cbn [edges].
    apply in_map_iff. exists de. split; [reflexivity|].
    apply filter_In. split; [exact Hin|]. apply andb_true_iff. split.
    - apply String.eqb_eq, Ht.
    - apply orb_true_iff. destruct Hids as [H|H]; [left | right];
        apply array_includes_In, H. }
  destruct (Hjoin _ He) as [Hf Hto]. cbn [edge_from edge_to] in Hf, Hto.
  apply built_graph_filtered_nodes in Hf, Hto. tauto.
Qed.

Lemma filtered_graph_needs_closed_filter_witness :
  (In idA [idA; idB] /\ work_item_exists tenant1 idA world_ab)
  /\ (In idB [idA; idB] /\ work_item_exists tenant1 idB world_ab).
Proof.
  apply (filtered_graph_needs_closed_filter 3 alice [idA; idB] world_ab world_ab
           (fst (match getDependencyGraph 3 alice (Some [idA; idB]) world_ab with
                 | (Ok graph, _) => (graph, tt)
                 | (Throw _, _) => (empty_graph, tt)
                 end))
           ltac:(vm_compute; reflexivity) (stored_edge edgeAB idA idB 0)).
  - left; reflexivity.
  - reflexivity.
  - left; left; reflexivity.
Defined.

(** *** The read endpoints of the controller *)

Lemma getDependencyGraph_cases (depth : nat) (user : User)
    (workItemIds : option (list string)) (w : World) :
  (exists graph, getDependencyGraph depth user workItemIds w = (Ok graph, w))
  \/ (exists e, getDependencyGraph depth user workItemIds w = (Throw e, w) /\ graph_error e).
Proof.
  unfold getDependencyGraph.
  destruct (calculateCriticalPath _ _) as [[cp g']|e] eqn:Hcalc.
  - destruct (detectCycles depth g') as [r|e] eqn:Hdet.
    + left. eexists. reflexivity.
    + right. exists e. split; [reflexivity | exact (detectCycles_throws _ _ _ Hdet)].
  - right. exists e. split; [reflexivity | exact (calculateCriticalPath_throws _ _ _ Hcalc)].
Qed.

Lemma error_reply_graph_error {A} (e : exn) (fallback : string) :
  graph_error e -> read_reply (@error_reply A e fallback).
Proof.
  intros He. right. unfold error_reply. rewrite (handleError_graph_error e fallback He).
  repeat split.
Qed.

(* ===================================================================== *)
(** * Critical path method: which nodes come out critical *)
(* ===================================================================== *)

Lemma Math_min_idem (a : jsnum) : Math_min a a = a.
Proof. destruct a; cbn; try reflexivity. rewrite Z.min_id. reflexivity. Qed.

Lemma Math_min_assoc (a b c : jsnum) :
  Math_min a (Math_min b c) = Math_min (Math_min a b) c.
Proof.
  destruct a, b, c; cbn; try reflexivity. rewrite Z.min_assoc. reflexivity.
Qed.

Lemma fold_max_in (zs : list Z) (a : Z) :
  fold_left Z.max zs a = a \/ In (fold_left Z.max zs a) zs.
Proof.
  revert a; induction zs as [|z zs IH]; intros a; cbn [fold_left]; [left; reflexivity|].
  destruct (IH (Z.max a z)) as [H|H]; [|right; right; exact H].
  rewrite H. destruct (Z.max_spec a z) as [[_ ->]|[_ ->]]; [right; left | left]; reflexivity.
Qed.

(** The completion time is the earliest finish of some node. *)
Lemma projectCompletion_of_attained (fw : ForwardState) (t : Z) :
  projectCompletion_of fw = Fin t ->
  exists id, earliestFinish fw !! id = Some t.
Proof.
  unfold projectCompletion_of, Math_max_all. rewrite <- (List.map_map snd Fin).
  destruct (map_to_list (earliestFinish fw)) as [|[k z] rest] eqn:Hlist;
    [discriminate|].
  cbn [List.map fold_left Math_max snd]. rewrite fold_max_fin. intros Heq.
  injection Heq as Heq.
  assert (Hin : In t (List.map snd ((k, z) :: rest))).
  { destruct (fold_max_in (List.map snd rest) z) as [H|H].
    - left. cbn [snd]. congruence.
    - right. rewrite <- Heq. exact H. }
  apply in_map_iff in Hin as ([k' z'] & Hz & Hin). cbn [snd] in Hz. subst z'.
  exists k'. apply elem_of_map_to_list, list_elem_of_In. rewrite Hlist. exact Hin.
Qed.

Section BackwardShape.
Variable g : DependencyGraph.
Variable fw : ForwardState.
Variable T : jsnum.

Local Abbreviation nodeMap := (nodeMap_of (nodes g)).
Local Abbreviation adj := (adjacencyList_of g).

Lemma backward_loop_shape rec id succs :
  (forall s st r st', rec s st = Ok (r, st') -> bwd_shape g fw T st -> bwd_shape g fw T st') ->
  forall acc st r st',
    backward_loop (edges g) rec id succs acc st = Ok (r, st') ->
    bwd_shape g fw T st -> Math_min T acc = acc ->
    bwd_shape g fw T st' /\ Math_min T r = r.
Proof.
  intros Hrec. induction succs as [|s succs IH]; intros acc st r st' Hrun Hshape Hacc.
  - cbn [backward_loop] in Hrun. injection Hrun as <- <-. auto.
  - cbn [backward_loop] in Hrun.
    destruct (rec s st) as [[ss st1]|e] eqn:Hs; [|discriminate Hrun].
    apply (IH _ _ _ _ Hrun (Hrec _ _ _ _ Hs Hshape)).
    rewrite Math_min_assoc, Hacc. reflexivity.
Qed.

Lemma backwardPass_shape depth :
  forall id st r st',
    backwardPass nodeMap adj (edges g) fw T depth id st = Ok (r, st') ->
    bwd_shape g fw T st -> bwd_shape g fw T st'.
Proof.
  induction depth as [|depth IH]; intros id st r st' Hrun Hshape; [discriminate Hrun|].
  cbn [backwardPass] in Hrun.
  destruct (latestStart st !! id); [injection Hrun as _ <-; exact Hshape|].
  destruct (default [] (adj !! id)) as [|s0 succs] eqn:Hsuccs.
  - destruct (nodeMap !! id) as [node|]; [|discriminate Hrun].
    injection Hrun as _ <-. intros k lf Hk. cbn [latestFinish] in Hk.
    destruct (string_dec id k) as [<-|Hne].
    + rewrite lookup_insert_eq in Hk. injection Hk as <-. rewrite Hsuccs. reflexivity.
    + rewrite lookup_insert_ne in Hk by exact Hne. exact (Hshape k lf Hk).
  - destruct (backward_loop _ _ _ _ _ _) as [[m st1]|e] eqn:Hloop; [|discriminate Hrun].
    destruct (backward_loop_shape _ id _ IH _ _ _ _ Hloop Hshape (Math_min_idem T))
      as [Hshape1 Hm].
    destruct (nodeMap !! id) as [node|]; [|discriminate Hrun].
    injection Hrun as _ <-. intros k lf Hk. cbn [latestFinish] in Hk.
    destruct (string_dec id k) as [<-|Hne].
    + rewrite lookup_insert_eq in Hk. injection Hk as <-. rewrite Hsuccs. exact Hm.
    + rewrite lookup_insert_ne in Hk by exact Hne. exact (Hshape1 k lf Hk).
Qed.

Lemma backward_all_shape depth ns :
  forall st st',
    backward_all nodeMap adj (edges g) fw T depth ns st = Ok st' ->
    bwd_shape g fw T st -> bwd_shape g fw T st'.
Proof.
  induction ns as [|n ns IH]; intros st st' Hrun Hshape.
  - injection Hrun as <-. exact Hshape.
  - cbn [backward_all] in Hrun.
    destruct (backwardPass _ _ _ _ _ _ _ _) as [[r st1]|e] eqn:Hpass; [|discriminate Hrun].
    exact (IH _ _ Hrun (backwardPass_shape _ _ _ _ _ Hpass Hshape)).
Qed.
End BackwardShape.

(** Whenever [calculateCriticalPath] returns, its result is read off two
    finished passes: every node has a schedule, the latest finishes have the
    shape the backward pass gives them, and the completion time bounds the
    earliest finishes. *)
Lemma calculateCriticalPath_schedule (depth : nat) (g g' : DependencyGraph)
    (analysis : CriticalPathAnalysis) :
  calculateCriticalPath depth g = Ok (analysis, g') ->
  exists fw bw,
    nodes g' = List.map (annotate fw bw) (nodes g)
    /\ path analysis = critical_ids fw bw (nodes g)
    /\ total_duration_days analysis = projectCompletion_of fw
    /\ (forall id, In id (node_ids g) -> exists es ef ls lf, schedule_of g fw bw id es ef ls lf)
    /\ bwd_shape g fw (projectCompletion_of fw) bw
    /\ (forall id ef, earliestFinish fw !! id = Some ef -> In id (node_ids g)).
Proof.
  intros Hrun.
  destruct (calculateCriticalPath_ok_graph depth g _ Hrun) as [Hend Hacy].
  assert (Hmono : calculateCriticalPath (Nat.max depth (length (nodes g))) g
                  = Ok (analysis, g')).
  { rewrite <- Hrun. apply calculateCriticalPath_mono; [lia|].
    rewrite Hrun. discriminate. }
  clear Hrun. revert Hmono.
  generalize (Nat.le_max_r depth (length (nodes g))).
  generalize (Nat.max depth (length (nodes g))). clear depth. intros depth Hdepth Hrun.
  unfold calculateCriticalPath in Hrun.
  destruct (forward_all_ok g Hend Hacy depth Hdepth (nodes g) empty_forward
              (fwd_inv_empty g) (fun x Hx => Hx))
    as (fw & Hfw & Hinv & _ & Hall).
  rewrite Hfw in Hrun.
  assert (Hkeys : forall id ef, earliestFinish fw !! id = Some ef -> In id (node_ids g)).
  { intros id ef Hef. destruct (Hinv id ef Hef) as (node & s & Hnode & _).
    apply nodeMap_of_some in Hnode as [Hin <-]. apply in_map, Hin. }
  assert (Hcase : nodes g = [] \/ exists n0, In (node_id n0) (node_ids g)).
  { unfold node_ids. destruct (nodes g) as [|n0 ns0]; [left; reflexivity|].
    right; exists n0; left; reflexivity. }
  destruct Hcase as [Hnil|[n0 H0]].
  - rewrite Hnil in Hrun. cbn [backward_all List.filter List.map] in Hrun.
    destruct (mark_edges _ _) as [edges'|e]; [|discriminate Hrun].
    injection Hrun as <- <-. exists fw, empty_backward. cbn [nodes path total_duration_days].
    rewrite Hnil. split; [reflexivity|]. split; [reflexivity|]. split; [reflexivity|].
    split; [|split; [|exact Hkeys]].
    + intros id Hid. unfold node_ids in Hid. rewrite Hnil in Hid. destruct Hid.
    + intros id lf Hlf. cbn in Hlf. rewrite lookup_empty in Hlf. discriminate Hlf.
  - destruct (earliestFinish fw !! node_id n0) as [f0|] eqn:Hf0;
      [|exfalso; exact (Hall _ H0 Hf0)].
    destruct (projectCompletion_of_fin fw _ _ Hf0) as (t & Ht & Hbound).
    rewrite Ht in Hrun.
    destruct (backward_all_ok g Hend Hacy fw Hinv Hall t Hbound depth Hdepth (nodes g)
                empty_backward (bwd_inv_empty g fw) (fun x Hx => Hx))
      as (bw & Hbw & Hbinv & _ & Hball).
    rewrite Hbw in Hrun.
    destruct (mark_edges _ _) as [edges'|e]; [|discriminate Hrun].
    injection Hrun as <- <-. exists fw, bw. cbn [nodes path total_duration_days].
    rewrite Ht.
    split; [reflexivity|]. split; [reflexivity|]. split; [reflexivity|].
    split; [|split; [|exact Hkeys]].
    + intros id Hid.
      destruct (latestStart bw !! id) as [ls|] eqn:Hls; [|exfalso; exact (Hball _ Hid Hls)].
      destruct (Hbinv id ls Hls) as (node & ef & lf & Hnode & Hef & Hlf & -> & Hle).
      destruct (Hinv id ef Hef) as (node' & es & Hnode' & Hes & Hfs & Hstart).
      assert (node' = node) by congruence; subst node'.
      exists es, ef, (lf - node_duration_days node), lf.
      repeat split; try assumption. exists node. repeat split; assumption.
    + apply (backward_all_shape g fw (Fin t) depth (nodes g) _ _ Hbw).
      intros id lf Hlf. cbn in Hlf. rewrite lookup_empty in Hlf. discriminate Hlf.
Qed.

Lemma annotate_critical g fw bw (n : GraphNode) es ef ls lf :
  schedule_of g fw bw (node_id n) es ef ls lf ->
  node_is_critical (annotate fw bw n) = (ls - es =? 0)
  /\ slack_of fw bw (node_id n) = Fin (ls - es).
Proof.
  intros (Hes & Hef & Hls & Hlf & _).
  unfold annotate, slack_of, num_get, jnum_get; cbn.
  rewrite Hes, Hls. cbn. split; [|reflexivity].
  destruct (ls - es); reflexivity.
Qed.

Lemma in_critical_ids fw bw (ns : list GraphNode) (n : GraphNode) :
  In n ns -> is_zero (slack_of fw bw (node_id n)) = true ->
  In (node_id n) (critical_ids fw bw ns).
Proof.
  intros Hin Hz. unfold critical_ids. apply in_map. apply filter_In. auto.
Qed.

(** X23. Whenever [calculateCriticalPath] returns, every node without
    outgoing edge comes out critical, whatever its finish time: its latest
    finish is its own earliest finish, its slack is 0, and its id is on the
    returned path. *)
Theorem nodes_without_successor_are_critical (depth : nat) (g g' : DependencyGraph)
    (analysis : CriticalPathAnalysis) (n : GraphNode) :
  calculateCriticalPath depth g = Ok (analysis, g') ->
  In n (nodes g') ->
  (forall e, In e (edges g) -> edge_from e <> node_id n) ->
  node_is_critical n = true
  /\ node_slack_days n = Some (Fin 0)
  /\ node_latest_finish n = node_earliest_finish n
  /\ In (node_id n) (path analysis).
Proof.
  intros Hrun Hn Hsink.
  destruct (calculateCriticalPath_schedule depth g g' analysis Hrun)
    as (fw & bw & Hnodes & Hpath & _ & Hsched & Hshape & _).
  rewrite Hnodes in Hn. apply in_map_iff in Hn as (n0 & <- & Hn0).
  cbn [annotate node_id] in Hsink |- *.
  assert (Hid : In (node_id n0) (node_ids g)) by (apply in_map, Hn0).
  destruct (Hsched _ Hid) as (es & ef & ls & lf & Hs).
  destruct (annotate_schedule g fw bw n0 es ef ls lf Hs) as (_ & H2 & _ & H4 & H5).
  destruct (annotate_critical g fw bw n0 es ef ls lf Hs) as [Hcrit Hslack].
  cbn [annotate node_is_critical node_slack_days node_latest_finish node_earliest_finish]
    in H2, H4, H5, Hcrit |- *.
  pose proof Hs as (_ & Hef & _ & Hlf & _ & node & _ & Hefs & Hlsf & _).
  assert (Hsuccs : default [] (adjacencyList_of g !! node_id n0) = []).
  { rewrite adjacencyList_of_lookup.
    destruct (in_dec string_dec (node_id n0) (node_ids g)); [|reflexivity].
    cbn [default from_option Datatypes.id].
    destruct (successors_of (edges g) (node_id n0)) as [|s rest] eqn:Hs0; [reflexivity|].
    assert (Hin : In s (successors_of (edges g) (node_id n0))) by (rewrite Hs0; left; reflexivity).
    apply in_successors_of in Hin as (e & He & Hfrom & _).
    exfalso. exact (Hsink e He Hfrom). }
  pose proof (Hshape _ _ Hlf) as Hfin. rewrite Hsuccs in Hfin.
  unfold num_get in Hfin. rewrite Hef in Hfin. injection Hfin as Hfin.
  assert (Hzero : ls - es = 0) by lia.
  rewrite Hzero in *. split; [exact Hcrit|]. split; [exact H5|].
  split; [rewrite H2, H4, Hfin; reflexivity|].
  rewrite Hpath. apply in_critical_ids; [exact Hn0|]. rewrite Hslack. reflexivity.
Qed.

Lemma nodes_without_successor_witness :
  exists n,
    node_is_critical n = true
    /\ node_slack_days n = Some (Fin 0)
    /\ node_latest_finish n = node_earliest_finish n
    /\ In (node_id n) [idA; idB].
Proof.
  eexists.
  eapply (nodes_without_successor_are_critical 2 two_node_graph _
            {| path := [idA; idB]; total_duration_days := _; bottlenecks := _;
               risk_score := _; completion_probability := _ |}).
  - vm_compute. reflexivity.
  - right. left. reflexivity.
  - intros e [<-|[]]. vm_compute. discriminate.
Defined.

(** X24. Whenever [calculateCriticalPath] returns on a graph with at least
    one node, the total duration is the earliest finish of some node, that
    node is critical and on the returned path (which is therefore not
    empty), and no node has a latest finish after the total duration. *)
Theorem critical_path_reaches_completion (depth : nat) (g g' : DependencyGraph)
    (analysis : CriticalPathAnalysis) :
  calculateCriticalPath depth g = Ok (analysis, g') ->
  nodes g <> [] ->
  exists t,
    total_duration_days analysis = Fin t
    /\ (exists n, In n (nodes g')
                  /\ node_earliest_finish n = Some (Fin t)
                  /\ node_latest_finish n = Some (Fin t)
                  /\ node_is_critical n = true
                  /\ In (node_id n) (path analysis))
    /\ forall m, In m (nodes g') ->
         exists ef lf, node_earliest_finish m = Some (Fin ef)
                       /\ node_latest_finish m = Some (Fin lf)
                       /\ ef <= lf /\ lf <= t.
Proof.
  intros Hrun Hnonempty.
  destruct (calculateCriticalPath_schedule depth g g' analysis Hrun)
    as (fw & bw & Hnodes & Hpath & Htotal & Hsched & Hshape & Hkeys).
  assert (H0 : exists n0, In n0 (nodes g)).
  { destruct (nodes g) as [|n0 ns]; [contradiction | exists n0; left; reflexivity]. }
  destruct H0 as [n0 Hn0].
  destruct (Hsched (node_id n0) (in_map node_id _ _ Hn0)) as (es0 & ef0 & ls0 & lf0 & Hs0).
  destruct Hs0 as (_ & Hef0 & _).
  destruct (projectCompletion_of_fin fw _ _ Hef0) as (t & Ht & Hbound).
  assert (Hlate : forall id es ef ls lf, schedule_of g fw bw id es ef ls lf -> lf <= t).
  { intros id es ef ls lf (_ & Hef & _ & Hlf & _).
    pose proof (Hshape _ _ Hlf) as Hfin. rewrite Ht in Hfin.
    destruct (default [] (adjacencyList_of g !! id)).
    - unfold num_get in Hfin. rewrite Hef in Hfin. injection Hfin as ->.
      exact (Hbound _ _ Hef).
    - cbn in Hfin. injection Hfin as Hfin. lia. }
  exists t. split; [rewrite Htotal; exact Ht|]. split.
  - destruct (projectCompletion_of_attained fw t Ht) as [id Hid].
    pose proof (Hkeys _ _ Hid) as Hnode. unfold node_ids in Hnode.
    apply in_map_iff in Hnode as (n & <- & Hn).
    destruct (Hsched (node_id n) (in_map node_id _ _ Hn)) as (es & ef & ls & lf & Hs).
    pose proof (Hlate _ _ _ _ _ Hs) as Hle.
    destruct (annotate_schedule g fw bw n es ef ls lf Hs) as (_ & H2 & _ & H4 & _).
    destruct (annotate_critical g fw bw n es ef ls lf Hs) as [Hcrit Hslack].
    pose proof Hs as (_ & Hef & _ & _ & _ & node & _ & Hefs & Hlsf & Hge).
    assert (Heft : ef = t) by congruence.
    assert (Hlft : lf = t) by lia.
    assert (Hzero : ls - es = 0) by lia.
    exists (annotate fw bw n). rewrite Hnodes. split; [apply in_map, Hn|].
    split; [rewrite H2, Heft; reflexivity|]. split; [rewrite H4, Hlft; reflexivity|].
    split; [rewrite Hcrit, Hzero; reflexivity|].
    rewrite Hpath. change (node_id (annotate fw bw n)) with (node_id n).
    apply in_critical_ids; [exact Hn|]. rewrite Hslack, Hzero. reflexivity.
  - intros m Hm. rewrite Hnodes in Hm. apply in_map_iff in Hm as (n & <- & Hn).
    destruct (Hsched (node_id n) (in_map node_id _ _ Hn)) as (es & ef & ls & lf & Hs).
    destruct (annotate_schedule g fw bw n es ef ls lf Hs) as (_ & H2 & _ & H4 & _).
    exists ef, lf. split; [exact H2|]. split; [exact H4|].
    split; [|exact (Hlate _ _ _ _ _ Hs)].
    destruct Hs as (_ & _ & _ & _ & _ & node & _ & _ & _ & Hge). exact Hge.
Qed.

Lemma critical_path_reaches_completion_witness :
  exists analysis g',
    calculateCriticalPath 2 two_node_graph = Ok (analysis, g')
    /\ exists t, total_duration_days analysis = Fin t.
Proof.
  eexists _, _. split; [vm_compute; reflexivity|].
  edestruct (critical_path_reaches_completion 2 two_node_graph) as (t & Ht & _);
    [vm_compute; reflexivity | discriminate | exists t; exact Ht].
Defined.
(* ===================================================================== *)
(** * The analysis layer: bottlenecks and the built graph *)
(* ===================================================================== *)

Lemma in_insert_by_impact (b x : Bottleneck) (l : list Bottleneck) :
  In x (insert_by_impact b l) <-> x = b \/ In x l.
Proof.
  induction l as [|c l IH]; cbn [insert_by_impact].
  - cbn. intuition.
  - destruct (delay_impact_days b <? delay_impact_days c); cbn [In]; [rewrite IH|];
      intuition.
Qed.

Lemma in_sort_by_impact (x : Bottleneck) (l : list Bottleneck) :
  In x (sort_by_impact l) <-> In x l.
Proof.
  unfold sort_by_impact. induction l as [|b l IH]; cbn [fold_right]; [reflexivity|].
  rewrite in_insert_by_impact, IH. cbn [In]. intuition.
Qed.

Lemma insert_by_impact_sorted (b : Bottleneck) (l : list Bottleneck) :
  StronglySorted by_impact l -> StronglySorted by_impact (insert_by_impact b l).
Proof.
  induction 1 as [|c l Hsorted IH Hall]; cbn [insert_by_impact].
  - constructor; [constructor | constructor].
  - destruct (delay_impact_days b <? delay_impact_days c) eqn:Hlt.
    + apply Z.ltb_lt in Hlt. constructor; [exact IH|].
      apply List.Forall_forall. intros x Hx. apply in_insert_by_impact in Hx as [->|Hx].
      * unfold by_impact. lia.
      * rewrite List.Forall_forall in Hall. exact (Hall x Hx).
    + apply Z.ltb_ge in Hlt. constructor; [constructor; assumption|].
      apply List.Forall_forall. intros x [<-|Hx].
      * unfold by_impact. lia.
      * rewrite List.Forall_forall in Hall. specialize (Hall x Hx). unfold by_impact in *. lia.
Qed.

Lemma sort_by_impact_sorted (l : list Bottleneck) :
  StronglySorted by_impact (sort_by_impact l).
Proof.
  unfold sort_by_impact. induction l as [|b l IH]; cbn [fold_right]; [constructor|].
  apply insert_by_impact_sorted, IH.
Qed.

(** The bottleneck [identifyBottlenecks] makes of a node, before sorting. *)
Lemma in_identifyBottlenecks (g : DependencyGraph) (b : Bottleneck) :
  In b (identifyBottlenecks g) ->
  exists node high blocks blocked long,
    In node (nodes g)
    /\ node_is_critical node = true
    /\ node_slack_days node = Some (Fin 0)
    /\ blocked = String.eqb (node_status node) "blocked"
    /\ long = (30 <? node_duration_days node)
    /\ risk_factors b
       = ((if high : bool then ["High dependency count"] else [])
          ++ (if blocks : bool then ["Blocks many items"] else [])
          ++ (if blocked then ["Currently blocked"] else [])
          ++ (if long then ["Long duration"] else []))%list
    /\ risk_factors b <> []
    /\ b = {| work_item_id := node_id node;
              bottleneck_title := node_title node;
              delay_impact_days := node_duration_days node;
              risk_factors := risk_factors b;
              mitigation_suggestions := generateMitigationSuggestions (risk_factors b) |}.
Proof.
  unfold identifyBottlenecks. rewrite in_sort_by_impact, in_flat_map.
  intros (node & Hnode & Hb).
  destruct (node_is_critical node) eqn:Hcrit; [|destruct Hb].
  destruct (node_slack_days node) as [slack|] eqn:Hslack; [|destruct Hb].
  cbn [andb] in Hb. destruct slack as [| | |z]; try destruct Hb.
  destruct z; try destruct Hb. cbn [is_zero] in Hb.
  destruct (0 <? length _)%nat eqn:Hlen; [|destruct Hb].
  destruct Hb as [<-|[]]. cbn [risk_factors].
  exists node. eexists _, _, _, _. split; [exact Hnode|]. split; [exact Hcrit|].
  split; [exact Hslack|]. split; [reflexivity|]. split; [reflexivity|].
  split; [reflexivity|]. split; [|reflexivity].
  intros Hnil. rewrite Hnil in Hlen. discriminate Hlen.
Qed.

(** X25. The bottlenecks [identifyBottlenecks] returns are in decreasing
    order of delay impact, and each one is a node of the graph marked
    critical with slack 0, carries the node's duration as its impact, and
    has at least one of the four risk factors. *)
Theorem identifyBottlenecks_sorted_critical (g : DependencyGraph) :
  StronglySorted by_impact (identifyBottlenecks g)
  /\ forall b, In b (identifyBottlenecks g) ->
       risk_factors b <> []
       /\ incl (risk_factors b) known_risk_factors
       /\ exists node,
            In node (nodes g)
            /\ work_item_id b = node_id node
            /\ bottleneck_title b = node_title node
            /\ delay_impact_days b = node_duration_days node
            /\ node_is_critical node = true
            /\ node_slack_days node = Some (Fin 0).
Proof.
  split; [apply sort_by_impact_sorted|].
  intros b Hb.
  destruct (in_identifyBottlenecks g b Hb)
    as (node & high & blocks & blocked & long & Hnode & Hcrit & Hslack & _ & _
        & Hfactors & Hne & Heq).
  split; [exact Hne|]. split.
  - rewrite Hfactors. unfold known_risk_factors.
    destruct high, blocks, blocked, long; intros x Hx; cbn in Hx |- *; intuition.
  - exists node. rewrite Heq. cbn. auto 10.
Qed.

(** X26. A bottleneck gets no mitigation suggestion exactly when its only
    risk factor is that it blocks many items: each of the three other
    factors brings at least one suggestion. *)
Theorem bottleneck_without_suggestion (g : DependencyGraph) (b : Bottleneck) :
  In b (identifyBottlenecks g) ->
  (mitigation_suggestions b = [] <-> risk_factors b = ["Blocks many items"]).
Proof.
  intros Hb.
  destruct (in_identifyBottlenecks g b Hb)
    as (node & high & blocks & blocked & long & _ & _ & _ & _ & _ & Hfactors & Hne & Heq).
  rewrite Heq. cbn [mitigation_suggestions risk_factors].
  rewrite Hfactors in Hne |- *.
  destruct high, blocks, blocked, long; cbn in Hne |- *;
    split; intros H; try reflexivity; try discriminate H; exfalso; apply Hne; reflexivity.
Qed.

Lemma bottleneck_without_suggestion_witness :
  mitigation_suggestions blocked_bottleneck = []
  <-> risk_factors blocked_bottleneck = ["Blocks many items"].
Proof.
  apply (bottleneck_without_suggestion critical_blocked_graph blocked_bottleneck).
  vm_compute. left. reflexivity.
Defined.

(** X27. Whenever [getCriticalPathAnalysis] returns, every bottleneck of the
    analysis is a work item of the returned critical path, the bottlenecks
    are in decreasing order of delay impact, and nothing is written. *)
Theorem analysis_bottlenecks_on_path (depth : nat) (user : User) (w w' : World)
    (analysis : CriticalPathAnalysis) :
  getCriticalPathAnalysis depth user w = (Ok analysis, w') ->
  w' = w
  /\ StronglySorted by_impact (bottlenecks analysis)
  /\ forall b, In b (bottlenecks analysis) -> In (work_item_id b) (path analysis).
Proof.
  unfold getCriticalPathAnalysis. intros Hrun.
  destruct (getDependencyGraph depth user None w) as [[graph|e] w1] eqn:Hg;
    [|discriminate Hrun].
  destruct (calculateCriticalPath depth graph) as [[cp g']|e] eqn:Hcalc; [|discriminate Hrun].
  injection Hrun as <- <-. cbn [bottlenecks path].
  destruct (getDependencyGraph_ok _ _ _ _ _ _ Hg) as (Hw & _).
  split; [exact Hw|]. split; [apply sort_by_impact_sorted|].
  intros b Hb.
  destruct (in_identifyBottlenecks g' b Hb)
    as (node & _ & _ & _ & _ & Hnode & Hcrit & _ & _ & _ & _ & _ & Heq).
  destruct (calculateCriticalPath_schedule depth graph g' cp Hcalc)
    as (fw & bw & Hnodes & Hpath & _).
  rewrite Hnodes in Hnode. apply in_map_iff in Hnode as (n0 & <- & Hn0).
  rewrite Heq, Hpath. cbn [work_item_id annotate node_id].
  apply in_critical_ids; [exact Hn0 | exact Hcrit].
Qed.

Lemma analysis_bottlenecks_on_path_witness :
  exists analysis,
    world_abc = world_abc
    /\ StronglySorted by_impact (bottlenecks analysis)
    /\ forall b, In b (bottlenecks analysis) -> In (work_item_id b) (path analysis).
Proof.
  eexists. eapply (analysis_bottlenecks_on_path 3 alice world_abc).
  vm_compute. reflexivity.
Defined.


(* ===================================================================== *)
(** * Critical path method: a second run on the annotated graph *)
(* ===================================================================== *)

Lemma nodeMap_of_fmap (f : GraphNode -> GraphNode) (ns : list GraphNode) :
  (forall n, node_id (f n) = node_id n) ->
  nodeMap_of (List.map f ns) = f <$> nodeMap_of ns.
Proof.
  intros Hid. unfold nodeMap_of.
  assert (H : forall m : gmap string GraphNode,
             fold_left (fun m n => <[node_id n := n]> m) (List.map f ns) (f <$> m)
             = f <$> fold_left (fun m n => <[node_id n := n]> m) ns m).
  { induction ns as [|n ns IH]; intros m; [reflexivity|].
    cbn [List.map fold_left]. rewrite Hid, <- fmap_insert. apply IH. }
  rewrite <- (H ∅), fmap_empty. reflexivity.
Qed.

Lemma empty_adjacency_ids (ns ns' : list GraphNode) :
  List.map node_id ns' = List.map node_id ns -> empty_adjacency ns' = empty_adjacency ns.
Proof.
  unfold empty_adjacency. generalize (∅ : gmap string (list string)).
  revert ns'; induction ns as [|n ns IH]; intros [|n' ns'] m Heq; try discriminate Heq;
    [reflexivity|].
  cbn [List.map] in Heq. injection Heq as Hid Hrest. cbn [fold_left]. rewrite Hid.
  apply IH, Hrest.
Qed.

Lemma fold_push_core (key val : GraphEdge -> string) (es es' : list GraphEdge) :
  List.map (fun e => (key e, val e)) es' = List.map (fun e => (key e, val e)) es ->
  forall m, fold_left (fun m e => push_to m (key e) (val e)) es' m
            = fold_left (fun m e => push_to m (key e) (val e)) es m.
Proof.
  revert es'; induction es as [|e es IH]; intros [|e' es'] Heq m; try discriminate Heq;
    [reflexivity|].
  cbn [List.map] in Heq. injection Heq as Hk Hv Hrest. cbn [fold_left]. rewrite Hk, Hv.
  apply IH, Hrest.
Qed.

Lemma lagDays_core (es es' : list GraphEdge) (a b : string) :
  List.map edge_core es' = List.map edge_core es -> lagDays es' a b = lagDays es a b.
Proof.
  unfold lagDays, find_edge.
  revert es'; induction es as [|e es IH]; intros [|e' es'] Heq; try discriminate Heq;
    [reflexivity|].
  cbn [List.map] in Heq. injection Heq as _ Hfrom Hto _ Hlag Hrest.
  cbn [List.find]. rewrite Hfrom, Hto.
  destruct (String.eqb (edge_from e) a && String.eqb (edge_to e) b);
    [exact Hlag | exact (IH es' Hrest)].
Qed.

Section Congruence.
Variable nodeMap nodeMap' : gmap string GraphNode.
Variable adjacencyList reverseAdjacencyList : gmap string (list string).
Variable es es' : list GraphEdge.
Hypothesis same_durations :
  forall id, node_duration_days <$> (nodeMap' !! id) = node_duration_days <$> (nodeMap !! id).
Hypothesis same_lags : forall a b, lagDays es' a b = lagDays es a b.

Lemma forward_loop_congr rec rec' id preds :
  (forall p s, rec' p s = rec p s) ->
  forall acc st,
    forward_loop es' rec' id preds acc st = forward_loop es rec id preds acc st.
Proof.
  intros Hrec. induction preds as [|p preds IH]; intros acc st; [reflexivity|].
  cbn [forward_loop]. rewrite Hrec. destruct (rec p st) as [[f st']|e]; [|reflexivity].
  rewrite same_lags. apply IH.
Qed.

Lemma forwardPass_congr depth :
  forall id st,
    forwardPass nodeMap' reverseAdjacencyList es' depth id st
    = forwardPass nodeMap reverseAdjacencyList es depth id st.
Proof.
  induction depth as [|depth IH]; intros id st; [reflexivity|].
  cbn [forwardPass]. destruct (earliestFinish st !! id); [reflexivity|].
  rewrite (forward_loop_congr _ _ id _ IH).
  destruct (forward_loop _ _ _ _ _ _) as [[m st']|e]; [|reflexivity].
  pose proof (same_durations id) as Hd.
  destruct (nodeMap' !! id) as [n'|], (nodeMap !! id) as [n|]; cbn in Hd;
    try discriminate Hd; [|reflexivity].
  injection Hd as ->. reflexivity.
Qed.

Lemma forward_all_congr depth (ns ns' : list GraphNode) :
  List.map node_id ns' = List.map node_id ns ->
  forall st,
    forward_all nodeMap' reverseAdjacencyList es' depth ns' st
    = forward_all nodeMap reverseAdjacencyList es depth ns st.
Proof.
  revert ns'; induction ns as [|n ns IH]; intros [|n' ns'] Heq st; try discriminate Heq;
    [reflexivity|].
  cbn [List.map] in Heq. injection Heq as Hid Hrest. cbn [forward_all].
  rewrite Hid, forwardPass_congr.
  destruct (forwardPass _ _ _ _ _ _) as [[f st']|e]; [|reflexivity].
  apply IH, Hrest.
Qed.

Variable forward : ForwardState.
Variable projectCompletion : jsnum.

Lemma backward_loop_congr rec rec' id succs :
  (forall p s, rec' p s = rec p s) ->
  forall acc st,
    backward_loop es' rec' id succs acc st = backward_loop es rec id succs acc st.
Proof.
  intros Hrec. induction succs as [|p succs IH]; intros acc st; [reflexivity|].
  cbn [backward_loop]. rewrite Hrec. destruct (rec p st) as [[f st']|e]; [|reflexivity].
  rewrite same_lags. apply IH.
Qed.

Lemma backwardPass_congr depth :
  forall id st,
    backwardPass nodeMap' adjacencyList es' forward projectCompletion depth id st
    = backwardPass nodeMap adjacencyList es forward projectCompletion depth id st.
Proof.
  induction depth as [|depth IH]; intros id st; [reflexivity|].
  cbn [backwardPass]. destruct (latestStart st !! id); [reflexivity|].
  pose proof (same_durations id) as Hd.
  destruct (default [] (adjacencyList !! id)) as [|s succs].
  - destruct (nodeMap' !! id) as [n'|], (nodeMap !! id) as [n|]; cbn in Hd;
      try discriminate Hd; [|reflexivity].
    injection Hd as ->. reflexivity.
  - rewrite (backward_loop_congr _ _ id _ IH).
    destruct (backward_loop _ _ _ _ _ _) as [[m st']|e]; [|reflexivity].
    destruct (nodeMap' !! id) as [n'|], (nodeMap !! id) as [n|]; cbn in Hd;
      try discriminate Hd; [|reflexivity].
    injection Hd as ->. reflexivity.
Qed.

Lemma backward_all_congr depth (ns ns' : list GraphNode) :
  List.map node_id ns' = List.map node_id ns ->
  forall st,
    backward_all nodeMap' adjacencyList es' forward projectCompletion depth ns' st
    = backward_all nodeMap adjacencyList es forward projectCompletion depth ns st.
Proof.
  revert ns'; induction ns as [|n ns IH]; intros [|n' ns'] Heq st; try discriminate Heq;
    [reflexivity|].
  cbn [List.map] in Heq. injection Heq as Hid Hrest. cbn [backward_all].
  rewrite Hid, backwardPass_congr.
  destruct (backwardPass _ _ _ _ _ _ _ _) as [[f st']|e]; [|reflexivity].
  apply IH, Hrest.
Qed.
End Congruence.

Lemma mark_edges_again (m : gmap string GraphNode) (es es' : list GraphEdge) :
  mark_edges m es = Ok es' -> mark_edges m es' = Ok es'.
Proof.
  revert es'; induction es as [|e es IH]; intros es' Hrun.
  - injection Hrun as <-. reflexivity.
  - cbn [mark_edges] in Hrun.
    destruct (mark_edge m e) as [e'|x] eqn:He; [|discriminate Hrun].
    destruct (mark_edges m es) as [rest|x]; [|discriminate Hrun].
    injection Hrun as <-. cbn [mark_edges]. rewrite (IH rest eq_refl).
    assert (He' : mark_edge m e' = Ok e').
    { unfold mark_edge in He |- *.
      destruct (m !! edge_from e) as [fromNode|] eqn:Hf; [|discriminate He].
      destruct (node_is_critical fromNode) eqn:Hc.
      - destruct (m !! edge_to e) as [toNode|] eqn:Ht; [|discriminate He].
        injection He as <-. cbn [edge_from edge_to]. rewrite Hf, Hc, Ht. reflexivity.
      - injection He as <-. cbn [edge_from]. rewrite Hf, Hc. reflexivity. }
    rewrite He'. reflexivity.
Qed.

Lemma critical_ids_annotated fw bw fw' bw' (ns : list GraphNode) :
  critical_ids fw bw (List.map (annotate fw' bw') ns) = critical_ids fw bw ns.
Proof.
  unfold critical_ids. induction ns as [|n ns IH]; [reflexivity|].
  cbn [List.map List.filter annotate node_id].
  destruct (is_zero (slack_of fw bw (node_id n))); cbn [List.map annotate node_id];
    rewrite IH; reflexivity.
Qed.

(** A second run of [calculateCriticalPath], on a graph that carries the
    nodes and edges the first run left, returns the same analysis and leaves
    the nodes and edges as they are. *)
Lemma calculateCriticalPath_again (depth : nat) (g g' g2 : DependencyGraph)
    (analysis : CriticalPathAnalysis) :
  calculateCriticalPath depth g = Ok (analysis, g') ->
  nodes g2 = nodes g' -> edges g2 = edges g' ->
  calculateCriticalPath depth g2
  = Ok (analysis,
        {| nodes := nodes g'; edges := edges g';
           critical_path := critical_path g2; cycle_detected := cycle_detected g2;
           graph_cycles := graph_cycles g2 |}).
Proof.
  intros Hrun Hnodes Hedges.
  pose proof (calculateCriticalPath_shape _ _ _ _ Hrun) as (_ & Hcore & _).
  unfold calculateCriticalPath in Hrun.
  destruct (forward_all _ _ _ _ _ _) as [fw|e] eqn:Hfw; [|discriminate Hrun].
  destruct (backward_all _ _ _ _ _ _ _ _) as [bw|e] eqn:Hbw; [|discriminate Hrun].
  destruct (mark_edges _ _) as [edges'|e] eqn:Hmark; [|discriminate Hrun].
  injection Hrun as <- <-. cbn [nodes edges] in Hnodes, Hedges, Hcore |- *.
  assert (Hids : List.map node_id (nodes g2) = List.map node_id (nodes g)).
  { rewrite Hnodes. apply annotate_ids. }
  assert (Hadj : adjacencyList_of g2 = adjacencyList_of g).
  { unfold adjacencyList_of. rewrite (empty_adjacency_ids _ _ Hids), Hedges.
    apply (fold_push_core edge_from edge_to).
    apply (map_eq_project edge_core (fun e => (edge_from e, edge_to e))); [|exact Hcore].
    intros x y Hxy. unfold edge_core in Hxy. congruence. }
  assert (Hradj : reverseAdjacencyList_of g2 = reverseAdjacencyList_of g).
  { unfold reverseAdjacencyList_of. rewrite (empty_adjacency_ids _ _ Hids), Hedges.
    apply (fold_push_core edge_to edge_from).
    apply (map_eq_project edge_core (fun e => (edge_to e, edge_from e))); [|exact Hcore].
    intros x y Hxy. unfold edge_core in Hxy. congruence. }
  assert (Hdur : forall id,
             node_duration_days <$> (nodeMap_of (nodes g2) !! id)
             = node_duration_days <$> (nodeMap_of (nodes g) !! id)).
  { intros id. rewrite Hnodes, (nodeMap_of_fmap (annotate fw bw)) by reflexivity.
    rewrite lookup_fmap. destruct (nodeMap_of (nodes g) !! id); reflexivity. }
  assert (Hlag : forall a b, lagDays (edges g2) a b = lagDays (edges g) a b).
  { intros a b. rewrite Hedges. apply lagDays_core, Hcore. }
  unfold calculateCriticalPath. rewrite Hadj, Hradj.
  rewrite (forward_all_congr _ _ _ _ _ Hdur Hlag depth _ _ Hids), Hfw.
  rewrite (backward_all_congr _ _ _ _ _ Hdur Hlag fw _ depth _ _ Hids), Hbw.
  rewrite Hnodes, Hedges.
  rewrite List.map_map. rewrite (map_ext _ (annotate fw bw) (fun n => eq_refl)).
  rewrite (mark_edges_again _ _ _ Hmark).
  fold (critical_ids fw bw (List.map (annotate fw bw) (nodes g))).
  rewrite critical_ids_annotated. reflexivity.
Qed.

(** X29. [calculateCriticalPath] is idempotent: run on the graph it
    returned, it returns the same analysis and the same graph (the date
    annotations being offsets in days from the time of the run). *)
Theorem calculateCriticalPath_idempotent (depth : nat) (g g' : DependencyGraph)
    (analysis : CriticalPathAnalysis) :
  calculateCriticalPath depth g = Ok (analysis, g') ->
  calculateCriticalPath depth g' = Ok (analysis, g').
Proof.
  intros Hrun. rewrite (calculateCriticalPath_again depth g g' g' analysis Hrun eq_refl eq_refl).
  destruct g'; reflexivity.
Qed.

Lemma calculateCriticalPath_idempotent_witness :
  exists analysis g',
    calculateCriticalPath 2 two_node_graph = Ok (analysis, g')
    /\ calculateCriticalPath 2 g' = Ok (analysis, g').
Proof.
  eexists _, _. split; [vm_compute; reflexivity|].
  apply (calculateCriticalPath_idempotent 2 two_node_graph). vm_compute. reflexivity.
Defined.

(** X30. The analysis of [getCriticalPathAnalysis] is the one of the graph
    [getDependencyGraph] returns for the tenant: its path is the graph's
    [critical_path], and its bottlenecks, risk score and completion
    probability are computed from the graph's nodes and edges as
    returned. *)
Theorem analysis_agrees_with_graph (depth : nat) (user : User) (w w' : World)
    (analysis : CriticalPathAnalysis) :
  getCriticalPathAnalysis depth user w = (Ok analysis, w') ->
  exists graph,
    getDependencyGraph depth user None w = (Ok graph, w')
    /\ path analysis = critical_path graph
    /\ bottlenecks analysis = identifyBottlenecks graph
    /\ risk_score analysis = calculateRiskScore graph
    /\ completion_probability analysis
       = estimateCompletionProbability (calculateRiskScore graph).
Proof.
  unfold getCriticalPathAnalysis. intros Hrun.
  destruct (getDependencyGraph depth user None w) as [[graph|e] w1] eqn:Hg;
    [|discriminate Hrun].
  exists graph. unfold getDependencyGraph in Hg.
  destruct (calculateCriticalPath depth (built_graph user None w)) as [[cp1 g1]|e] eqn:Hfirst;
    [|discriminate Hg].
  destruct (detectCycles depth g1) as [r|e]; [|discriminate Hg].
  injection Hg as <- <-.
  erewrite (calculateCriticalPath_again depth _ g1 _ cp1 Hfirst) in Hrun;
    [|reflexivity|reflexivity].
  injection Hrun as <- <-. cbn [path bottlenecks risk_score completion_probability critical_path].
  split; [reflexivity|]. repeat split.
Qed.

Lemma analysis_agrees_with_graph_witness :
  exists analysis graph,
    getDependencyGraph 3 alice None world_abc = (Ok graph, world_abc)
    /\ path analysis = critical_path graph
    /\ bottlenecks analysis = identifyBottlenecks graph
    /\ risk_score analysis = calculateRiskScore graph
    /\ completion_probability analysis
       = estimateCompletionProbability (calculateRiskScore graph).
Proof.
  eexists. eapply (analysis_agrees_with_graph 3 alice world_abc world_abc).
  vm_compute. reflexivity.
Defined.
